(** * HEAT 3D plasma heat flux: field-line-trace driver and heat-flux model

    A shallow embedding of [source/plasma3DClass.py] (classes [plasma3D] and
    [heatflux3D] and the module-level profile functions) together with the
    properties claimed about it.

    Conventions of the embedding.
    - A numpy [float64] array is a [list R]; a boolean array is a
      [list bool].  Arithmetic is the arithmetic of the real numbers:
      rounding, [inf] and [nan] have no counterpart here.
    - A Python call that can raise returns a [result]; the order of the
      checks is the order in which the interpreter meets them.
    - Functions of numpy, scipy and the operating system whose text is not
      part of the repository are fields of the classes [SciPy] and [Host]. *)

From Stdlib Require Import String Ascii Bool DecimalString.
From Stdlib Require Import Reals Lra Lia List Sorted Arith.
Import ListNotations.
Set Warnings "-abstract-large-number".
Open Scope string_scope.
Open Scope list_scope.
Open Scope R_scope.

(** ** Python exceptions and results *)

Inductive exn : Type :=
| ValueError (msg : string)
| RuntimeError (msg : string)
| TypeError
| AttributeError
| IndexError
| UnboundLocalError
| ZeroDivisionError
| CalledProcessError.

Inductive result (A : Type) : Type :=
| Ok (a : A)
| Raise (e : exn).

Arguments Ok {A} a.
Arguments Raise {A} e.

Definition bind {A B : Type} (m : result A) (k : A -> result B) : result B :=
  match m with
  | Ok a => k a
  | Raise e => Raise e
  end.

Notation "x <- m ;; k" := (bind m (fun x => k))
  (at level 61, m at next level, right associativity).
Notation "' pat <- m ;; k" := (bind m (fun x => match x with pat => k end))
  (at level 61, pat pattern, m at next level, right associativity).

(** An attribute that still holds [None]: using it as a value raises. *)
Definition attr {A : Type} (o : option A) : result A :=
  match o with
  | Some a => Ok a
  | None => Raise TypeError
  end.

(** A method of an attribute that still holds [None]: the call raises. *)
Definition method {A : Type} (o : option A) : result A :=
  match o with
  | Some a => Ok a
  | None => Raise AttributeError
  end.

(** ** Strings *)

(** [a + b] on Python strings. *)
Notation "a +s+ b" := (String.append a b) (at level 60, right associativity).

(** [sub in s] of Python. *)
Fixpoint contains (sub s : string) : bool :=
  if String.prefix sub s then true
  else match s with
       | EmptyString => false
       | String _ s' => contains sub s'
       end.

Definition str_in (s : string) (l : list string) : bool :=
  existsb (String.eqb s) l.

(** ** numpy arrays *)

Module Np.

Definition ltb (a b : R) : bool := if Rlt_dec a b then true else false.
Definition eqb (a b : R) : bool := if Req_dec_T a b then true else false.

Definition zeros (n : nat) : list R := repeat 0 n.
Definition full {A : Type} (n : nat) (a : A) : list A := repeat a n.

(** [np.where(b)[0]]: the positions that hold [True]. *)
Fixpoint where_from (i : nat) (b : list bool) : list nat :=
  match b with
  | [] => []
  | true :: b' => i :: where_from (S i) b'
  | false :: b' => where_from (S i) b'
  end.
Definition where_ (b : list bool) : list nat := where_from 0 b.

(** [a[i] = v] for one position inside the array. *)
Fixpoint set_nth {A : Type} (i : nat) (v : A) (a : list A) : list A :=
  match a, i with
  | [], _ => []
  | _ :: a', O => v :: a'
  | x :: a', S i' => x :: set_nth i' v a'
  end.

(** [a[idx] = v] for an index array [idx]: every index must lie inside the
    array. *)
Definition put {A : Type} (idx : list nat) (v : A) (a : list A) : result (list A) :=
  if forallb (fun i => Nat.ltb i (length a)) idx
  then Ok (fold_left (fun acc i => set_nth i v acc) idx a)
  else Raise IndexError.

(** [a & b] on boolean arrays, with numpy's broadcasting of an array of
    length one. *)
Definition logical_and (a b : list bool) : result (list bool) :=
  if Nat.eqb (length a) (length b) then Ok (map (fun ab => fst ab && snd ab) (combine a b))
  else match a, b with
       | _, [y] => Ok (map (fun x => x && y) a)
       | [x], _ => Ok (map (fun y => x && y) b)
       | _, _ => Raise (ValueError "operands could not be broadcast together")
       end.

(** [a[mask]]: boolean-mask selection; the lengths must agree. *)
Fixpoint select_aux {A : Type} (a : list A) (mask : list bool) : list A :=
  match a, mask with
  | x :: a', true :: m' => x :: select_aux a' m'
  | _ :: a', false :: m' => select_aux a' m'
  | _, _ => []
  end.
Definition select {A : Type} (a : list A) (mask : list bool) : result (list A) :=
  if Nat.eqb (length a) (length mask) then Ok (select_aux a mask)
  else Raise IndexError.

(** [a[mask] = v] for a scalar [v]. *)
Fixpoint assign_scalar_aux {A : Type} (a : list A) (mask : list bool) (v : A) : list A :=
  match a, mask with
  | x :: a', m :: m' => (if m then v else x) :: assign_scalar_aux a' m' v
  | _, _ => a
  end.
Definition assign_scalar {A : Type} (a : list A) (mask : list bool) (v : A)
  : result (list A) :=
  if Nat.eqb (length a) (length mask) then Ok (assign_scalar_aux a mask v)
  else Raise IndexError.

(** [a[mask] = vals] for an array [vals]: the selected positions take the
    entries of [vals] in order; there must be exactly one per position. *)
Fixpoint assign_aux {A : Type} (a : list A) (mask : list bool) (vals : list A) : list A :=
  match a, mask with
  | x :: a', true :: m' =>
      match vals with
      | v :: vals' => v :: assign_aux a' m' vals'
      | [] => x :: assign_aux a' m' []
      end
  | x :: a', false :: m' => x :: assign_aux a' m' vals
  | _, _ => a
  end.
Definition count (mask : list bool) : nat := length (filter (fun b => b) mask).
Definition assign {A : Type} (a : list A) (mask : list bool) (vals : list A)
  : result (list A) :=
  if Nat.eqb (length a) (length mask) then
    if Nat.eqb (length vals) (count mask) then Ok (assign_aux a mask vals)
    else Raise (ValueError "NumPy boolean array indexing assignment")
  else Raise IndexError.

(** [a.max()] and Python's [max(a)], [min(a)]: no value on an empty array. *)
Definition amax (a : list R) : result R :=
  match a with
  | [] => Raise (ValueError "zero-size array to reduction operation maximum")
  | x :: a' => Ok (fold_left Rmax a' x)
  end.
Definition amin (a : list R) : result R :=
  match a with
  | [] => Raise (ValueError "zero-size array to reduction operation minimum")
  | x :: a' => Ok (fold_left Rmin a' x)
  end.

(** [a.argmax()], [a.argmin()]: the first position of the extreme value. *)
Fixpoint arg_from (better : R -> R -> bool) (a : list R) (i best : nat) (vbest : R) : nat :=
  match a with
  | [] => best
  | x :: a' => if better x vbest then arg_from better a' (S i) i x
               else arg_from better a' (S i) best vbest
  end.
Definition argmax (a : list R) : result nat :=
  match a with
  | [] => Raise (ValueError "attempt to get argmax of an empty sequence")
  | x :: a' => Ok (arg_from (fun u v => ltb v u) a' 1 0 x)
  end.
Definition argmin (a : list R) : result nat :=
  match a with
  | [] => Raise (ValueError "attempt to get argmin of an empty sequence")
  | x :: a' => Ok (arg_from ltb a' 1 0 x)
  end.

Definition sum (a : list R) : R := fold_right Rplus 0 a.

(** [np.mean(a)]; on an empty array numpy warns and yields [nan], which the
    real quotient [0 / 0] stands in for. *)
Definition mean (a : list R) : R := sum a / INR (length a).

(** [np.linspace(a, b, n)] for [n >= 2]. *)
Definition linspace (a b : R) (n : nat) : list R :=
  map (fun i => a + INR i * ((b - a) / INR (n - 1))) (seq 0 n).

(** [x ** y] for a positive exponent [y]: [0 ** y = 0]; a negative base
    with a fractional exponent is [nan] in numpy and is given [0] here. *)
Definition power (x y : R) : R :=
  if Rlt_dec 0 x then Rpower x y else 0.

(** [a[i]] for a position known to the caller. *)
Definition item (a : list R) (i : nat) : result R :=
  match nth_error a i with
  | Some x => Ok x
  | None => Raise IndexError
  end.

End Np.

(** [a / b] on two Python floats: a zero divisor raises.  (A quotient with
    a numpy operand raises nothing and is written [/].) *)
Definition float_div (a b : R) : result R :=
  if Np.eqb b 0 then Raise ZeroDivisionError else Ok (a / b).

(** ** The heat-flux model object *)

(** The part of the equilibrium object [ep] that the model reads:
    [ep.psiFunc.ev] and the entries of the dictionary [ep.g]. *)
Record equilParams : Type := {
  psiFunc_ev : R -> R -> R;
  g_psiSep : R;
  g_psiAxis : R;
  g_RmAxis : R;
  g_ZmAxis : R;
  g_R1 : R;
  g_Xdim : R;
  g_R : list R
}.

(** An instance of [heatflux3D] once [initializeHF3D] has run.  Attributes
    that Python leaves at [None] until a later call are options. *)
Record heatflux3D : Type := {
  hf_psimin : option (list R);
  hf_Lc : option (list R);
  hf_N : nat;
  hf_q : list R;
  hf_good : option (list bool);
  hf_pfr : option (list bool);
  hf_ep : equilParams;
  hf_HFS : option bool;
  hf_Lcmin : R;
  hf_lcfs : R;
  hf_lqCN : R;
  hf_S : R;
  hf_P : R;
  hf_coreRadFrac : R;
  hf_qBG : R;
  hf_kappa : R;
  hf_model : option string;
  hf_Psol : R;
  hf_fT : R -> R;
  hf_inputDir : string
}.

Definition set_laminar (hf : heatflux3D) (psimin Lc : list R) (n : nat) (q : list R)
  : heatflux3D :=
  {| hf_psimin := Some psimin; hf_Lc := Some Lc; hf_N := n; hf_q := q;
     hf_good := hf_good hf; hf_pfr := hf_pfr hf; hf_ep := hf_ep hf;
     hf_HFS := hf_HFS hf; hf_Lcmin := hf_Lcmin hf; hf_lcfs := hf_lcfs hf;
     hf_lqCN := hf_lqCN hf; hf_S := hf_S hf; hf_P := hf_P hf;
     hf_coreRadFrac := hf_coreRadFrac hf; hf_qBG := hf_qBG hf;
     hf_kappa := hf_kappa hf; hf_model := hf_model hf; hf_Psol := hf_Psol hf;
     hf_fT := hf_fT hf; hf_inputDir := hf_inputDir hf |}.

Definition set_good (hf : heatflux3D) (m : list bool) : heatflux3D :=
  {| hf_psimin := hf_psimin hf; hf_Lc := hf_Lc hf; hf_N := hf_N hf; hf_q := hf_q hf;
     hf_good := Some m; hf_pfr := hf_pfr hf; hf_ep := hf_ep hf;
     hf_HFS := hf_HFS hf; hf_Lcmin := hf_Lcmin hf; hf_lcfs := hf_lcfs hf;
     hf_lqCN := hf_lqCN hf; hf_S := hf_S hf; hf_P := hf_P hf;
     hf_coreRadFrac := hf_coreRadFrac hf; hf_qBG := hf_qBG hf;
     hf_kappa := hf_kappa hf; hf_model := hf_model hf; hf_Psol := hf_Psol hf;
     hf_fT := hf_fT hf; hf_inputDir := hf_inputDir hf |}.

Definition set_pfr (hf : heatflux3D) (m : list bool) : heatflux3D :=
  {| hf_psimin := hf_psimin hf; hf_Lc := hf_Lc hf; hf_N := hf_N hf; hf_q := hf_q hf;
     hf_good := hf_good hf; hf_pfr := Some m; hf_ep := hf_ep hf;
     hf_HFS := hf_HFS hf; hf_Lcmin := hf_Lcmin hf; hf_lcfs := hf_lcfs hf;
     hf_lqCN := hf_lqCN hf; hf_S := hf_S hf; hf_P := hf_P hf;
     hf_coreRadFrac := hf_coreRadFrac hf; hf_qBG := hf_qBG hf;
     hf_kappa := hf_kappa hf; hf_model := hf_model hf; hf_Psol := hf_Psol hf;
     hf_fT := hf_fT hf; hf_inputDir := hf_inputDir hf |}.

Definition set_HFS (hf : heatflux3D) (b : bool) : heatflux3D :=
  {| hf_psimin := hf_psimin hf; hf_Lc := hf_Lc hf; hf_N := hf_N hf; hf_q := hf_q hf;
     hf_good := hf_good hf; hf_pfr := hf_pfr hf; hf_ep := hf_ep hf;
     hf_HFS := Some b; hf_Lcmin := hf_Lcmin hf; hf_lcfs := hf_lcfs hf;
     hf_lqCN := hf_lqCN hf; hf_S := hf_S hf; hf_P := hf_P hf;
     hf_coreRadFrac := hf_coreRadFrac hf; hf_qBG := hf_qBG hf;
     hf_kappa := hf_kappa hf; hf_model := hf_model hf; hf_Psol := hf_Psol hf;
     hf_fT := hf_fT hf; hf_inputDir := hf_inputDir hf |}.

Definition set_q (hf : heatflux3D) (q : list R) : heatflux3D :=
  {| hf_psimin := hf_psimin hf; hf_Lc := hf_Lc hf; hf_N := hf_N hf; hf_q := q;
     hf_good := hf_good hf; hf_pfr := hf_pfr hf; hf_ep := hf_ep hf;
     hf_HFS := hf_HFS hf; hf_Lcmin := hf_Lcmin hf; hf_lcfs := hf_lcfs hf;
     hf_lqCN := hf_lqCN hf; hf_S := hf_S hf; hf_P := hf_P hf;
     hf_coreRadFrac := hf_coreRadFrac hf; hf_qBG := hf_qBG hf;
     hf_kappa := hf_kappa hf; hf_model := hf_model hf; hf_Psol := hf_Psol hf;
     hf_fT := hf_fT hf; hf_inputDir := hf_inputDir hf |}.

(** [heatflux3D.isGoodPoint]: [True] everywhere, then [False] at the
    positions where [psimin == 10]; while [psimin] is [None] the comparison
    is [False] and no position is found. *)
Definition isGoodPoint (hf : heatflux3D) : result (list bool) :=
  let mask := Np.full (hf_N hf) true in
  let fails := match hf_psimin hf with
               | Some psimin => Np.where_ (map (fun p => Np.eqb p 10) psimin)
               | None => []
               end in
  Np.put fails false mask.

(** [heatflux3D.isPFR]: [False] everywhere, then [True] at the positions
    where [psimin < 1] and [Lc < Lcmin]. *)
Definition isPFR (hf : heatflux3D) : result (list bool) :=
  psimin <- attr (hf_psimin hf) ;;
  Lc <- attr (hf_Lc hf) ;;
  let mask := Np.full (hf_N hf) false in
  cond <- Np.logical_and (map (fun p => Np.ltb p 1) psimin)
                         (map (fun l => Np.ltb l (hf_Lcmin hf)) Lc) ;;
  Np.put (Np.where_ cond) true mask.

(** [heatflux3D.updateLaminarData]. *)
Definition updateLaminarData (hf : heatflux3D) (psimin Lc : list R) : result heatflux3D :=
  let hf1 := set_laminar hf psimin Lc (length psimin) (Np.zeros (length psimin)) in
  good <- isGoodPoint hf1 ;;
  let hf2 := set_good hf1 good in
  pfr <- isPFR hf2 ;;
  Ok (set_pfr hf2 pfr).

(** ** Module-level profile functions *)

(** Return value of [Tprofile]: [T], or the pair [(T, dT)] when [deriv] is set. *)
Inductive Tret : Type :=
| T_only (T : R)
| T_deriv (T dT : R).

Definition Tret_T (r : Tret) : R :=
  match r with
  | T_only T => T
  | T_deriv T _ => T
  end.

(** The local [f] of [Tprofile], with the symmetry point [xs] and the half
    width [dw] of the pedestal. *)
Definition Tprofile_f (xs dw x : R) : R :=
  0.5 * tanh (2 * (xs - x) / dw) + 2 * exp (- x * 2).

(** [Tprofile(psi, Tped, deriv = False)]. *)
Definition Tprofile (psi Tped : R) (deriv : bool) : Tret :=
  let xs := 0.975 in
  let dw := 0.04 in
  let f := Tprofile_f xs dw in
  let T0 := Tped / (f (xs - dw) - f 1.2) in
  let T := T0 * (f psi - f 1.2) in
  if deriv then
    let dT := - T0 / dw * (1 - tanh (2 * (xs - psi) / dw) ^ 2) - T0 * 4 * exp (- psi * 2) in
    T_deriv T dT
  else T_only T.

(** ** scipy *)

(** The scipy functions the module calls: [scipy.special.erfc],
    [scipy.integrate.simps(y, x)] and the interpolant built by
    [scipy.interpolate.UnivariateSpline(x, y, s = 0, ext = 'const')], which
    raises on data it does not accept. *)
Class SciPy : Type := {
  erfc : R -> R;
  simps : list R -> list R -> R;
  UnivariateSpline : list R -> list R -> result (R -> R)
}.

(** The coefficients [a], [b], [c] of [eich_profile(s, lq, S, s0, q0, qBG, fx)].
    The widths [lq] and [S] are Python floats, so that [0.5*S/lq] raises when
    [lq] is zero. *)
Definition eich_abc (lq S fx : R) : result (R * R * R) :=
  let lq := lq * 1e-3 in
  let S := S * 1e-3 in
  let a := lq * fx in
  b <- float_div (0.5 * S) lq ;;
  let c := S * fx in
  Ok (a, b, c).

(** The closing expression of [eich_profile] at one position [s], a numpy
    value in every call of the module. *)
Definition eich_q `{SciPy} (abc : R * R * R) (s s0 q0 qBG : R) : R :=
  let '(a, b, c) := abc in
  0.5 * q0 * exp (b ^ 2 - (s - s0) / a) * erfc (b - (s - s0) / c) + qBG.

(** [eich_profile(s, lq, S, s0, q0, qBG = 0, fx = 1)] at one position [s]
    and on an array of positions. *)
Definition eich_profile `{SciPy} (s lq S s0 q0 qBG fx : R) : result R :=
  abc <- eich_abc lq S fx ;;
  Ok (eich_q abc s s0 q0 qBG).

Definition eich_profile_array `{SciPy} (s : list R) (lq S s0 q0 qBG fx : R)
  : result (list R) :=
  abc <- eich_abc lq S fx ;;
  Ok (map (fun si => eich_q abc si s0 q0 qBG) s).

(** ** Files, processes and the host *)

(** What a file holds, as far as this module reads or writes it: a points
    file with its header count, a numeric table (comment lines dropped), or
    lines of text. *)
Inductive file : Type :=
| PointsFile (n : nat) (rows : list (list R))
| TableFile (rows : list (list R))
| TextFile (lines : list string).

(** The file system is an association list from paths to files; the first
    binding of a path is the current one. *)
Definition FS : Type := list (string * file).

Fixpoint fs_read (fs : FS) (p : string) : option file :=
  match fs with
  | [] => None
  | (p', f) :: fs' => if String.eqb p p' then Some f else fs_read fs' p
  end.

Definition isfile (fs : FS) (p : string) : bool :=
  match fs_read fs p with
  | Some _ => true
  | None => false
  end.

Definition fs_write (fs : FS) (p : string) (f : file) : FS :=
  (p, f) :: filter (fun pf => negb (String.eqb p (fst pf))) fs.

(** The name of [p] inside directory [dir], when [p] lies directly in it. *)
Definition name_in (dir p : string) : option string :=
  let d := String.append dir "/" in
  if String.prefix d p then
    let name := String.substring (String.length d) (String.length p - String.length d) p in
    if contains "/" name then None else Some name
  else None.

(** [for f in glob.glob(dir + '/log*'): os.remove(f)]. *)
Definition remove_logs (fs : FS) (dir : string) : FS :=
  filter (fun pf => match name_in dir (fst pf) with
                    | Some name => negb (String.prefix "log" name)
                    | None => true
                    end) fs.

(** The state outside the interpreter: files, the lines of [ps aux], the
    working directory of the interpreter and the user name. *)
Record world : Type := {
  w_fs : FS;
  w_ps : list string;
  w_pwd : string;
  w_user : string
}.

Definition with_fs (w : world) (fs : FS) : world :=
  {| w_fs := fs; w_ps := w_ps w; w_pwd := w_pwd w; w_user := w_user w |}.

(** [subprocess.run(args, cwd = dir)] and [subprocess.call(args)] (where
    [dir] is the interpreter's own directory) block until the command ends
    and leave a changed world, or raise when the command cannot be started;
    [time.sleep] lets the other processes advance. *)
Class Host : Type := {
  run : list string -> string -> world -> result world;
  sleep : nat -> world -> world
}.

(** A two-dimensional table read by [np.genfromtxt]: no data row gives an
    empty one-dimensional array, one row a one-dimensional array, rows of
    different widths are refused. *)
Inductive ndarray : Type :=
| A1 (a : list R)
| A2 (rows : list (list R)).

Definition file_rows (f : file) : result (list (list R)) :=
  match f with
  | PointsFile _ rows => Ok rows
  | TableFile rows => Ok rows
  | TextFile _ => Raise (ValueError "Some errors were detected")
  end.

Definition genfromtxt (f : file) : result ndarray :=
  rows <- file_rows f ;;
  match rows with
  | [] => Ok (A1 [])
  | [r] => Ok (A1 r)
  | r :: _ =>
      if forallb (fun r' => Nat.eqb (length r') (length r)) rows then Ok (A2 rows)
      else Raise (ValueError "Some errors were detected")
  end.

(** [lamdata[:, j]]. *)
Definition column (a : ndarray) (j : nat) : result (list R) :=
  match a with
  | A1 _ => Raise IndexError
  | A2 rows =>
      match rows with
      | r :: _ => if Nat.ltb j (length r) then Ok (map (fun r' => nth j r' 0) rows)
                  else Raise IndexError
      | [] => Raise IndexError
      end
  end.

(** ** The deposition models *)

Section Models.
Context `{SciPy} `{Host}.

Definition truthy (o : option bool) : bool :=
  match o with
  | Some true => true
  | _ => false
  end.

(** The normalized flux along the midplane, at the radii [Rs]:
    [Z = ZmAxis*np.ones(len(R))], [psiFunc.ev(R, Z)]. *)
Definition midplane_Z (hf : heatflux3D) (Rs : list R) : list R :=
  map (fun o => g_ZmAxis (hf_ep hf) * o) (Np.full (length Rs) 1).

Definition midplane_psiN (hf : heatflux3D) (Rs : list R) : list R :=
  map (fun rz => psiFunc_ev (hf_ep hf) (fst rz) (snd rz)) (combine Rs (midplane_Z hf Rs)).

(** The interpolant [f] that [map_R_psi] builds: [R] along the midplane as
    a function of normalized flux. *)
Definition map_R_psi_f (hf : heatflux3D) (HFS : option bool) : result (R -> R) :=
  let HFS := match HFS with None => hf_HFS hf | Some b => Some b end in
  let ep := hf_ep hf in
  let Rs := if truthy HFS then Np.linspace (g_RmAxis ep) (g_R1 ep) 100
            else Np.linspace (g_RmAxis ep) (g_R1 ep + g_Xdim ep) 100 in
  UnivariateSpline (midplane_psiN hf Rs) Rs.

(** [map_R_psi(psi)] on an array and on a single value. *)
Definition map_R_psi (hf : heatflux3D) (psi : list R) : result (list R) :=
  f <- map_R_psi_f hf None ;;
  Ok (map f psi).

Definition map_R_psi_scalar (hf : heatflux3D) (psi : R) : result R :=
  f <- map_R_psi_f hf None ;;
  Ok (f psi).

(** [set_layer(psi, lq, S, lcfs = 1.0, q0 = 1, lobes = False)]. *)
Definition set_layer (hf : heatflux3D) (psi : list R) (lq S lcfs q0 : R) (lobes : bool)
  : result (list R * R) :=
  x <- map_R_psi hf psi ;;
  xsep <- map_R_psi_scalar hf 1.0 ;;
  s0 <- (if lobes then map_R_psi_scalar hf lcfs else map_R_psi_scalar hf 1.0) ;;
  s <- (if lobes then map_R_psi hf (Np.linspace (lcfs - 0.05) (lcfs + 0.1) 10000)
        else map_R_psi hf (Np.linspace 0.95 1.1 10000)) ;;
  qref <- eich_profile_array s lq S s0 1 0 1 ;;
  idx <- Np.argmax qref ;;
  smax <- Np.item s idx ;;
  qmax <- Np.item qref idx ;;
  let hfs := truthy (hf_HFS hf) in
  let x := if hfs then map (fun v => v * -1) x else x in
  let s0 := if hfs then s0 * -1 else s0 in
  let smax := if hfs then smax * -1 else smax in
  let xsep := if hfs then xsep * -1 else xsep in
  let x0 := if hfs then smax else s0 - (smax - s0) in
  q <- eich_profile_array x lq S x0 1 0 1 ;;
  qsep <- eich_profile xsep lq S x0 1 0 1 ;;
  q <- (if lobes then Np.assign_scalar q (map (fun p => Np.ltb p lcfs) psi) qmax
        else Ok q) ;;
  m <- Np.amax q ;;
  Ok (map (fun v => v / m * q0) q, qsep / m * q0).

(** [getq_layer()]. *)
Definition getq_layer (hf : heatflux3D) : result (list R) :=
  psimin <- attr (hf_psimin hf) ;;
  '(q, q0) <- set_layer hf psimin (hf_lqCN hf) (hf_S hf) (hf_lcfs hf) 1 true ;;
  pfr <- attr (hf_pfr hf) ;;
  if Nat.ltb 0 (Np.count pfr) then
    sel <- Np.select psimin pfr ;;
    '(qp, _) <- set_layer hf sel (hf_lqCN hf) (hf_S hf) 1.0 q0 false ;;
    Np.assign q pfr qp
  else Ok q.

(** The closing expression of [getq_conduct] and [scale_conduct]:
    [2.0/7.0 * kappa/L * (T**3.5 - T0**3.5) * (1e+3)**3.5/1e+6]. *)
Definition conduct_q (kappa L T0 T : R) : R :=
  2.0 / 7.0 * kappa / L * (Np.power T 3.5 - Np.power T0 3.5) * Np.power 1e+3 3.5 / 1e+6.

(** [getq_conduct(psi, kappa, T0 = 0, L, limit = True, pfr, ratio)]. *)
Definition getq_conduct (hf : heatflux3D) (psi : list R) (kappa T0 L : R) (limit : bool)
  (pfr : option (list bool)) (ratio : R) : result (list R) :=
  let T := map (hf_fT hf) psi in
  T <- (if limit
        then Np.assign_scalar T (map (fun p => Np.ltb p (hf_lcfs hf)) psi) (hf_fT hf (hf_lcfs hf))
        else Ok T) ;;
  T <- match pfr with
       | Some pfr =>
           sel <- Np.select psi pfr ;;
           Np.assign T pfr (map (fun p => hf_fT hf (1 + ratio * (1 - p))) sel)
       | None => Ok T
       end ;;
  Ok (map (conduct_q kappa L T0) T).

(** The unscaled shape and the flux grid of [scale_conduct]. *)
Definition conduct_psiN : list R := Np.linspace 0.85 1.2 1000.

(** The temperatures of [scale_conduct] on its grid: the profile and, in
    the private flux region, the profile at the mirrored flux. *)
Definition conduct_T (hf : heatflux3D) (ratio : R) : result (list R) :=
  let psiN := conduct_psiN in
  let T := map (hf_fT hf) psiN in
  let pfr := map (fun p => Np.ltb p 1.0) psiN in
  sel <- Np.select psiN pfr ;;
  Np.assign T pfr (map (fun p => hf_fT hf (1.0 + ratio * (1.0 - p))) sel).

Definition conduct_q_hat (hf : heatflux3D) (kappa L ratio T0 : R) : result (list R) :=
  T <- conduct_T hf ratio ;;
  Ok (map (conduct_q kappa L T0) T).

(** [psiN * (psiSep - psiAxis) + psiAxis]: normalized flux to flux. *)
Definition to_flux (ep : equilParams) (psiN : list R) : list R :=
  map (fun p => p * (g_psiSep ep - g_psiAxis ep) + g_psiAxis ep) psiN.

(** The end of every [scale_*] method: [P0 = 2*np.pi * integ.simps(q_hat, psi)],
    [if P0 < 0: P0 = -P0], [q0 = P/P0]. *)
Definition power_balance (P : R) (q_hat psi : list R) : R :=
  let P0 := 2 * PI * simps q_hat psi in
  let P0 := if Rlt_dec P0 0 then - P0 else P0 in
  P / P0.

(** [scale_conduct(P, kappa, L, ratio, T0 = 0)]; its samples and abscissae
    both come from the grid of a thousand points. *)
Definition scale_conduct (hf : heatflux3D) (P kappa L ratio T0 : R) : result R :=
  q_hat <- conduct_q_hat hf kappa L ratio T0 ;;
  let psi := to_flux (hf_ep hf) conduct_psiN in
  Ok (power_balance P q_hat psi).

(** The radial window of [scale_layer]: twenty widths to either side of
    the LCFS, capped at the magnetic axis and at the grid of the equilibrium. *)
Definition layer_window (hf : heatflux3D) (lq S Rlcfs : R) : result (R * R) :=
  let ep := hf_ep hf in
  if truthy (hf_HFS hf) then
    let Rmin := Rlcfs - 20.0 * lq * 1e-3 in
    lo <- Np.amin (g_R ep) ;;
    let Rmin := if Np.ltb Rmin lo then lo else Rmin in
    let Rmax := Rlcfs + 20.0 * S * 1e-3 in
    let Rmax := if Np.ltb (g_RmAxis ep) Rmax then g_RmAxis ep else Rmax in
    Ok (Rmin, Rmax)
  else
    let Rmin := Rlcfs - 20.0 * S * 1e-3 in
    let Rmin := if Np.ltb Rmin (g_RmAxis ep) then g_RmAxis ep else Rmin in
    let Rmax := Rlcfs + 20.0 * lq * 1e-3 in
    hi <- Np.amax (g_R ep) ;;
    let Rmax := if Np.ltb hi Rmax then hi else Rmax in
    Ok (Rmin, Rmax).

(** The midplane trace behind [scale_layer]: when [lam_<tag>.dat] is not in
    [inputDir] the points are written, the tracer is run there and its logs
    are removed. *)
Definition layer_trace (hf : heatflux3D) (w : world) (tag : string) (Rs Zs : list R)
  : result world :=
  let file := hf_inputDir hf +s+ "/" +s+ "lam_" +s+ tag +s+ ".dat" in
  if isfile (w_fs w) file then Ok w
  else
    let pts := map (fun rz => [fst rz; 0.0; snd rz]) (combine Rs Zs) in
    let w1 := with_fs w (fs_write (w_fs w) (hf_inputDir hf +s+ "/" +s+ "points_" +s+ tag +s+ ".dat")
                                  (TableFile pts)) in
    let args := ["mpirun"; "-n"; "10"; "heatlaminar_mpi"; "-P";
                 "points_" +s+ tag +s+ ".dat"; "_lamCTL.dat"; tag]%string in
    w2 <- run args (hf_inputDir hf) w1 ;;
    Ok (with_fs w2 (remove_logs (w_fs w2) (hf_inputDir hf))).

(** The unscaled shape of [scale_layer] on its midplane grid. *)
Definition layer_q_hat (hf : heatflux3D) (psimin Rs : list R) (lq S pfr : R)
  : result (list R) :=
  idx <- Np.argmin (map (fun p => Rabs (p - pfr)) psimin) ;;
  Ridx <- Np.item Rs idx ;;
  let side := if truthy (hf_HFS hf) then map (fun r => Np.ltb Ridx r) Rs
              else map (fun r => Np.ltb r Ridx) Rs in
  mask <- Np.put (Np.where_ side) true (Np.full (length Rs) false) ;;
  '(q_hat, q0tmp) <- set_layer hf psimin lq S (hf_lcfs hf) 1 true ;;
  if Nat.ltb 0 (Np.count mask) then
    sel <- Np.select psimin mask ;;
    '(qp, _) <- set_layer hf sel lq S 1.0 q0tmp false ;;
    Np.assign q_hat mask qp
  else Ok q_hat.

Definition layer_grid (Rmin Rmax : R) : list R := Np.linspace Rmin Rmax 1000.

(** The name of the midplane trace of [scale_layer]. *)
Definition layer_tag (hf : heatflux3D) : string :=
  if truthy (hf_HFS hf) then "hfs_mp" else "lfs_mp".

Definition layer_file (hf : heatflux3D) : string :=
  hf_inputDir hf +s+ "/" +s+ "lam_" +s+ layer_tag hf +s+ ".dat".

(** [integ.simps(q_hat, psi)] refuses abscissae that are not as many as
    the samples. *)
Definition simps_checked (q_hat psi : list R) : result unit :=
  if Nat.eqb (length psi) (length q_hat) then Ok tt
  else Raise (ValueError "If given, length of x along axis must be the same as y.").

(** [scale_layer(lq, S, P, pfr = 1.0)]. *)
Definition scale_layer (hf : heatflux3D) (w : world) (lq S P : R) (pfr : option R)
  : result (R * world) :=
  let pfr := match pfr with None => hf_lcfs hf | Some v => v end in
  Rlcfs <- map_R_psi_scalar hf (hf_lcfs hf) ;;
  '(Rmin, Rmax) <- layer_window hf lq S Rlcfs ;;
  let Rs := layer_grid Rmin Rmax in
  let Zs := midplane_Z hf Rs in
  w1 <- layer_trace hf w (layer_tag hf) Rs Zs ;;
  psimin <- match fs_read (w_fs w1) (layer_file hf) with
            | Some f => lamdata <- genfromtxt f ;; column lamdata 4
            | None => Raise UnboundLocalError
            end ;;
  q_hat <- layer_q_hat hf psimin Rs lq S pfr ;;
  let psi := to_flux (hf_ep hf) (midplane_psiN hf Rs) in
  _ <- simps_checked q_hat psi ;;
  Ok (power_balance P q_hat psi, w1).

(** The model names that [heatflux] accepts. *)
Definition layer_names : list string :=
  ["Layer"; "layer"; "eich"; "Eich"; "heuristic"]%string.

Definition conduct_names : list string := ["conduct"; "conductive"]%string.

(** The mean connection length of the open field lines, in metres:
    [np.mean(self.Lc[self.psimin > self.lcfs])*1e3]. *)
Definition conduct_L (hf : heatflux3D) (psimin Lc : list R) : result R :=
  open <- Np.select Lc (map (fun p => Np.ltb (hf_lcfs hf) p) psimin) ;;
  Ok (Np.mean open * 1e3).

(** What [heatflux] computes before the assembly: the shape [q] of the
    chosen model, its scale [q0], and the object with [HFS] set by the
    layer model. *)
Definition heatflux_model (hf : heatflux3D) (w : world) (DivCode : string) (powerFrac : R)
  : result (heatflux3D * list R * R * world) :=
  model <- attr (hf_model hf) ;;
  if str_in model layer_names then
    HFS <- (if contains "O" DivCode then Ok false
            else if contains "I" DivCode then Ok true
            else Raise (ValueError
              "PFC Divertor Code cannot be identified. Check your PFC input file")) ;;
    let hf := set_HFS hf HFS in
    q <- getq_layer hf ;;
    '(q0, w1) <- scale_layer hf w (hf_lqCN hf) (hf_S hf) (hf_Psol hf * powerFrac) (Some 1.0) ;;
    Ok (hf, q, q0, w1)
  else if str_in model conduct_names then
    Lc <- attr (hf_Lc hf) ;;
    psimin <- attr (hf_psimin hf) ;;
    L <- conduct_L hf psimin Lc ;;
    ratio <- float_div (hf_lqCN hf) (hf_S hf) ;;
    q <- getq_conduct hf psimin (hf_kappa hf) 0 L true (hf_pfr hf) ratio ;;
    q0 <- scale_conduct hf (hf_Psol hf * powerFrac) (hf_kappa hf) L ratio 0 ;;
    Ok (hf, q, q0, w)
  else Raise (ValueError "No valid model selected").

(** The assembly that ends [heatflux]: [q *= q0],
    [self.q[self.good] = q[self.good]], [self.q += self.qBG]. *)
Definition assemble (hf : heatflux3D) (q : list R) (q0 : R) : result heatflux3D :=
  let q := map (fun v => v * q0) q in
  good <- attr (hf_good hf) ;;
  sel <- Np.select q good ;;
  selfq <- Np.assign (hf_q hf) good sel ;;
  Ok (set_q hf (map (fun v => v + hf_qBG hf) selfq)).

(** [heatflux(DivCode, powerFrac)]. *)
Definition heatflux (hf : heatflux3D) (w : world) (DivCode : string) (powerFrac : R)
  : result (heatflux3D * world) :=
  '(hf1, q, q0, w1) <- heatflux_model hf w DivCode powerFrac ;;
  hf2 <- assemble hf1 q q0 ;;
  Ok (hf2, w1).

End Models.

(** ** Configuration of the heat-flux model *)

(** [teProfileData]: absent, a file name, an array, a number, or any other
    object. *)
Inductive profileData : Type :=
| PD_None
| PD_str (s : string)
| PD_array (a : list R)
| PD_float (x : R)
| PD_other.

(** The attributes set by [setHFctl] or by the input file. *)
Record HFctl : Type := {
  c_Lcmin : R;
  c_lcfs : R;
  c_lqCN : R;
  c_S : R;
  c_P : R;
  c_coreRadFrac : R;
  c_qBG : R;
  c_kappa : R;
  c_teProfileData : profileData;
  c_neProfileData : profileData;
  c_model : option string
}.

(** [setHFctl()] with its default arguments. *)
Definition setHFctl : HFctl :=
  {| c_Lcmin := 0.075; c_lcfs := 0.97; c_lqCN := 5; c_S := 2; c_P := 10;
     c_coreRadFrac := 0.0; c_qBG := 0; c_kappa := 2000;
     c_teProfileData := PD_None; c_neProfileData := PD_None; c_model := None |}.

(** The temperature profile [self.fT] chosen by [initializeHF3D]. *)
Definition resolve_fT `{SciPy} (T : profileData) (inputDir : string) (fs : FS)
  : result (R -> R) :=
  let T := match T with PD_None => PD_float 2 | _ => T end in
  match T with
  | PD_str name =>
      let path := if contains "./" name || negb (contains "/" name)
                  then inputDir +s+ "/" else "" in
      match fs_read fs (path +s+ name) with
      | None => Raise (RuntimeError (path +s+ name +s+ " file not found!"))
      | Some f =>
          TData <- genfromtxt f ;;
          psiT <- column TData 0 ;;
          Tv <- column TData 1 ;;
          UnivariateSpline psiT Tv
      end
  | PD_array a => UnivariateSpline (Np.linspace 0 1.1 (length a)) a
  | PD_float x => Ok (fun psi => Tret_T (Tprofile psi x false))
  | _ => Raise (RuntimeError "Invalid T profile data")
  end.

(** The density profile [self.fn] chosen by [initializeHF3D]; no method
    modelled here reads it, but building it can raise. *)
Definition resolve_fn `{SciPy} (ne : profileData) (inputDir : string) (fs : FS)
  : result (R -> R) :=
  let ne := match ne with PD_None => PD_float 0.5 | _ => ne end in
  match ne with
  | PD_str name =>
      let path := if contains "./" name || negb (contains "/" name)
                  then inputDir +s+ "/" else "" in
      match fs_read fs (path +s+ name) with
      | None => Raise (RuntimeError (path +s+ name +s+ " file not found!"))
      | Some f =>
          neData <- genfromtxt f ;;
          nePsi <- column neData 0 ;;
          nev <- column neData 1 ;;
          UnivariateSpline nePsi nev
      end
  | PD_array a => UnivariateSpline (Np.linspace 0 1.1 (length a)) a
  | PD_float x => Ok (fun psi => x + psi * 0)
  | _ => Raise (RuntimeError "Invalid density profile data")
  end.

(** [initializeHF3D(ep, inputFile, cwd, inputDir)], given the control values
    [ctl] that the input file or [setHFctl] provides; the object starts from
    the attributes of [__init__]. *)
Definition initializeHF3D `{SciPy} (ep : equilParams) (ctl : HFctl) (inputDir : string)
  (fs : FS) : result heatflux3D :=
  fT <- resolve_fT (c_teProfileData ctl) inputDir fs ;;
  fn <- resolve_fn (c_neProfileData ctl) inputDir fs ;;
  Ok {| hf_psimin := None; hf_Lc := None; hf_N := 1; hf_q := Np.zeros 1;
        hf_good := None; hf_pfr := None; hf_ep := ep; hf_HFS := None;
        hf_Lcmin := c_Lcmin ctl; hf_lcfs := c_lcfs ctl; hf_lqCN := c_lqCN ctl;
        hf_S := c_S ctl; hf_P := c_P ctl; hf_coreRadFrac := c_coreRadFrac ctl;
        hf_qBG := c_qBG ctl; hf_kappa := c_kappa ctl; hf_model := c_model ctl;
        hf_Psol := (1 - c_coreRadFrac ctl) * c_P ctl;
        hf_fT := fT; hf_inputDir := inputDir |}.

(** ** The field-line-trace driver *)

Record plasma3D : Type := {
  p3_R : option (list R);
  p3_phi : option (list R);
  p3_Z : option (list R);
  p3_psimin : option (list R);
  p3_Lc : option (list R);
  p3_cwd : string
}.

Definition set_points (p : plasma3D) (Rs phi Zs : list R) : plasma3D :=
  {| p3_R := Some Rs; p3_phi := Some phi; p3_Z := Some Zs;
     p3_psimin := p3_psimin p; p3_Lc := p3_Lc p; p3_cwd := p3_cwd p |}.

Definition set_Lc (p : plasma3D) (Lc : list R) : plasma3D :=
  {| p3_R := p3_R p; p3_phi := p3_phi p; p3_Z := p3_Z p;
     p3_psimin := p3_psimin p; p3_Lc := Some Lc; p3_cwd := p3_cwd p |}.

Definition set_psimin (p : plasma3D) (psimin : list R) : plasma3D :=
  {| p3_R := p3_R p; p3_phi := p3_phi p; p3_Z := p3_Z p;
     p3_psimin := Some psimin; p3_Lc := p3_Lc p; p3_cwd := p3_cwd p |}.

(** The rows [R[i], phi[i], Z[i]] for [i] in [range(N)], [N = len(R)]. *)
Fixpoint point_rows (Rs phi Zs : list R) : result (list (list R)) :=
  match Rs with
  | [] => Ok []
  | r :: Rs' =>
      match phi, Zs with
      | f :: phi', z :: Zs' =>
          rows <- point_rows Rs' phi' Zs' ;;
          Ok ([r; f; z] :: rows)
      | _, _ => Raise IndexError
      end
  end.

(** [writePoints(filename = 'points3DHF.dat')]. *)
Definition writePoints (p : plasma3D) (fs : FS) : result FS :=
  Rs <- method (p3_R p) ;;
  phi <- method (p3_phi p) ;;
  Zs <- method (p3_Z p) ;;
  rows <- point_rows Rs phi Zs ;;
  Ok (fs_write fs (p3_cwd p +s+ "/" +s+ "points3DHF.dat") (PointsFile (length Rs) rows)).

(** [updatePoints(R, phi, Z)]. *)
Definition updatePoints (p : plasma3D) (fs : FS) (Rs phi Zs : list R)
  : result (plasma3D * FS) :=
  let p := set_points p Rs phi Zs in
  fs' <- writePoints p fs ;;
  Ok (p, fs').

(** The result file that [readLaminar(tag, path)] looks for:
    [path + '/' + 'lam_' + tag + '.dat'], with the empty tag and the
    directory of the object as defaults. *)
Definition lam_file (p : plasma3D) (tag path : option string) : string :=
  let tag := match tag with None => "" | Some t => t end in
  let path := match path with None => p3_cwd p | Some d => d end in
  path +s+ "/" +s+ "lam_" +s+ tag +s+ ".dat".

(** [readLaminar(tag = None, path = None)]: the new object and the line
    printed (and logged), if any. *)
Definition readLaminar (p : plasma3D) (fs : FS) (tag path : option string)
  : result (plasma3D * list string) :=
  let file := lam_file p tag path in
  match fs_read fs file with
  | Some f =>
      lamdata <- genfromtxt f ;;
      Lc <- column lamdata 3 ;;
      let p := set_Lc p Lc in
      psimin <- column lamdata 4 ;;
      Ok (set_psimin p psimin, [])
  | None => Ok (p, ["MAFOT output file: " +s+ file +s+ " not found!"])
  end.

(** [checkValidOutput()]: the mask of the points with [psimin == 10]. *)
Definition checkValidOutput (p : plasma3D) : result (list bool) :=
  psimin <- attr (p3_psimin p) ;;
  let idx := Np.where_ (map (fun v => Np.eqb v 10) psimin) in
  Np.put idx true (Np.full (length psimin) false).

(** *** Waiting for the tracer *)

(** [isProcessRunning()]: among the lines of the process table that
    [grep heatlaminar_mpi] lets through, one names [mpirun] and the user. *)
Definition isProcessRunning (w : world) : bool :=
  existsb (fun line => contains "mpirun" line && contains (w_user w) line)
          (filter (contains "heatlaminar_mpi") (w_ps w)).

(** [os.listdir(dir)], for a [dir] that ends in a slash: the names of the
    files that lie directly in it. *)
Fixpoint listdir (fs : FS) (dir : string) : list string :=
  match fs with
  | [] => []
  | (p, _) :: fs' =>
      if String.prefix dir p then
        let name := String.substring (String.length dir)
                      (String.length p - String.length dir) p in
        if contains "/" name then listdir fs' dir else name :: listdir fs' dir
      else listdir fs' dir
  end.

(** The output of [tail file], split into lines: the last ten lines of the
    file of that name in the interpreter's directory. *)
Definition tail (w : world) (name : string) : result (list string) :=
  match fs_read (w_fs w) (w_pwd w +s+ "/" +s+ name) with
  | Some (TextFile lines) => Ok (skipn (length lines - 10) lines)
  | _ => Raise CalledProcessError
  end.

Definition ends_with_slash (s : string) : bool :=
  match String.get (String.length s - 1) s with
  | Some c => Ascii.eqb c "/"
  | None => false
  end.

(** [isComplete(logsPath = None)]: [True], [False], or [None] when the end
    of the function is reached.  Only the first master log is looked at: the
    [else] of the inner loop returns. *)
Definition isComplete (p : plasma3D) (w : world) : result (option bool) :=
  let logsPath := p3_cwd p in
  if Nat.eqb (String.length logsPath) 0 then Raise IndexError
  else
    let logsPath := if ends_with_slash logsPath then logsPath else logsPath +s+ "/" in
    let allFiles := listdir (w_fs w) logsPath in
    let fileList := filter (contains "_Master.dat") allFiles in
    match fileList with
    | [] => Ok None
    | file :: _ =>
        lines <- tail w file ;;
        Ok (Some (existsb (contains "Program terminates normally") lines))
    end.

Definition str_nat (n : nat) : string :=
  DecimalString.NilZero.string_of_uint (Nat.to_uint n).

Section Waiting.
Context `{Host}.

(** [while self.isProcessRunning(): time.sleep(60)], for at most [fuel]
    rounds; [None] when the process is still there. *)
Fixpoint poll (fuel : nat) (w : world) : option world :=
  match fuel with
  | O => None
  | S fuel' => if isProcessRunning w then poll fuel' (sleep 60 w) else Some w
  end.

Definition restart_args (nproc : nat) (tag : string) : list string :=
  ["mpirun"; "-n"; str_nat nproc; "heatlaminar_mpi"; "-P"; "points.dat"; "_lamCTL.dat"; tag]%string.

(** [wait2finish(nproc, tag)]: the final world and the restarts launched,
    oldest first.  [depth] bounds the nesting of the recursive calls and
    [fuel] the rounds of each wait; [None] when either runs out. *)
Fixpoint wait2finish (depth fuel : nat) (p : plasma3D) (nproc : nat) (tag : string)
  (w : world) : option (result (world * list (list string))) :=
  match depth with
  | O => None
  | S depth' =>
      match poll fuel (sleep 5 w) with
      | None => None
      | Some w1 =>
          match isComplete p w1 with
          | Raise e => Some (Raise e)
          | Ok (Some true) => Some (Ok (w1, []))
          | Ok _ =>
              match run (restart_args nproc tag) (w_pwd w1) w1 with
              | Raise e => Some (Raise e)
              | Ok w2 =>
                  match wait2finish depth' fuel p nproc tag w2 with
                  | Some (Ok (w3, cmds)) => Some (Ok (w3, restart_args nproc tag :: cmds))
                  | r => r
                  end
              end
          end
      end
  end.

End Waiting.

(** ** Reference data *)

(** A slab equilibrium: the normalized flux grows linearly with [R], from
    the magnetic axis at [R = 1] to the separatrix at [R = 2]. *)
Definition ep_slab : equilParams :=
  {| psiFunc_ev := fun r _ => r - 1; g_psiSep := 1; g_psiAxis := 0;
     g_RmAxis := 1; g_ZmAxis := 0; g_R1 := 0.5; g_Xdim := 2; g_R := [0.5; 2.5] |}.

(** The object that [initializeHF3D] builds from the defaults of [setHFctl]:
    the temperature profile is the pedestal profile with [Tped = 2]. *)
Definition hf_default (ep : equilParams) (inputDir : string) : heatflux3D :=
  {| hf_psimin := None; hf_Lc := None; hf_N := 1; hf_q := Np.zeros 1;
     hf_good := None; hf_pfr := None; hf_ep := ep; hf_HFS := None;
     hf_Lcmin := 0.075; hf_lcfs := 0.97; hf_lqCN := 5; hf_S := 2; hf_P := 10;
     hf_coreRadFrac := 0.0; hf_qBG := 0; hf_kappa := 2000; hf_model := None;
     hf_Psol := (1 - 0.0) * 10;
     hf_fT := fun psi => Tret_T (Tprofile psi 2 false); hf_inputDir := inputDir |}.

(** The same object for the conductive model, a background of 0.1 MW/m^2
    and a temperature profile tabulated as the constant 1 keV, whose
    interpolant is that constant. *)
Definition hf_flat : heatflux3D :=
  {| hf_psimin := None; hf_Lc := None; hf_N := 1; hf_q := Np.zeros 1;
     hf_good := None; hf_pfr := None; hf_ep := ep_slab; hf_HFS := None;
     hf_Lcmin := 0.075; hf_lcfs := 0.97; hf_lqCN := 5; hf_S := 2; hf_P := 10;
     hf_coreRadFrac := 0.0; hf_qBG := 0.1; hf_kappa := 2000;
     hf_model := Some "conduct";
     hf_Psol := (1 - 0.0) * 10;
     hf_fT := fun _ => 1; hf_inputDir := "run" |}.

(** *** Simpson's rule

    [scipy.integrate.simps(y, x)] for samples at the abscissae [x], as scipy
    computes it with its default [even = 'avg']: the three-point rule on
    every pair of intervals and, for an even number of samples, the mean of
    the two results that leave out the last and the first interval, each
    completed by the trapezoid on the interval left out. *)

Fixpoint basic_simps (y x : list R) : R :=
  match y, x with
  | y0 :: y1 :: y', x0 :: x1 :: x' =>
      match y', x' with
      | y2 :: _, x2 :: _ =>
          let h0 := x1 - x0 in
          let h1 := x2 - x1 in
          let hsum := h0 + h1 in
          let hprod := h0 * h1 in
          let h0divh1 := h0 / h1 in
          hsum / 6.0 * (y0 * (2 - 1.0 / h0divh1) + y1 * (hsum * hsum / hprod)
                        + y2 * (2 - h0divh1))
          + basic_simps y' x'
      | _, _ => 0
      end
  | _, _ => 0
  end.

Definition simpson (y x : list R) : R :=
  let N := length y in
  if Nat.even N then
    let last_dx := nth (N - 1) x 0 - nth (N - 2) x 0 in
    let val := 0.5 * last_dx * (nth (N - 1) y 0 + nth (N - 2) y 0) in
    let result := basic_simps y x in
    let first_dx := nth 1 x 0 - nth 0 x 0 in
    let val := val + 0.5 * first_dx * (nth 1 y 0 + nth 0 y 0) in
    let result := result + basic_simps (tl y) (tl x) in
    result / 2.0 + val / 2.0
  else basic_simps y x.

(** The last abscissa that [basic_simps] reaches. *)
Fixpoint simps_end (x : list R) : R :=
  match x with
  | [] => 0
  | x0 :: [] => x0
  | x0 :: _ :: x' =>
      match x' with
      | [] => x0
      | _ :: _ => simps_end x'
      end
  end.

(** *** The complementary error function

    [erfc(x) = 1 - 2/sqrt(pi) * integral of exp(-t^2) from 0 to x]. *)

Definition gauss (t : R) : R := exp (- (t * t)).

Definition gauss_integrable (a b : R) : Riemann_integrable gauss a b :=
  match Rle_dec a b with
  | left Hab =>
      continuity_implies_RiemannInt Hab
        (fun x _ => derivable_continuous_pt gauss x
                      ltac:(unfold gauss; reg))
  | right Hba =>
      RiemannInt_P1
        (continuity_implies_RiemannInt (Rlt_le b a (Rnot_le_lt a b Hba))
           (fun x _ => derivable_continuous_pt gauss x
                         ltac:(unfold gauss; reg)))
  end.

Definition erfc_ref (x : R) : R :=
  1 - 2 / sqrt PI * RiemannInt (gauss_integrable 0 x).

(** The scipy used in the worked runs below.  They use the conductive
    model, which builds no spline: this [UnivariateSpline] refuses its data. *)
Definition scipy_ref : SciPy :=
  {| erfc := erfc_ref;
     simps := simpson;
     UnivariateSpline := fun _ _ => Raise (ValueError "no spline available") |}.

(** A host on which nothing else runs and a started command ends without
    touching a file. *)
Definition host_static : Host :=
  {| run := fun _ _ w => Ok w; sleep := fun _ w => w |}.

(** A tracer that crashes on its first attempts: every run adds a line to
    its master log, and only a run that finds two earlier lines there ends
    normally. *)
Definition flaky_run (dir : string) (fs : FS) : FS :=
  let path := dir +s+ "/log_Master.dat" in
  match fs_read fs path with
  | Some (TextFile lines) =>
      if Nat.leb 2 (length lines)
      then fs_write fs path (TextFile (lines ++ ["Program terminates normally"%string]))
      else fs_write fs path (TextFile (lines ++ ["Segmentation fault"%string]))
  | _ => fs_write fs path (TextFile ["Segmentation fault"%string])
  end.

Definition host_flaky : Host :=
  {| run := fun _ dir w => Ok (with_fs w (flaky_run dir (w_fs w)));
     sleep := fun _ w => w |}.

(** A driver in the directory [run], and the world after a first tracer
    run that crashed. *)
Definition p3_run : plasma3D :=
  {| p3_R := None; p3_phi := None; p3_Z := None; p3_psimin := None; p3_Lc := None;
     p3_cwd := "run" |}.

Definition w_crashed : world :=
  {| w_fs := [("run/log_Master.dat"%string, TextFile ["Segmentation fault"%string])];
     w_ps := []; w_pwd := "run"; w_user := "heat" |}.

(** A world without files in which nothing runs. *)
Definition w_idle : world :=
  {| w_fs := []; w_ps := []; w_pwd := "run"; w_user := "heat" |}.

(** The trace of the scenario of the specification. *)
Definition scenario_psimin : list R := [0.9; 1.0; 10; 1.05].
Definition scenario_Lc : list R := [0.05; 0.2; 0.01; 0.3].

(** Two submitted points, and a tracer result with three data rows
    ([R], [phi], [Z], [Lc], [psimin]). *)
Definition two_points : list R * list R * list R := ([1.0; 1.1], [0; 0], [0.5; 0.6]).

Definition three_rows : list (list R) :=
  [[1.0; 0; 0.5; 0.05; 0.9]; [1.1; 0; 0.6; 0.2; 1.0]; [1.2; 0; 0.7; 0.01; 10]].

(** ** Vocabulary of the properties *)

(** A temperature that is a value of the profile [fT] of the object. *)
Definition from_profile (hf : heatflux3D) (t : R) : Prop := exists x, t = hf_fT hf x.

(** The object selects the layer model. *)
Definition is_layer_model (hf : heatflux3D) : bool :=
  match hf_model hf with
  | Some m => str_in m layer_names
  | None => false
  end.

(** [q_hat] on the grid [psiN] is the unscaled shape that the conductive
    model integrates: the conductive flux on the fixed grid from 0.85 to 1.2. *)
Definition conduct_shape `{SciPy} (hf : heatflux3D) (q_hat psiN : list R) : Prop :=
  exists psimin Lc L,
    hf_psimin hf = Some psimin /\ hf_Lc hf = Some Lc /\
    conduct_L hf psimin Lc = Ok L /\
    conduct_q_hat hf (hf_kappa hf) L (hf_lqCN hf / hf_S hf) 0 = Ok q_hat /\
    psiN = conduct_psiN.

(** [q_hat] on the grid [psiN] is the unscaled shape that the layer model
    integrates: the layer profile of the midplane trace found in the world
    [w], on the radial window around the LCFS. *)
Definition layer_shape `{SciPy} (hf : heatflux3D) (w : world) (q_hat psiN : list R) : Prop :=
  exists Rlcfs Rmin Rmax f lamdata psimin,
    map_R_psi_scalar hf (hf_lcfs hf) = Ok Rlcfs /\
    layer_window hf (hf_lqCN hf) (hf_S hf) Rlcfs = Ok (Rmin, Rmax) /\
    fs_read (w_fs w) (layer_file hf) = Some f /\
    genfromtxt f = Ok lamdata /\
    column lamdata 4 = Ok psimin /\
    layer_q_hat hf psimin (layer_grid Rmin Rmax) (hf_lqCN hf) (hf_S hf) 1.0 = Ok q_hat /\
    psiN = midplane_psiN hf (layer_grid Rmin Rmax).

Section WaitingVocabulary.
Context `{Host}.

(** One wait of [wait2finish], started in the world [w], ends in the world
    [w1]: five seconds, then a minute at a time while the tracer is in the
    process table. *)
Definition wait_ends (fuel : nat) (w w1 : world) : Prop :=
  poll fuel (sleep 5 w) = Some w1.

(** The success marker is absent: [isComplete] answers [False], or [None]
    for want of a master log. *)
Definition marker_absent (p : plasma3D) (w : world) : Prop :=
  isComplete p w = Ok (Some false) \/ isComplete p w = Ok None.

(** [restarted n w w']: from the world [w], [n] waits in a row ended
    without the marker, each was followed by a restart that could be
    started, and the last restart left the world [w']. *)
Inductive restarted (fuel : nat) (p : plasma3D) (nproc : nat) (tag : string)
  : nat -> world -> world -> Prop :=
| restarted_none (w : world) : restarted fuel p nproc tag 0 w w
| restarted_again (n : nat) (w w1 w2 w' : world) :
    wait_ends fuel w w1 ->
    marker_absent p w1 ->
    run (restart_args nproc tag) (w_pwd w1) w1 = Ok w2 ->
    restarted fuel p nproc tag n w2 w' ->
    restarted fuel p nproc tag (S n) w w'.

(** How a call that follows [n] restarts ends after its last wait, in the
    world [w1]: it returns when the marker is present, and it fails when
    [isComplete] raises or when the restart cannot be started. *)
Definition ends_with (p : plasma3D) (nproc : nat) (tag : string) (n : nat) (w1 : world)
  (r : result (world * list (list string))) : Prop :=
  (isComplete p w1 = Ok (Some true) /\ r = Ok (w1, repeat (restart_args nproc tag) n)) \/
  (exists e, isComplete p w1 = Raise e /\ r = Raise e) \/
  (exists e, marker_absent p w1 /\
             run (restart_args nproc tag) (w_pwd w1) w1 = Raise e /\ r = Raise e).

End WaitingVocabulary.

(** ** Further methods and settings *)

(** [self.kappa = k]. *)
Definition set_kappa (hf : heatflux3D) (k : R) : heatflux3D :=
  {| hf_psimin := hf_psimin hf; hf_Lc := hf_Lc hf; hf_N := hf_N hf; hf_q := hf_q hf;
     hf_good := hf_good hf; hf_pfr := hf_pfr hf; hf_ep := hf_ep hf;
     hf_HFS := hf_HFS hf; hf_Lcmin := hf_Lcmin hf; hf_lcfs := hf_lcfs hf;
     hf_lqCN := hf_lqCN hf; hf_S := hf_S hf; hf_P := hf_P hf;
     hf_coreRadFrac := hf_coreRadFrac hf; hf_qBG := hf_qBG hf;
     hf_kappa := k; hf_model := hf_model hf; hf_Psol := hf_Psol hf;
     hf_fT := hf_fT hf; hf_inputDir := hf_inputDir hf |}.

(** The quadrature is linear in the samples, as [scipy.integrate.simps] is. *)
Definition homogeneous (quad : list R -> list R -> R) : Prop :=
  forall (c : R) (y x : list R), quad (map (Rmult c) y) x = c * quad y x.

(** [plasma3D.cleanUp(tag = None)]: the files [log*] of the working
    directory are removed; [tag] is not used. *)
Definition cleanUp (p : plasma3D) (fs : FS) (tag : option string) : FS :=
  remove_logs fs (p3_cwd p).

(** [glob.has_magic]: the name holds one of the characters that [glob]
    reads as a pattern. *)
Definition has_magic (s : string) : bool :=
  contains "*" s || contains "?" s || contains "[" s.

(** The path [q] lies below a directory of [dir] whose name begins with
    [log]: such a directory is matched by [log*], and [os.remove] refuses
    it. *)
Definition in_log_dir (dir q : string) : bool :=
  let d := dir +s+ "/" in
  String.prefix (d +s+ "log") q
  && contains "/" (String.substring (String.length d) (String.length q - String.length d) q).

(** *** A first-order spline

    The interpolant used in the worked runs of the layer model: the
    piecewise-linear function through the data, continued by the boundary
    values as [ext = 'const'] asks, for strictly increasing abscissae and at
    least four points. *)

Fixpoint increasing (xs : list R) : bool :=
  match xs with
  | x0 :: xs' =>
      match xs' with
      | x1 :: _ => Np.ltb x0 x1 && increasing xs'
      | [] => true
      end
  | [] => true
  end.

Fixpoint interp_linear (xs ys : list R) (x : R) : R :=
  match xs, ys with
  | x0 :: xs', y0 :: ys' =>
      match xs', ys' with
      | x1 :: _, y1 :: _ =>
          if Rle_dec x x0 then y0
          else if Rle_dec x x1 then y0 + (y1 - y0) * (x - x0) / (x1 - x0)
          else interp_linear xs' ys' x
      | _, _ => y0
      end
  | _, _ => 0
  end.

Definition spline_linear (xs ys : list R) : result (R -> R) :=
  if negb (Nat.eqb (length xs) (length ys))
  then Raise (ValueError "x and y should have a same length")
  else if negb (Nat.leb 4 (length xs))
  then Raise (ValueError "m > k must hold")
  else if increasing xs then Ok (interp_linear xs ys)
  else Raise (ValueError "x must be strictly increasing").

Definition scipy_linear : SciPy :=
  {| erfc := erfc_ref; simps := simpson; UnivariateSpline := spline_linear |}.

(** The object of the worked runs with the layer model selected. *)
Definition hf_eich : heatflux3D :=
  {| hf_psimin := None; hf_Lc := None; hf_N := 1; hf_q := Np.zeros 1;
     hf_good := None; hf_pfr := None; hf_ep := ep_slab; hf_HFS := None;
     hf_Lcmin := 0.075; hf_lcfs := 0.97; hf_lqCN := 5; hf_S := 2; hf_P := 10;
     hf_coreRadFrac := 0.0; hf_qBG := 0.1; hf_kappa := 2000;
     hf_model := Some "eich";
     hf_Psol := (1 - 0.0) * 10;
     hf_fT := fun _ => 1; hf_inputDir := "run" |}.

(** ** The boundary box *)

(** The extent of the CAD geometry, as [setBoundaryBox] reads it from the
    CAD object. *)
Record CADbox : Type := {
  cad_Rmin : R;
  cad_Rmax : R;
  cad_Zmin : R;
  cad_Zmax : R
}.

(** The attributes [bbRmin], [bbRmax], [bbZmin], [bbZmax] of the driver;
    [None] until [setBoundaryBox] is called. *)
Record bbox : Type := {
  bbRmin : option R;
  bbRmax : option R;
  bbZmin : option R;
  bbZmax : option R
}.

Definition bbox_init : bbox :=
  {| bbRmin := None; bbRmax := None; bbZmin := None; bbZmax := None |}.

(** [setBoundaryBox(MHD, CAD)], given the walls [g['wall']] of the
    equilibria [MHD.ep], each a list of points [(R, Z)]: only [MHD.ep[0]] is
    read, and [np.min] and [np.max] of two numbers are their minimum and
    maximum. *)
Definition setBoundaryBox (walls : list (list (R * R))) (cad : CADbox) : result bbox :=
  match walls with
  | [] => Raise IndexError
  | wall :: _ =>
      m <- Np.amin (map fst wall) ;;
      let rmin := Rmin (cad_Rmin cad) m in
      m <- Np.amax (map fst wall) ;;
      let rmax := Rmax (cad_Rmax cad) m in
      m <- Np.amin (map snd wall) ;;
      let zmin := Rmin (cad_Zmin cad) m in
      m <- Np.amax (map snd wall) ;;
      let zmax := Rmax (cad_Zmax cad) m in
      Ok {| bbRmin := Some rmin; bbRmax := Some rmax; bbZmin := Some zmin; bbZmax := Some zmax |}
  end.

(** ** Launching the tracer *)

(** [str] of a float; the digits are Python's affair. *)
Class PyRepr : Type := {
  str_float : R -> string
}.

(** A number that is a Python [int] or a [float]: [str] tells them apart. *)
Inductive pynum : Type :=
| PyInt (z : Z)
| PyFloat (x : R).

Definition str_Z (z : Z) : string :=
  DecimalString.NilZero.string_of_int (Z.to_int z).

Definition str_num `{PyRepr} (v : pynum) : string :=
  match v with
  | PyInt z => str_Z z
  | PyFloat x => str_float x
  end.

(** [str] of an attribute that may still be [None]. *)
Definition str_opt `{PyRepr} (o : option R) : string :=
  match o with
  | Some x => str_float x
  | None => "None"
  end.

Fixpoint zeros_str (n : nat) : string :=
  match n with
  | O => ""
  | S n' => "0" +s+ zeros_str n'
  end.

(** [format(z, '0<width>d')]: zero padding after the sign. *)
Definition format_0d (width : nat) (z : Z) : string :=
  if (z <? 0)%Z then
    let d := str_Z (Z.abs z) in
    "-" +s+ zeros_str (width - 1 - String.length d) +s+ d
  else
    let d := str_Z z in
    zeros_str (width - String.length d) +s+ d.

Definition tab : string := String (Ascii.ascii_of_nat 9) EmptyString.

(** The attributes of the driver besides the points and the trace: what
    [initializePlasma3D], [setMAFOTctl] (or the input file) and
    [setM3DC1input] have set, the boundary box, and what [launchLaminar]
    records. *)
Record mafot : Type := {
  m_shot : Z;
  m_time : Z;
  m_gFile : string;
  m_itt : Z;
  m_response : Z;
  m_selectField : Z;
  m_useIcoil : Z;
  m_sigma : Z;
  m_charge : Z;
  m_Ekin : R;
  m_Lambda : R;
  m_Mass : Z;
  m_C1Files : list string;
  m_C1scales : list pynum;
  m_C1phases : list pynum;
  m_bb : bbox;
  m_nproc : option nat;
  m_tag : option string
}.

Definition set_launch (m : mafot) (nproc : nat) (tag : string) : mafot :=
  {| m_shot := m_shot m; m_time := m_time m; m_gFile := m_gFile m; m_itt := m_itt m;
     m_response := m_response m; m_selectField := m_selectField m;
     m_useIcoil := m_useIcoil m; m_sigma := m_sigma m; m_charge := m_charge m;
     m_Ekin := m_Ekin m; m_Lambda := m_Lambda m; m_Mass := m_Mass m;
     m_C1Files := m_C1Files m; m_C1scales := m_C1scales m; m_C1phases := m_C1phases m;
     m_bb := m_bb m; m_nproc := Some nproc; m_tag := Some tag |}.

Section Launch.
Context `{Host} `{PyRepr}.

(** The lines that [writeControlFile(MapDirection)] writes. *)
Definition control_lines (m : mafot) (MapDirection : Z) : list string :=
  [ "# Parameterfile for HEAT Programs";
    "# Shot: " +s+ format_0d 6 (m_shot m) +s+ tab +s+ "Time: " +s+ format_0d 4 (m_time m) +s+ "ms";
    "# Path: " +s+ m_gFile m;
    "NZ=" +s+ tab +s+ "10";
    "itt=" +s+ tab +s+ str_Z (m_itt m);
    "Rmin=" +s+ tab +s+ "1";
    "Rmax=" +s+ tab +s+ "2";
    "Zmin=" +s+ tab +s+ "-1";
    "Zmax=" +s+ tab +s+ "1";
    "NR=" +s+ tab +s+ "10";
    "phistart(deg)=" +s+ tab +s+ "0";
    "MapDirection=" +s+ tab +s+ str_Z MapDirection;
    "PlasmaResponse(0=no,>1=yes)=" +s+ tab +s+ str_Z (m_response m);
    "Field(-3=VMEC,-2=SIESTA,-1=gfile,M3DC1:0=Eq,1=I-coil,2=both)=" +s+ tab
      +s+ str_Z (m_selectField m);
    "target(0=cp,1=inner,2=outer,3=shelf)=" +s+ tab +s+ "0";
    "createPoints(0=setR,3=setpsi)=" +s+ tab +s+ "0";
    "unused=" +s+ tab +s+ "0";
    "unused=" +s+ tab +s+ "0";
    "unused=" +s+ tab +s+ "0";
    "ParticleDirection(1=co-pass,-1=ctr-pass,0=field-lines)=" +s+ tab +s+ str_Z (m_sigma m);
    "PartileCharge(-1=electrons,>=1=ions)=" +s+ tab +s+ str_Z (m_charge m);
    "Ekin[keV]=" +s+ tab +s+ str_float (m_Ekin m);
    "lambda=" +s+ tab +s+ str_float (m_Lambda m);
    "Mass=" +s+ tab +s+ str_Z (m_Mass m);
    "unused=" +s+ tab +s+ "0";
    "unused=" +s+ tab +s+ "0";
    "dpinit=" +s+ tab +s+ "1.0";
    "pi=" +s+ tab +s+ "3.141592653589793";
    "2*pi=" +s+ tab +s+ "6.283185307179586" ]%string.

Definition writeControlFile (p : plasma3D) (m : mafot) (fs : FS) (MapDirection : Z) : FS :=
  fs_write fs (p3_cwd p +s+ "/" +s+ "_lamCTL.dat") (TextFile (control_lines m MapDirection)).

(** The lines of [m3dc1sup.in], one for each entry of [C1Files]. *)
Fixpoint m3dc1sup_lines (files : list string) (scales phases : list pynum)
  : result (list string) :=
  match files with
  | [] => Ok []
  | f :: files' =>
      match scales, phases with
      | s :: scales', ph :: phases' =>
          lines <- m3dc1sup_lines files' scales' phases' ;;
          Ok ((f +s+ tab +s+ str_num s +s+ tab +s+ str_num ph) :: lines)
      | _, _ => Raise IndexError
      end
  end.

Definition writeM3DC1supFile (p : plasma3D) (m : mafot) (fs : FS) : result FS :=
  lines <- m3dc1sup_lines (m_C1Files m) (m_C1scales m) (m_C1phases m) ;;
  Ok (fs_write fs (p3_cwd p +s+ "/" +s+ "m3dc1sup.in") (TextFile lines)).

(** The command of [launchLaminar]. *)
Definition launch_args (m : mafot) (nproc : nat) (tag : string) : list string :=
  let bbLimits := str_opt (bbRmin (m_bb m)) +s+ "," +s+ str_opt (bbRmax (m_bb m)) +s+ ","
                  +s+ str_opt (bbZmin (m_bb m)) +s+ "," +s+ str_opt (bbZmax (m_bb m)) in
  ["mpirun"; "-n"; str_nat nproc; "heatlaminar_mpi"; "-P"; "points3DHF.dat"; "-B";
   bbLimits; "_lamCTL.dat"; tag]%string.

(** [launchLaminar(nproc, tag = None, MapDirection = 0)]: the driver, its
    settings, the world and the lines printed.  [subprocess.run] is called
    without [check], so only a command that cannot be started raises. *)
Definition launchLaminar (p : plasma3D) (m : mafot) (w : world) (nproc : nat)
  (tag : option string) (MapDirection : Z)
  : result (plasma3D * mafot * world * list string) :=
  let tag := match tag with None => "" | Some t => t end in
  let fs1 := writeControlFile p m (w_fs w) MapDirection in
  fs2 <- writeM3DC1supFile p m fs1 ;;
  let nproc := if Nat.ltb 20 nproc then 20%nat else nproc in
  let m := set_launch m nproc tag in
  w1 <- run (launch_args m nproc tag) (p3_cwd p) (with_fs w fs2) ;;
  '(p', out) <- readLaminar p (w_fs w1) (Some tag) None ;;
  Ok (p', m, w1,
      ["Launching 3D plasma field line tracing"%string] ++ out
      ++ ["3D plasma field line tracing complete"%string]).

End Launch.

(** ** Loading an earlier trace *)

(** [os.path.samefile], as [shutil.copy] asks it of a source that exists:
    whether two names name one file.  A name names the same file as itself;
    two names that differ may do so too, through [.], [..], a doubled slash
    or a link. *)
Class Paths : Type := {
  samefile : string -> string -> bool;
  samefile_refl : forall p : string, samefile p p = true
}.

(** The paths of the worked runs: names that differ name different files. *)
Definition paths_literal : Paths :=
  {| samefile := String.eqb; samefile_refl := String.eqb_refl |}.

Section Copy.
Context `{Paths}.

(** [if os.path.isfile(src): shutil.copy(src, dst)]; [None] stands for the
    [shutil.SameFileError] that [shutil.copy] raises when both names are one
    file. *)
Definition copy_if_file (fs : FS) (src dst : string) : option FS :=
  match fs_read fs src with
  | Some f => if samefile src dst then None else Some (fs_write fs dst f)
  | None => Some fs
  end.

(** [copyAndRead(path, tag = None)]: [None] for a [SameFileError],
    otherwise the outcome with the driver, the files and the lines printed. *)
Definition copyAndRead (p : plasma3D) (fs : FS) (path : string) (tag : option string)
  : option (result (plasma3D * FS * list string)) :=
  let tag := match tag with None => "" | Some t => t end in
  match copy_if_file fs (path +s+ "/" +s+ "_lamCTL.dat") (p3_cwd p +s+ "/" +s+ "_lamCTL.dat") with
  | None => None
  | Some fs1 =>
      match copy_if_file fs1 (path +s+ "/" +s+ "m3dc1sup.in")
                         (p3_cwd p +s+ "/" +s+ "m3dc1sup.in") with
      | None => None
      | Some fs2 =>
          let src := path +s+ "/" +s+ "lam_" +s+ tag +s+ ".dat" in
          let dst := p3_cwd p +s+ "/" +s+ "lam_" +s+ tag +s+ ".dat" in
          match copy_if_file fs2 src dst with
          | None => None
          | Some fs3 =>
              let out1 := if isfile fs2 src then []
                          else ["MAFOT output file: " +s+ src +s+ " not found!"] in
              let out2 := ["Copy and load 3D MAFOT Laminar data from file: " +s+ src] in
              Some ('(p', out) <- readLaminar p fs3 (Some tag) None ;;
                    Ok (p', fs3, out1 ++ out2 ++ out))
          end
      end
  end.

End Copy.

(** A [str] that does not show the digits of a float, for the worked runs,
    which do not read them. *)
Definition repr_hidden : PyRepr := {| str_float := fun _ => "<float>" |}.

(** The settings after [initializePlasma3D(shot, time)] without an input
    file and without [m3dc1sup.in]: the defaults of [setMAFOTctl] and of
    [setM3DC1input], with no boundary box yet. *)
Definition mafot_default (shot time : Z) (gFile : string) : mafot :=
  {| m_shot := shot; m_time := time; m_gFile := gFile; m_itt := 300; m_response := 0;
     m_selectField := -1; m_useIcoil := 0; m_sigma := 0; m_charge := -1;
     m_Ekin := 10; m_Lambda := 0.1; m_Mass := 2;
     m_C1Files := ["./C1.h5"%string]; m_C1scales := [PyInt 1]; m_C1phases := [PyFloat 0];
     m_bb := bbox_init; m_nproc := None; m_tag := None |}.

(** * The terminal interface *)

(** ** numpy on time steps and names *)

(** [np.sort] and [np.unique] on a flat array of floats. *)
Fixpoint insert_R (x : R) (l : list R) : list R :=
  match l with
  | [] => [x]
  | y :: l' => if Rle_dec x y then x :: l else y :: insert_R x l'
  end.

Definition np_sort (l : list R) : list R := fold_right insert_R [] l.

Fixpoint insert_new_R (x : R) (l : list R) : list R :=
  match l with
  | [] => [x]
  | y :: l' =>
      if Rlt_dec x y then x :: l
      else if Req_dec_T x y then l
      else y :: insert_new_R x l'
  end.

Definition np_unique (l : list R) : list R := fold_right insert_new_R [] l.

(** [np.unique] on an array of strings: the distinct values, in order. *)
Fixpoint insert_str (x : string) (l : list string) : list string :=
  match l with
  | [] => [x]
  | y :: l' => if String.leb x y then x :: l else y :: insert_str x l'
  end.

Definition unique_str (l : list string) : list string :=
  fold_right insert_str [] (nodup string_dec l).

(** [s.split(":")]. *)
Fixpoint split_from (cur s : string) : list string :=
  match s with
  | EmptyString => [cur]
  | String c s' =>
      if Ascii.eqb c ":" then cur :: split_from "" s'
      else split_from (cur +s+ String c "") s'
  end.

Definition split_colon (s : string) : list string := split_from "" s.

(** ** The batch file *)

(** A line of the batch file, as [pd.read_csv] returns it. *)
Record batchRow : Type := {
  b_MachFlag : string;
  b_Tag : string;
  b_Shot : Z;
  b_TimeStep : R;
  b_GEQDSK : string;
  b_CAD : string;
  b_PFC : string;
  b_Input : string;
  b_Output : string
}.

(** What [simulationSchedule] stores in the interface object. *)
Record schedule : Type := {
  s_machines : list string;
  s_machData : list (list batchRow);
  s_machTags : list (list string);
  s_Nsim : nat
}.

(** [simulationSchedule(batchFile)] on the lines [data] of the batch file,
    with the attribute [machineList] of the object; [None] stands for the
    [sys.exit()] on a machine that is not in the list. *)
Definition simulationSchedule (machineList : list string) (data : list batchRow)
  : option schedule :=
  let machines := unique_str (map b_MachFlag data) in
  if forallb (fun mach => str_in mach machineList) machines then
    let machData := map (fun mach => filter (fun r => String.eqb (b_MachFlag r) mach) data)
                        machines in
    let machTags := map (fun d => unique_str (map b_Tag d)) machData in
    Some {| s_machines := machines; s_machData := machData; s_machTags := machTags;
            s_Nsim := list_sum (map (@length string) machTags) |}
  else None.

(** The [runList] that [runSimulations] builds for the lines of one tag:
    [np.unique] of the options of all lines, split at the colons. *)
Definition runList (tagData : list batchRow) : list string :=
  unique_str (concat (map (fun r => split_colon (b_Output r)) tagData)).

(** [loadTimeSteps(ts, shot, tag, tsFil)]: the time steps handed to
    [ENG.setupTime]. *)
Definition loadTimeSteps (ts : list R) (tsFil : option (list (list R))) : list R :=
  let ts := match tsFil with
            | Some rows => fold_left (fun acc row => acc ++ row) rows ts
            | None => ts
            end in
  np_unique (np_sort ts).

(** Equality of (machine, tag) pairs is decidable. *)
Definition pair_dec (x y : string * string) : {x = y} + {x <> y}.
Proof.
  decide equality; apply string_dec.
Defined.

(** ** Reference data of the worked runs of the scale factor *)

(** The defaults of [setHFctl] with the conductive model selected. *)
Definition ctl_conduct : HFctl :=
  {| c_Lcmin := 0.075; c_lcfs := 0.97; c_lqCN := 5; c_S := 2; c_P := 10;
     c_coreRadFrac := 0.0; c_qBG := 0; c_kappa := 2000;
     c_teProfileData := PD_None; c_neProfileData := PD_None;
     c_model := Some "conduct" |}.

(** The conductive model with a core radiation of 30 percent and a
    temperature profile tabulated as the constant 1 keV. *)
Definition ctl_flat : HFctl :=
  {| c_Lcmin := 0.075; c_lcfs := 0.97; c_lqCN := 5; c_S := 2; c_P := 10;
     c_coreRadFrac := 0.3; c_qBG := 0; c_kappa := 2000;
     c_teProfileData := PD_array [1; 1; 1; 1]; c_neProfileData := PD_None;
     c_model := Some "conduct" |}.

(** The layer model with a core radiation of 30 percent. *)
Definition ctl_eich : HFctl :=
  {| c_Lcmin := 0.075; c_lcfs := 0.97; c_lqCN := 5; c_S := 2; c_P := 10;
     c_coreRadFrac := 0.3; c_qBG := 0; c_kappa := 2000;
     c_teProfileData := PD_None; c_neProfileData := PD_None;
     c_model := Some "eich" |}.

(** The slab with a flux that falls from the axis to the separatrix. *)
Definition ep_falling : equilParams :=
  {| psiFunc_ev := fun r _ => r - 1; g_psiSep := -0.5; g_psiAxis := 0.5;
     g_RmAxis := 1; g_ZmAxis := 0; g_R1 := 0.5; g_Xdim := 2; g_R := [0.5; 2.5] |}.

(** A world that holds the midplane trace of the low-field side: a
    thousand rows, each with [psimin = 1.05]. *)
Definition midplane_rows : list (list R) := repeat [1.0; 0; 0; 0.1; 1.05] 1000.

Definition w_midplane : world :=
  with_fs w_idle [("run/lam_lfs_mp.dat"%string, TableFile midplane_rows)].

(** * Properties *)

(** ** Results *)

Lemma bind_Ok {A B : Type} (m : result A) (k : A -> result B) (b : B) :
  bind m k = Ok b -> exists a, m = Ok a /\ k a = Ok b.
Proof.
  destruct m as [a | e]; simpl; intros E.
  - exists a. split; [reflexivity | exact E].
  - discriminate E.
Qed.

Lemma attr_Ok {A : Type} (o : option A) (a : A) : attr o = Ok a -> o = Some a.
Proof.
  destruct o; simpl; intros E; [now inversion E | discriminate E].
Qed.

(** Take a successful sequence of calls apart, one call at a time. *)
Ltac inv_ok :=
  repeat match goal with
  | E : bind _ _ = Ok _ |- _ =>
      let a := fresh "a" in let Ea := fresh "E" in
      apply bind_Ok in E; destruct E as [a [Ea E]]
  | E : attr _ = Ok _ |- _ => apply attr_Ok in E
  | E : Ok _ = Ok _ |- _ => inversion E; subst; clear E
  | E : Raise _ = Ok _ |- _ => discriminate E
  | E : (let (_, _) := ?p in _) = Ok _ |- _ => destruct p
  | E : match ?p with pair _ _ => _ end = Ok _ |- _ => destruct p
  end.

(** Comparisons of literals. *)
Ltac decide_R :=
  unfold Np.ltb, Np.eqb;
  repeat match goal with
  | |- context [Rlt_dec ?a ?b] => destruct (Rlt_dec a b); try lra
  | |- context [Req_dec_T ?a ?b] => destruct (Req_dec_T a b); try lra
  end.

(** [field] on equations with decimal literals. *)
Ltac dfield := cbv [Q2R QArith_base.Qnum QArith_base.Qden]; field.

(** ** Index and mask assignment *)

Lemma length_set_nth {A : Type} (v : A) (a : list A) :
  forall i, length (Np.set_nth i v a) = length a.
Proof.
  induction a as [| x a IH]; intros [| i]; simpl; auto.
Qed.

Lemma nth_error_set_nth {A : Type} (v : A) (a : list A) :
  forall i j, (i < length a)%nat ->
    nth_error (Np.set_nth i v a) j = if Nat.eqb j i then Some v else nth_error a j.
Proof.
  induction a as [| x a IH]; intros i j Hi; simpl in Hi; [lia |].
  destruct i as [| i], j as [| j]; simpl; try reflexivity.
  apply IH. lia.
Qed.

Lemma put_fold {A : Type} (v : A) (idx : list nat) :
  forall a : list A,
    forallb (fun i => Nat.ltb i (length a)) idx = true ->
    let a' := fold_left (fun acc i => Np.set_nth i v acc) idx a in
    length a' = length a /\
    forall j, nth_error a' j = if existsb (Nat.eqb j) idx then Some v else nth_error a j.
Proof.
  induction idx as [| i idx IH]; intros a Hb; simpl in *.
  - split; reflexivity.
  - apply andb_prop in Hb. destruct Hb as [Hi Hb].
    apply Nat.ltb_lt in Hi.
    specialize (IH (Np.set_nth i v a)).
    rewrite length_set_nth in IH. specialize (IH Hb).
    destruct IH as [Hlen Hnth]. split; [exact Hlen |].
    intros j. rewrite Hnth, nth_error_set_nth by exact Hi.
    destruct (Nat.eqb j i); simpl; [| reflexivity].
    now destruct (existsb (Nat.eqb j) idx).
Qed.

Lemma put_Ok {A : Type} (v : A) (idx : list nat) (a a' : list A) :
  Np.put idx v a = Ok a' ->
  length a' = length a /\
  forall j, nth_error a' j = if existsb (Nat.eqb j) idx then Some v else nth_error a j.
Proof.
  unfold Np.put. destruct (forallb _ idx) eqn:Hb; intros E; [| discriminate E].
  inversion E; subst. now apply put_fold.
Qed.

Lemma where_from_mem (b : list bool) :
  forall k j, existsb (Nat.eqb j) (Np.where_from k b) = true
              <-> (k <= j)%nat /\ nth_error b (j - k) = Some true.
Proof.
  induction b as [| x b IH]; intros k j; simpl.
  - split; [discriminate |]. intros [_ E]. now destruct (j - k)%nat.
  - assert (Hstep : (S k <= j)%nat /\ nth_error b (j - S k) = Some true
             <-> (k < j)%nat /\ nth_error (x :: b) (j - k) = Some true).
    { split; intros [Hk E]; (split; [lia |]).
      - replace (j - k)%nat with (S (j - S k)) by lia. exact E.
      - replace (j - k)%nat with (S (j - S k)) in E by lia. exact E. }
    destruct x; simpl.
    + rewrite orb_true_iff, IH, Hstep, Nat.eqb_eq. split.
      * intros [-> | [Hk E]]; [| split; [lia | exact E]].
        split; [lia |]. now rewrite Nat.sub_diag.
      * intros [Hk E]. destruct (Nat.eq_dec j k) as [-> | Hne]; [now left |].
        right. split; [lia | exact E].
    + rewrite IH, Hstep. split.
      * intros [Hk E]. split; [lia | exact E].
      * intros [Hk E]. split; [| exact E].
        destruct (Nat.eq_dec j k) as [-> | Hne]; [| lia].
        rewrite Nat.sub_diag in E. discriminate E.
Qed.

Lemma where_mem (b : list bool) (j : nat) :
  existsb (Nat.eqb j) (Np.where_ b) = true <-> nth_error b j = Some true.
Proof.
  unfold Np.where_. rewrite where_from_mem, Nat.sub_0_r. split.
  - now intros [_ E].
  - intros E. split; [lia | exact E].
Qed.

Lemma where_from_bound (b : list bool) :
  forall k n, (k + length b <= n)%nat ->
    forallb (fun i => Nat.ltb i n) (Np.where_from k b) = true.
Proof.
  induction b as [| x b IH]; intros k n Hn; simpl in *; [reflexivity |].
  destruct x; simpl.
  - rewrite IH by lia. replace (Nat.ltb k n) with true; [reflexivity |].
    symmetry. apply Nat.ltb_lt. lia.
  - apply IH. lia.
Qed.

(** A mask written through [where]: inside the array, position [j] holds
    the new value exactly when [b] is [True] there. *)
Lemma put_where_nth {A : Type} (v d : A) (b : list bool) (n : nat) (a' : list A) :
  Np.put (Np.where_ b) v (Np.full n d) = Ok a' ->
  length a' = n /\
  forall j, (j < n)%nat ->
    nth_error a' j = Some (match nth_error b j with Some true => v | _ => d end).
Proof.
  intros E. apply put_Ok in E. destruct E as [Hlen Hnth].
  unfold Np.full in *. rewrite repeat_length in Hlen. split; [exact Hlen |].
  intros j Hj. rewrite Hnth.
  destruct (existsb (Nat.eqb j) (Np.where_ b)) eqn:Hm.
  - apply where_mem in Hm. now rewrite Hm.
  - rewrite nth_error_repeat by exact Hj.
    destruct (nth_error b j) as [[|] |] eqn:Hb; try reflexivity.
    apply where_mem in Hb. congruence.
Qed.

(** With a condition as long as the array the assignment always succeeds
    and is the elementwise choice. *)
Lemma put_where_full {A : Type} (v d : A) (b : list bool) :
  Np.put (Np.where_ b) v (Np.full (length b) d)
  = Ok (map (fun x : bool => if x then v else d) b).
Proof.
  destruct (Np.put (Np.where_ b) v (Np.full (length b) d)) as [a' | e] eqn:E.
  - f_equal. apply put_where_nth in E. destruct E as [Hlen Hnth].
    apply nth_error_ext. intros j.
    destruct (Nat.lt_ge_cases j (length b)) as [Hj | Hj].
    + rewrite Hnth by exact Hj. rewrite nth_error_map.
      destruct (nth_error b j) as [[|] |] eqn:Hb; try reflexivity.
      apply nth_error_None in Hb. lia.
    + rewrite (proj2 (nth_error_None _ _)) by lia.
      symmetry. apply nth_error_None. rewrite length_map. lia.
  - unfold Np.put in E. unfold Np.full in E. rewrite repeat_length in E.
    unfold Np.where_ in E. rewrite where_from_bound in E by (simpl; lia).
    discriminate E.
Qed.

(** ** [updateLaminarData] and its masks *)

Lemma isGoodPoint_eq (hf : heatflux3D) (psimin : list R) :
  hf_psimin hf = Some psimin -> hf_N hf = length psimin ->
  isGoodPoint hf = Ok (map (fun p => negb (Np.eqb p 10)) psimin).
Proof.
  intros Hp Hn. unfold isGoodPoint. rewrite Hp, Hn.
  rewrite <- (length_map (fun p => Np.eqb p 10) psimin).
  rewrite put_where_full, map_map. reflexivity.
Qed.

Lemma logical_and_same (a b : list bool) :
  length a = length b ->
  Np.logical_and a b = Ok (map (fun ab => fst ab && snd ab) (combine a b)).
Proof.
  intros Hlen. unfold Np.logical_and. now rewrite Hlen, Nat.eqb_refl.
Qed.

Lemma isPFR_eq (hf : heatflux3D) (psimin Lc : list R) :
  hf_psimin hf = Some psimin -> hf_Lc hf = Some Lc -> hf_N hf = length psimin ->
  length psimin = length Lc ->
  isPFR hf = Ok (map (fun pl => Np.ltb (fst pl) 1 && Np.ltb (snd pl) (hf_Lcmin hf))
                     (combine psimin Lc)).
Proof.
  intros Hp Hl Hn Hlen. unfold isPFR. rewrite Hp, Hl, Hn. simpl.
  rewrite logical_and_same by (rewrite !length_map; exact Hlen). simpl.
  set (cond := map _ (combine (map _ psimin) (map _ Lc))).
  assert (Hc : length psimin = length cond).
  { unfold cond. rewrite length_map, length_combine, !length_map. lia. }
  rewrite Hc, put_where_full. f_equal. unfold cond.
  rewrite map_map. clear. revert Lc.
  induction psimin as [| p ps IH]; intros [| l Lc]; simpl; try reflexivity.
  rewrite IH. now destruct (Np.ltb p 1), (Np.ltb l (hf_Lcmin hf)).
Qed.

(** For arrays of one length, [updateLaminarData] always succeeds and the
    masks are the elementwise tests. *)
Lemma updateLaminarData_eq (hf : heatflux3D) (psimin Lc : list R) :
  length psimin = length Lc ->
  updateLaminarData hf psimin Lc =
  Ok (set_pfr
        (set_good (set_laminar hf psimin Lc (length psimin) (Np.zeros (length psimin)))
                  (map (fun p => negb (Np.eqb p 10)) psimin))
        (map (fun pl => Np.ltb (fst pl) 1 && Np.ltb (snd pl) (hf_Lcmin hf))
             (combine psimin Lc))).
Proof.
  intros Hlen. unfold updateLaminarData.
  rewrite (isGoodPoint_eq _ psimin) by reflexivity. simpl.
  rewrite (isPFR_eq _ psimin Lc) by (try reflexivity; exact Hlen).
  reflexivity.
Qed.

(** C3. The scenario of the specification: with [Lcmin = 0.075] and
    [lcfs = 0.97], [updateLaminarData] on [psimin = [0.9, 1.0, 10, 1.05]] and
    [Lc = [0.05, 0.2, 0.01, 0.3]] succeeds and leaves the good mask
    [[True, True, False, True]] and the PFR mask [[True, False, False, False]]. *)
Theorem updateLaminarData_scenario (hf : heatflux3D) :
  hf_Lcmin hf = 0.075 -> hf_lcfs hf = 0.97 ->
  exists hf',
    updateLaminarData hf [0.9; 1.0; 10; 1.05] [0.05; 0.2; 0.01; 0.3] = Ok hf' /\
    hf_good hf' = Some [true; true; false; true] /\
    hf_pfr hf' = Some [true; false; false; false].
Proof.
  intros HLcmin _. eexists. split.
  - apply updateLaminarData_eq. reflexivity.
  - simpl. rewrite HLcmin. split; f_equal; decide_R; reflexivity.
Qed.

Lemma updateLaminarData_scenario_witness :
  exists hf',
    updateLaminarData (hf_default ep_slab "run") [0.9; 1.0; 10; 1.05] [0.05; 0.2; 0.01; 0.3]
      = Ok hf' /\
    hf_good hf' = Some [true; true; false; true] /\
    hf_pfr hf' = Some [true; false; false; false].
Proof.
  apply (updateLaminarData_scenario (hf_default ep_slab "run")); reflexivity.
Defined.

Lemma nth_error_combine {A B : Type} (a : list A) :
  forall (b : list B) (j : nat) (x : A) (y : B),
    nth_error (combine a b) j = Some (x, y) ->
    nth_error a j = Some x /\ nth_error b j = Some y.
Proof.
  induction a as [| x' a IH]; intros [| y' b] [| j] x y E; simpl in *;
    try discriminate E.
  - inversion E; subst. split; reflexivity.
  - now apply IH.
Qed.

Lemma logical_and_left (a b c : list bool) (j : nat) :
  Np.logical_and a b = Ok c -> (j < length a)%nat ->
  nth_error c j = Some true -> nth_error a j = Some true.
Proof.
  unfold Np.logical_and. intros E Hj Hc.
  destruct (Nat.eqb (length a) (length b)) eqn:Hlen.
  - inversion E; subst; clear E.
    rewrite nth_error_map in Hc.
    destruct (nth_error (combine a b) j) as [[x y] |] eqn:Hxy; [| discriminate Hc].
    apply nth_error_combine in Hxy. destruct Hxy as [Hx _].
    simpl in Hc. destruct x; [exact Hx | discriminate Hc].
  - assert (Hright : forall y, nth_error (map (fun x : bool => x && y) a) j = Some true ->
                               nth_error a j = Some true).
    { intros y. rewrite nth_error_map. destruct (nth_error a j) as [x |]; simpl; [| auto].
      destruct x; simpl; auto. }
    destruct a as [| x [| x' a]], b as [| y [| y' b]];
      simpl in E, Hlen, Hj; try discriminate E; try discriminate Hlen; try lia;
      inversion E; subst; clear E.
    + destruct j; discriminate Hc.
    + assert (j = 0)%nat by lia. subst j.
      simpl in Hc. simpl. destruct x; [reflexivity | discriminate Hc].
    + now apply Hright with y.
Qed.

(** C10. After [updateLaminarData] the PFR mask implies the good mask: a
    position flagged PFR has [psimin < 1], hence [psimin != 10], and is
    flagged good. *)
Theorem pfr_implies_good (hf hf' : heatflux3D) (psimin Lc : list R) :
  updateLaminarData hf psimin Lc = Ok hf' ->
  exists good pfr,
    hf_good hf' = Some good /\ hf_pfr hf' = Some pfr /\
    length good = length psimin /\ length pfr = length psimin /\
    forall i, nth_error pfr i = Some true ->
      nth_error good i = Some true /\
      exists p, nth_error psimin i = Some p /\ p < 1 /\ p <> 10.
Proof.
  unfold updateLaminarData. intros E.
  apply bind_Ok in E. destruct E as [good [Hgood E]].
  apply bind_Ok in E. destruct E as [pfr [Hpfr E]].
  inversion E; subst hf'; clear E.
  rewrite (isGoodPoint_eq _ psimin) in Hgood by reflexivity.
  inversion Hgood; subst good; clear Hgood.
  unfold isPFR in Hpfr. simpl in Hpfr.
  apply bind_Ok in Hpfr. destruct Hpfr as [cond [Hcond Hput]].
  apply put_where_nth in Hput. destruct Hput as [Hlen Hnth].
  exists (map (fun p => negb (Np.eqb p 10)) psimin), pfr. simpl.
  split; [reflexivity |]. split; [reflexivity |].
  split; [apply length_map |]. split; [exact Hlen |].
  intros i Hi.
  assert (Hlt : (i < length psimin)%nat).
  { rewrite <- Hlen. apply nth_error_Some. congruence. }
  rewrite Hnth in Hi by exact Hlt.
  destruct (nth_error cond i) as [[|] |] eqn:Hc; try discriminate Hi.
  apply (logical_and_left _ _ _ i Hcond) in Hc; [| now rewrite length_map].
  rewrite nth_error_map in Hc.
  destruct (nth_error psimin i) as [p |] eqn:Hp; [| discriminate Hc].
  simpl in Hc.
  assert (Hp1 : p < 1).
  { unfold Np.ltb in Hc. destruct (Rlt_dec p 1); [assumption | discriminate Hc]. }
  split.
  - rewrite nth_error_map, Hp. simpl. unfold Np.eqb.
    destruct (Req_dec_T p 10); [lra | reflexivity].
  - exists p. repeat split; auto; lra.
Qed.

Lemma pfr_implies_good_witness :
  exists good pfr,
    length good = 4%nat /\ length pfr = 4%nat /\
    forall i, nth_error pfr i = Some true ->
      nth_error good i = Some true /\
      exists p, nth_error [0.9; 1.0; 10; 1.05] i = Some p /\ p < 1 /\ p <> 10.
Proof.
  destruct (pfr_implies_good (hf_default ep_slab "run") _
              [0.9; 1.0; 10; 1.05] [0.05; 0.2; 0.01; 0.3]
              (updateLaminarData_eq (hf_default ep_slab "run")
                 [0.9; 1.0; 10; 1.05] [0.05; 0.2; 0.01; 0.3] eq_refl))
    as [good [pfr [_ [_ [Hg [Hp Himp]]]]]].
  exists good, pfr. repeat split; try assumption; now apply Himp.
Defined.

(** ** Boolean-mask selection and assignment *)

Lemma length_select_aux {A : Type} (a : list A) :
  forall mask, length a = length mask -> length (Np.select_aux a mask) = Np.count mask.
Proof.
  unfold Np.count.
  induction a as [| x a IH]; intros [| m mask] Hlen; simpl in *; try lia.
  destruct m; simpl; rewrite IH by lia; reflexivity.
Qed.

Lemma select_Ok {A : Type} (a : list A) (mask : list bool) :
  length a = length mask ->
  Np.select a mask = Ok (Np.select_aux a mask).
Proof.
  intros Hlen. unfold Np.select. now rewrite Hlen, Nat.eqb_refl.
Qed.

Lemma select_inv {A : Type} (a sel : list A) (mask : list bool) :
  Np.select a mask = Ok sel ->
  length a = length mask /\ sel = Np.select_aux a mask.
Proof.
  unfold Np.select. destruct (Nat.eqb (length a) (length mask)) eqn:Hlen; intros E.
  - apply Nat.eqb_eq in Hlen. inversion E. auto.
  - discriminate E.
Qed.

Lemma assign_Ok {A : Type} (a vals : list A) (mask : list bool) :
  length a = length mask -> length vals = Np.count mask ->
  Np.assign a mask vals = Ok (Np.assign_aux a mask vals).
Proof.
  intros Hlen Hc. unfold Np.assign. now rewrite Hlen, Hc, !Nat.eqb_refl.
Qed.

Lemma assign_inv {A : Type} (a vals a' : list A) (mask : list bool) :
  Np.assign a mask vals = Ok a' ->
  length a = length mask /\ length vals = Np.count mask /\ a' = Np.assign_aux a mask vals.
Proof.
  unfold Np.assign.
  destruct (Nat.eqb (length a) (length mask)) eqn:Hlen; [| discriminate].
  destruct (Nat.eqb (length vals) (Np.count mask)) eqn:Hc; [| discriminate].
  apply Nat.eqb_eq in Hlen, Hc. intros E. inversion E. auto.
Qed.

Lemma length_assign_aux {A : Type} (a : list A) :
  forall mask vals, length (Np.assign_aux a mask vals) = length a.
Proof.
  induction a as [| x a IH]; intros [| m mask] vals; simpl; try reflexivity.
  destruct m; [destruct vals |]; simpl; now rewrite IH.
Qed.

(** A position outside the mask keeps its entry. *)
Lemma assign_aux_unselected {A : Type} (a : list A) :
  forall mask vals i,
    nth_error mask i = Some false ->
    nth_error (Np.assign_aux a mask vals) i = nth_error a i.
Proof.
  induction a as [| x a IH]; intros [| m mask] vals [| i] Hm; simpl in *;
    try reflexivity; try discriminate Hm.
  - inversion Hm; subst. reflexivity.
  - destruct m; [destruct vals |]; simpl; now apply IH.
Qed.

(** Every entry after a mask assignment is an old entry or a new value. *)
Lemma assign_aux_Forall {A : Type} (P : A -> Prop) (a : list A) :
  forall mask vals,
    Forall P a -> Forall P vals -> Forall P (Np.assign_aux a mask vals).
Proof.
  induction a as [| x a IH]; intros [| m mask] vals Ha Hv; simpl; auto.
  inversion Ha; subst.
  destruct m; [destruct vals as [| v vals]; [| inversion Hv; subst] |];
    constructor; auto.
Qed.

Lemma select_aux_Forall {A : Type} (P : A -> Prop) (a : list A) :
  forall mask, Forall P a -> Forall P (Np.select_aux a mask).
Proof.
  induction a as [| x a IH]; intros [| m mask] Ha; simpl; auto.
  inversion Ha; subst. destruct m; auto.
Qed.

Lemma assign_scalar_aux_Forall {A : Type} (P : A -> Prop) (a : list A) (v : A) :
  forall mask, Forall P a -> P v -> Forall P (Np.assign_scalar_aux a mask v).
Proof.
  induction a as [| x a IH]; intros [| m mask] Ha Hv; simpl; auto.
  inversion Ha; subst. constructor; [destruct m |]; auto.
Qed.

Lemma length_assign_scalar_aux {A : Type} (a : list A) (v : A) :
  forall mask, length (Np.assign_scalar_aux a mask v) = length a.
Proof.
  induction a as [| x a IH]; intros [| m mask]; simpl; auto.
Qed.

Lemma assign_scalar_inv {A : Type} (a a' : list A) (mask : list bool) (v : A) :
  Np.assign_scalar a mask v = Ok a' ->
  length a = length mask /\ a' = Np.assign_scalar_aux a mask v.
Proof.
  unfold Np.assign_scalar.
  destruct (Nat.eqb (length a) (length mask)) eqn:Hlen; [| discriminate].
  apply Nat.eqb_eq in Hlen. intros E. inversion E. auto.
Qed.

Lemma assign_scalar_Ok {A : Type} (a : list A) (mask : list bool) (v : A) :
  length a = length mask ->
  Np.assign_scalar a mask v = Ok (Np.assign_scalar_aux a mask v).
Proof.
  intros Hlen. unfold Np.assign_scalar. now rewrite Hlen, Nat.eqb_refl.
Qed.

(** ** The profile functions *)

Lemma float_div_Ok (a b : R) : b <> 0 -> float_div a b = Ok (a / b).
Proof.
  intros Hb. unfold float_div, Np.eqb.
  destruct (Req_dec_T b 0); [contradiction | reflexivity].
Qed.


Lemma float_div_inv (a b v : R) : float_div a b = Ok v -> b <> 0 /\ v = a / b.
Proof.
  unfold float_div, Np.eqb.
  destruct (Req_dec_T b 0); intros E; [discriminate E |].
  inversion E. auto.
Qed.

(** The coefficients exist for every width [lq] other than zero. *)
Lemma eich_abc_Ok (lq S fx : R) :
  lq <> 0 ->
  eich_abc lq S fx = Ok (lq * 1e-3 * fx, 0.5 * (S * 1e-3) / (lq * 1e-3), S * 1e-3 * fx).
Proof.
  intros Hlq. unfold eich_abc. rewrite float_div_Ok by lra. reflexivity.
Qed.


Lemma eich_abc_inv (lq S fx : R) (abc : R * R * R) :
  eich_abc lq S fx = Ok abc ->
  lq <> 0 /\ abc = (lq * 1e-3 * fx, 0.5 * (S * 1e-3) / (lq * 1e-3), S * 1e-3 * fx).
Proof.
  unfold eich_abc. intros E.
  apply bind_Ok in E. destruct E as [b [Hb E]].
  apply float_div_inv in Hb. destruct Hb as [Hlq ->].
  inversion E. split; [lra | reflexivity].
Qed.

Section Eich.
Context `{SciPy}.


(** The ratio [b] does not depend on the unit. *)
Lemma eich_b_unit_free (lq S : R) :
  lq <> 0 -> 0.5 * (S * 1e-3) / (lq * 1e-3) = 0.5 * S / lq.
Proof.
  intros Hlq. field. exact Hlq.
Qed.

End Eich.



Lemma cosh_pos (x : R) : 0 < cosh x.
Proof.
  unfold cosh. pose proof (exp_pos x). pose proof (exp_pos (- x)). lra.
Qed.

Lemma sinh_pos (x : R) : 0 < x -> 0 < sinh x.
Proof.
  intros Hx. rewrite <- sinh_0. now apply sinh_lt.
Qed.

Lemma sinh_neg (x : R) : x < 0 -> sinh x < 0.
Proof.
  intros Hx. rewrite <- sinh_0. now apply sinh_lt.
Qed.

Lemma tanh_pos (x : R) : 0 < x -> 0 < tanh x.
Proof.
  intros Hx. unfold tanh. apply Rdiv_lt_0_compat; [now apply sinh_pos | apply cosh_pos].
Qed.

Lemma tanh_neg (x : R) : x < 0 -> tanh x < 0.
Proof.
  intros Hx. unfold tanh, Rdiv.
  pose proof (sinh_neg x Hx) as Hs.
  pose proof (Rinv_0_lt_compat _ (cosh_pos x)) as Hc. nra.
Qed.

Lemma cosh2_minus_sinh2 (x : R) : cosh x * cosh x - sinh x * sinh x = 1.
Proof.
  unfold cosh, sinh.
  replace ((exp x + exp (- x)) / 2 * ((exp x + exp (- x)) / 2)
           - (exp x - exp (- x)) / 2 * ((exp x - exp (- x)) / 2))
    with (exp x * exp (- x)) by field.
  rewrite <- exp_plus, Rplus_opp_r. apply exp_0.
Qed.

Lemma derivable_pt_lim_tanh (x : R) : derivable_pt_lim tanh x (1 - tanh x ^ 2).
Proof.
  pose proof (cosh_pos x) as Hc.
  replace (1 - tanh x ^ 2) with ((cosh x * cosh x - sinh x * sinh x) / (cosh x)²).
  - apply (derivable_pt_lim_div sinh cosh x (cosh x) (sinh x)).
    + apply derivable_pt_lim_sinh.
    + apply derivable_pt_lim_cosh.
    + lra.
  - unfold tanh, Rsqr. field. lra.
Qed.

(** The derivation rules, for functions written as abstractions. *)
Lemma dlim_scal (f : R -> R) (a x l : R) :
  derivable_pt_lim f x l -> derivable_pt_lim (fun y => a * f y) x (a * l).
Proof. exact (derivable_pt_lim_scal f a x l). Qed.

Lemma dlim_comp (f g : R -> R) (x l1 l2 : R) :
  derivable_pt_lim f x l1 -> derivable_pt_lim g (f x) l2 ->
  derivable_pt_lim (fun y => g (f y)) x (l2 * l1).
Proof. exact (derivable_pt_lim_comp f g x l1 l2). Qed.

Lemma dlim_plus (f g : R -> R) (x l1 l2 : R) :
  derivable_pt_lim f x l1 -> derivable_pt_lim g x l2 ->
  derivable_pt_lim (fun y => f y + g y) x (l1 + l2).
Proof. exact (derivable_pt_lim_plus f g x l1 l2). Qed.

Lemma dlim_minus (f g : R -> R) (x l1 l2 : R) :
  derivable_pt_lim f x l1 -> derivable_pt_lim g x l2 ->
  derivable_pt_lim (fun y => f y - g y) x (l1 - l2).
Proof. exact (derivable_pt_lim_minus f g x l1 l2). Qed.

Lemma dlim_eq (f : R -> R) (x l l' : R) :
  derivable_pt_lim f x l -> l = l' -> derivable_pt_lim f x l'.
Proof. now intros Hf <-. Qed.

(** The derivative of the local [f] of [Tprofile]. *)
Lemma derivable_pt_lim_Tprofile_f (xs dw x : R) :
  dw <> 0 ->
  derivable_pt_lim (Tprofile_f xs dw) x
    (- (1 / dw) * (1 - tanh (2 * (xs - x) / dw) ^ 2) - 4 * exp (- x * 2)).
Proof.
  intros Hdw.
  set (u := fun y : R => 2 * (xs - y) / dw).
  assert (Hu : derivable_pt_lim u x (2 / dw * (0 - 1))).
  { apply (derivable_pt_lim_ext (fun y => 2 / dw * ((fun _ => xs) y - id y))).
    - intros y. unfold u, id. field. exact Hdw.
    - apply dlim_scal. apply dlim_minus.
      + apply derivable_pt_lim_const.
      + apply derivable_pt_lim_id. }
  set (v := fun y : R => - y * 2).
  assert (Hv : derivable_pt_lim v x (- 2 * 1)).
  { apply (derivable_pt_lim_ext (fun y => - 2 * id y)).
    - intros y. unfold v, id. ring.
    - apply dlim_scal. apply derivable_pt_lim_id. }
  apply (dlim_eq _ _ (0.5 * ((1 - tanh (u x) ^ 2) * (2 / dw * (0 - 1)))
                      + 2 * (exp (v x) * (- 2 * 1)))).
  - apply (dlim_plus (fun y => 0.5 * tanh (u y)) (fun y => 2 * exp (v y))).
    + apply dlim_scal. apply (dlim_comp u tanh); [exact Hu | apply derivable_pt_lim_tanh].
    + apply dlim_scal. apply (dlim_comp v exp); [exact Hv | apply derivable_pt_lim_exp].
  - unfold u, v. dfield. exact Hdw.
Qed.

(** The normalization of [Tprofile] divides by a positive number. *)
Lemma Tprofile_norm_pos :
  0 < Tprofile_f 0.975 0.04 (0.975 - 0.04) - Tprofile_f 0.975 0.04 1.2.
Proof.
  unfold Tprofile_f.
  replace (2 * (0.975 - (0.975 - 0.04)) / 0.04) with 2 by lra.
  replace (2 * (0.975 - 1.2) / 0.04) with (- 11.25) by lra.
  pose proof (tanh_pos 2 ltac:(lra)) as H2.
  pose proof (tanh_neg (- 11.25) ltac:(lra)) as H11.
  assert (He : exp (Ropp 1.2 * 2) < exp (- (0.975 - 0.04) * 2)).
  { apply exp_increasing. lra. }
  lra.
Qed.

(** C5. [Tprofile(psi, Tped)] is [T0n*(g(psi) - g(1.2))] for
    [g(x) = 0.5*tanh(2*(0.975 - x)/0.04) + 2*exp(-2x)] and the constant [T0n]
    that makes the profile equal [Tped] at [psi = 0.975 - 0.04]; with
    [deriv = True] the second value is [T0n * g'(psi)], the derivative of
    the profile at [psi]. *)
Theorem Tprofile_formula (psi Tped : R) :
  let g := fun x : R => 0.5 * tanh (2 * (0.975 - x) / 0.04) + 2 * exp (- 2 * x) in
  exists T0n g' : R,
    T0n * (g (0.975 - 0.04) - g 1.2) = Tped /\
    Tret_T (Tprofile (0.975 - 0.04) Tped false) = Tped /\
    Tprofile psi Tped false = T_only (T0n * (g psi - g 1.2)) /\
    Tprofile psi Tped true = T_deriv (T0n * (g psi - g 1.2)) (T0n * g') /\
    derivable_pt_lim g psi g' /\
    derivable_pt_lim (fun x => Tret_T (Tprofile x Tped false)) psi (T0n * g').
Proof.
  intros g.
  assert (Hg : forall x, Tprofile_f 0.975 0.04 x = g x).
  { intros x. unfold Tprofile_f, g. now replace (- x * 2) with (- 2 * x) by ring. }
  pose proof Tprofile_norm_pos as HD. rewrite !Hg in HD.
  set (D := g (0.975 - 0.04) - g 1.2) in *.
  assert (Hd : derivable_pt_lim g psi
                 (- (1 / 0.04) * (1 - tanh (2 * (0.975 - psi) / 0.04) ^ 2)
                  - 4 * exp (- psi * 2))).
  { apply (derivable_pt_lim_ext (Tprofile_f 0.975 0.04)); [exact Hg |].
    apply derivable_pt_lim_Tprofile_f. lra. }
  exists (Tped / D),
    (- (1 / 0.04) * (1 - tanh (2 * (0.975 - psi) / 0.04) ^ 2) - 4 * exp (- psi * 2)).
  assert (Hval : forall x, Tprofile x Tped false = T_only (Tped / D * (g x - g 1.2))).
  { intros x. unfold Tprofile. rewrite !Hg. reflexivity. }
  repeat split.
  - field. lra.
  - rewrite Hval. simpl. fold D. field. lra.
  - apply Hval.
  - unfold Tprofile. rewrite !Hg. fold D. f_equal. dfield. lra.
  - exact Hd.
  - apply (derivable_pt_lim_ext (fun x => Tped / D * (g x - g 1.2))).
    + intros x. now rewrite Hval.
    + apply dlim_scal.
      apply (dlim_eq _ _ ((- (1 / 0.04) * (1 - tanh (2 * (0.975 - psi) / 0.04) ^ 2)
                           - 4 * exp (- psi * 2)) - 0)); [| ring].
      apply (dlim_minus g (fun _ => g 1.2)); [exact Hd |].
      apply derivable_pt_lim_const.
Qed.

(** Beyond [psi = 1.2] the pedestal profile is negative: there the
    conductive flux, a power 3.5 of the temperature, has no real value. *)
Lemma tanh_exp (x : R) : tanh x = (exp x * exp x - 1) / (exp x * exp x + 1).
Proof.
  pose proof (exp_pos x) as He.
  unfold tanh, sinh, cosh. rewrite exp_Ropp. field. split; nra.
Qed.

Lemma tanh_increasing (x y : R) : x < y -> tanh x < tanh y.
Proof.
  intros Hxy. rewrite !tanh_exp.
  pose proof (exp_pos x) as Hx. pose proof (exp_increasing x y Hxy) as Hlt.
  assert (Hsq : exp x * exp x < exp y * exp y) by nra.
  set (a := exp x * exp x) in *. set (b := exp y * exp y) in *.
  assert (Ha : 0 < a) by (unfold a; nra).
  apply Rmult_lt_reg_r with ((a + 1) * (b + 1)); [nra |].
  replace ((a - 1) / (a + 1) * ((a + 1) * (b + 1))) with ((a - 1) * (b + 1))
    by (field; lra).
  replace ((b - 1) / (b + 1) * ((a + 1) * (b + 1))) with ((b - 1) * (a + 1))
    by (field; lra).
  nra.
Qed.

Lemma Tprofile_negative_beyond_edge (psi Tped : R) :
  1.2 < psi -> 0 < Tped -> Tret_T (Tprofile psi Tped false) < 0.
Proof.
  intros Hpsi HT. unfold Tprofile. simpl.
  pose proof Tprofile_norm_pos as HD.
  set (D := Tprofile_f 0.975 0.04 (0.975 - 0.04) - Tprofile_f 0.975 0.04 1.2) in *.
  assert (Hdiff : Tprofile_f 0.975 0.04 psi - Tprofile_f 0.975 0.04 1.2 < 0).
  { unfold Tprofile_f.
    assert (Ht : tanh (2 * (0.975 - psi) / 0.04) < tanh (2 * (0.975 - 1.2) / 0.04)).
    { apply tanh_increasing. lra. }
    assert (He : exp (- psi * 2) < exp (Ropp 1.2 * 2)).
    { apply exp_increasing. lra. }
    lra. }
  assert (HT0 : 0 < Tped / D) by (apply Rdiv_lt_0_compat; assumption).
  nra.
Qed.

(** ** The assembly of [heatflux] *)

(** What [updateLaminarData] leaves in the object. *)
Lemma updateLaminarData_inv (hf0 hf : heatflux3D) (psimin Lc : list R) :
  updateLaminarData hf0 psimin Lc = Ok hf ->
  hf_psimin hf = Some psimin /\ hf_Lc hf = Some Lc /\
  hf_q hf = Np.zeros (length psimin) /\
  hf_good hf = Some (map (fun p => negb (Np.eqb p 10)) psimin) /\
  (exists pfr, hf_pfr hf = Some pfr /\ length pfr = length psimin) /\
  hf_qBG hf = hf_qBG hf0 /\ hf_model hf = hf_model hf0 /\
  hf_Psol hf = hf_Psol hf0 /\ hf_P hf = hf_P hf0 /\
  hf_coreRadFrac hf = hf_coreRadFrac hf0 /\ hf_kappa hf = hf_kappa hf0 /\
  hf_fT hf = hf_fT hf0 /\ hf_lcfs hf = hf_lcfs hf0 /\ hf_ep hf = hf_ep hf0 /\
  hf_lqCN hf = hf_lqCN hf0 /\ hf_S hf = hf_S hf0.
Proof.
  unfold updateLaminarData. intros E.
  apply bind_Ok in E. destruct E as [good [Hgood E]].
  apply bind_Ok in E. destruct E as [pfr [Hpfr E]].
  inversion E; subst hf; clear E.
  rewrite (isGoodPoint_eq _ psimin) in Hgood by reflexivity.
  inversion Hgood; subst good; clear Hgood.
  unfold isPFR in Hpfr. simpl in Hpfr.
  apply bind_Ok in Hpfr. destruct Hpfr as [cond [_ Hput]].
  apply put_where_nth in Hput. destruct Hput as [Hlen _].
  simpl. repeat split; try reflexivity. now exists pfr.
Qed.

Section Assembly.
Context `{SciPy} `{Host}.

(** The model leaves the masks, the flux array and the background alone. *)
Lemma heatflux_model_keeps (hf hf1 : heatflux3D) (w w1 : world) (DivCode : string)
  (powerFrac q0 : R) (q : list R) :
  heatflux_model hf w DivCode powerFrac = Ok (hf1, q, q0, w1) ->
  hf_good hf1 = hf_good hf /\ hf_q hf1 = hf_q hf /\ hf_qBG hf1 = hf_qBG hf.
Proof.
  unfold heatflux_model. intros E.
  apply bind_Ok in E. destruct E as [model [_ E]].
  destruct (str_in model layer_names).
  - apply bind_Ok in E. destruct E as [HFS [_ E]].
    apply bind_Ok in E. destruct E as [q' [_ E]].
    apply bind_Ok in E. destruct E as [[q0' w'] [_ E]].
    inversion E; subst. simpl. auto.
  - destruct (str_in model conduct_names); [| discriminate E].
    inv_ok. auto.
Qed.

Lemma assemble_inv (hf1 hf2 : heatflux3D) (q : list R) (q0 : R) :
  assemble hf1 q q0 = Ok hf2 ->
  exists good,
    hf_good hf1 = Some good /\ length q = length good /\
    length (hf_q hf1) = length good /\
    hf_q hf2 = map (fun v => v + hf_qBG hf1)
                   (Np.assign_aux (hf_q hf1) good
                      (Np.select_aux (map (fun v => v * q0) q) good)).
Proof.
  unfold assemble. intros E.
  apply bind_Ok in E. destruct E as [good [Hgood E]]. apply attr_Ok in Hgood.
  apply bind_Ok in E. destruct E as [sel [Hsel E]].
  apply bind_Ok in E. destruct E as [selfq [Hself E]].
  inversion E; subst hf2; clear E.
  apply select_inv in Hsel. destruct Hsel as [Hlen ->].
  apply assign_inv in Hself. destruct Hself as [Hlen' [_ ->]].
  exists good. rewrite length_map in Hlen. simpl. auto.
Qed.

(** C1. After [updateLaminarData] and a completed [heatflux], with either
    model, a point whose [psimin] is the sentinel 10 has flux exactly [qBG]:
    the zero set by [updateLaminarData] plus the background. *)
Theorem nonconverged_flux_is_qBG (hf0 hf hf' : heatflux3D) (psimin Lc : list R)
  (w w' : world) (DivCode : string) (powerFrac : R) (i : nat) :
  updateLaminarData hf0 psimin Lc = Ok hf ->
  heatflux hf w DivCode powerFrac = Ok (hf', w') ->
  nth_error psimin i = Some 10 ->
  nth_error (hf_q hf') i = Some (hf_qBG hf).
Proof.
  intros Hupd Hhf Hi.
  apply updateLaminarData_inv in Hupd.
  destruct Hupd as [_ [_ [Hq [Hgood _]]]].
  unfold heatflux in Hhf.
  apply bind_Ok in Hhf. destruct Hhf as [[[[hf1 q] q0] w1] [Hmodel Hhf]].
  apply bind_Ok in Hhf. destruct Hhf as [hf2 [Hasm Hhf]].
  inversion Hhf; subst hf' w'; clear Hhf.
  apply heatflux_model_keeps in Hmodel. destruct Hmodel as [Hg1 [Hq1 Hbg]].
  apply assemble_inv in Hasm. destruct Hasm as [good [Hg [_ [_ Hq2]]]].
  rewrite Hg1, Hgood in Hg. inversion Hg; subst good; clear Hg.
  rewrite Hq2, Hq1, Hq, Hbg, nth_error_map.
  rewrite assign_aux_unselected.
  - unfold Np.zeros. rewrite nth_error_repeat.
    + simpl. f_equal. ring.
    + apply nth_error_Some. congruence.
  - rewrite nth_error_map, Hi. simpl. unfold Np.eqb.
    destruct (Req_dec_T 10 10); [reflexivity | contradiction].
Qed.

End Assembly.

(** ** Power balance *)

Section PowerBalance.
Context `{SciPy}.

Lemma power_balance_abs (P : R) (q_hat psi : list R) :
  power_balance P q_hat psi = P / Rabs (2 * PI * simps q_hat psi).
Proof.
  unfold power_balance. f_equal.
  destruct (Rlt_dec (2 * PI * simps q_hat psi) 0) as [Hneg | Hpos].
  - now rewrite Rabs_left.
  - rewrite Rabs_right; [reflexivity | lra].
Qed.

(** The sign of [P0] is the sign of the integral. *)
Lemma power_balance_cases (P : R) (q_hat psi : list R) :
  let I := simps q_hat psi in
  (I < 0 -> power_balance P q_hat psi = P / - (2 * PI * I)) /\
  (0 <= I -> power_balance P q_hat psi = P / (2 * PI * I)).
Proof.
  intros I. pose proof PI_RGT_0 as Hpi. unfold power_balance. fold I.
  split; intros HI; destruct (Rlt_dec (2 * PI * I) 0) as [Hneg | Hpos];
    try reflexivity; nra.
Qed.

Lemma Rdiv_nonneg (a b : R) : 0 <= a -> 0 <= b -> 0 <= a / b.
Proof.
  intros Ha Hb. destruct (Req_dec b 0) as [-> | Hne].
  - unfold Rdiv. rewrite Rinv_0. lra.
  - apply Rmult_le_pos; [exact Ha |]. left. apply Rinv_0_lt_compat. lra.
Qed.

Lemma power_balance_nonneg (P : R) (q_hat psi : list R) :
  0 <= P -> 0 <= power_balance P q_hat psi.
Proof.
  intros HP. rewrite power_balance_abs. apply Rdiv_nonneg; [exact HP | apply Rabs_pos].
Qed.

End PowerBalance.

(** ** The conductive model *)

(** The grids have thousands of points: they are never unfolded below, only
    used through their lemmas. *)
Lemma length_linspace (a b : R) (n : nat) : length (Np.linspace a b n) = n.
Proof.
  unfold Np.linspace. now rewrite length_map, length_seq.
Qed.

Lemma nth_map_seq {A : Type} (f : nat -> A) (n i : nat) (d : A) :
  (i < n)%nat -> nth i (map f (seq 0 n)) d = f i.
Proof.
  intros Hi.
  rewrite (nth_indep _ d (f 0%nat)) by now rewrite length_map, length_seq.
  now rewrite map_nth, seq_nth.
Qed.

Lemma nth_linspace (a b : R) (n i : nat) :
  (i < n)%nat -> nth i (Np.linspace a b n) 0 = a + INR i * ((b - a) / INR (n - 1)).
Proof.
  intros Hi. unfold Np.linspace. now rewrite nth_map_seq.
Qed.

Lemma linspace_map (a b : R) (n : nat) :
  Np.linspace a b n = map (fun i => a + INR i * ((b - a) / INR (n - 1))) (seq 0 n).
Proof. reflexivity. Qed.

#[global] Opaque Np.linspace.

Lemma power_nonneg (x y : R) : 0 <= Np.power x y.
Proof.
  unfold Np.power. destruct (Rlt_dec 0 x); [| lra].
  unfold Rpower. left. apply exp_pos.
Qed.

Lemma power_0 (y : R) : Np.power 0 y = 0.
Proof.
  unfold Np.power. destruct (Rlt_dec 0 0); [lra | reflexivity].
Qed.

Lemma power_1 (y : R) : Np.power 1 y = 1.
Proof.
  unfold Np.power. destruct (Rlt_dec 0 1); [| lra].
  unfold Rpower. now rewrite ln_1, Rmult_0_r, exp_0.
Qed.

Lemma power_pos (x y : R) : 0 < x -> 0 < Np.power x y.
Proof.
  intros Hx. unfold Np.power. destruct (Rlt_dec 0 x); [| lra].
  unfold Rpower. apply exp_pos.
Qed.

Section Conductive.
Context `{SciPy}.

(** With [T0 = 0] the conductive flux has the sign of [kappa/L]. *)
Lemma conduct_q_nonneg (kappa L T : R) :
  0 <= kappa -> 0 < L -> 0 <= conduct_q kappa L 0 T.
Proof.
  intros Hk HL. unfold conduct_q. rewrite power_0, Rminus_0_r.
  pose proof (power_nonneg T 3.5) as HT.
  pose proof (power_nonneg 1e+3 3.5) as HK.
  assert (Hr : 0 <= 2.0 / 7.0 * kappa / L).
  { apply Rdiv_nonneg; lra. }
  apply Rdiv_nonneg; [| lra].
  apply Rmult_le_pos; [apply Rmult_le_pos |]; assumption.
Qed.

Lemma conduct_L_inv (hf : heatflux3D) (psimin Lc : list R) (L : R) :
  conduct_L hf psimin Lc = Ok L ->
  length Lc = length psimin /\
  L = Np.mean (Np.select_aux Lc (map (fun p => Np.ltb (hf_lcfs hf) p) psimin)) * 1e3.
Proof.
  unfold conduct_L. intros E.
  apply bind_Ok in E. destruct E as [open [Hsel E]].
  apply select_inv in Hsel. destruct Hsel as [Hlen ->].
  rewrite length_map in Hlen. inversion E. auto.
Qed.

Lemma conduct_L_Ok (hf : heatflux3D) (psimin Lc : list R) :
  length psimin = length Lc ->
  conduct_L hf psimin Lc
  = Ok (Np.mean (Np.select_aux Lc (map (fun p => Np.ltb (hf_lcfs hf) p) psimin)) * 1e3).
Proof.
  intros Hlen. unfold conduct_L.
  rewrite select_Ok by (rewrite length_map; now symmetry). reflexivity.
Qed.

Lemma Forall_map_intro {A B : Type} (P : B -> Prop) (f : A -> B) (l : list A) :
  (forall a, P (f a)) -> Forall P (map f l).
Proof.
  intros Hf. induction l; simpl; constructor; auto.
Qed.

Lemma getq_conduct_inv (hf : heatflux3D) (psi q : list R) (kappa T0 L ratio : R)
  (limit : bool) (pfr : option (list bool)) :
  getq_conduct hf psi kappa T0 L limit pfr ratio = Ok q ->
  exists T, q = map (conduct_q kappa L T0) T /\ length T = length psi /\
            Forall (from_profile hf) T.
Proof.
  unfold getq_conduct. intros E.
  apply bind_Ok in E. destruct E as [T1 [HT1 E]].
  apply bind_Ok in E. destruct E as [T2 [HT2 E]].
  inversion E; subst q; clear E.
  assert (H1 : length T1 = length psi /\ Forall (from_profile hf) T1).
  { destruct limit.
    - apply assign_scalar_inv in HT1. destruct HT1 as [_ ->].
      rewrite length_assign_scalar_aux, length_map. split; [reflexivity |].
      apply assign_scalar_aux_Forall.
      + apply Forall_map_intro. intros a. now exists a.
      + now exists (hf_lcfs hf).
    - inversion HT1; subst. rewrite length_map. split; [reflexivity |].
      apply Forall_map_intro. intros a. now exists a. }
  destruct H1 as [Hlen1 HF1].
  exists T2. split; [reflexivity |].
  destruct pfr as [pfr |].
  - apply bind_Ok in HT2. destruct HT2 as [sel [_ HT2]].
    apply assign_inv in HT2. destruct HT2 as [_ [_ ->]].
    rewrite length_assign_aux. split; [exact Hlen1 |].
    apply assign_aux_Forall; [exact HF1 |].
    apply Forall_map_intro. intros a. now eexists.
  - inversion HT2; subst. auto.
Qed.


Lemma getq_conduct_Ok (hf : heatflux3D) (psi : list R) (kappa T0 L ratio : R)
  (pfr : list bool) :
  length pfr = length psi ->
  exists q, getq_conduct hf psi kappa T0 L true (Some pfr) ratio = Ok q.
Proof.
  intros Hlen. unfold getq_conduct.
  rewrite assign_scalar_Ok by now rewrite !length_map. simpl.
  rewrite select_Ok by now symmetry. simpl.
  rewrite assign_Ok.
  - simpl. eexists. reflexivity.
  - rewrite length_assign_scalar_aux, length_map. now symmetry.
  - rewrite length_map. apply length_select_aux. now symmetry.
Qed.

Lemma conduct_q_hat_Ok (hf : heatflux3D) (kappa L ratio T0 : R) :
  exists q_hat, conduct_q_hat hf kappa L ratio T0 = Ok q_hat.
Proof.
  unfold conduct_q_hat, conduct_T.
  rewrite select_Ok by now rewrite length_map. simpl.
  rewrite assign_Ok.
  - simpl. eexists. reflexivity.
  - now rewrite !length_map.
  - rewrite length_map. apply length_select_aux. now rewrite length_map.
Qed.

Lemma conduct_q_hat_inv (hf : heatflux3D) (kappa L ratio T0 : R) (q_hat : list R) :
  conduct_q_hat hf kappa L ratio T0 = Ok q_hat ->
  exists T, q_hat = map (conduct_q kappa L T0) T /\ length T = length conduct_psiN /\
            Forall (from_profile hf) T.
Proof.
  unfold conduct_q_hat, conduct_T. intros E.
  apply bind_Ok in E. destruct E as [T [HT E]].
  inversion E; subst q_hat; clear E.
  apply bind_Ok in HT. destruct HT as [sel [_ HT]].
  apply assign_inv in HT. destruct HT as [_ [_ ->]].
  eexists. split; [reflexivity |]. rewrite length_assign_aux, length_map.
  split; [reflexivity |].
  apply assign_aux_Forall; apply Forall_map_intro; intros a; now eexists.
Qed.

End Conductive.

Section Model.
Context `{SciPy} `{Host}.

(** What a completed conductive branch of [heatflux] has computed. *)
Lemma heatflux_model_conduct_inv (hf hf1 : heatflux3D) (w w1 : world) (DivCode m : string)
  (powerFrac q0 : R) (q : list R) :
  hf_model hf = Some m -> str_in m layer_names = false ->
  heatflux_model hf w DivCode powerFrac = Ok (hf1, q, q0, w1) ->
  hf1 = hf /\ w1 = w /\
  exists psimin Lc L q_hat,
    hf_psimin hf = Some psimin /\ hf_Lc hf = Some Lc /\
    conduct_L hf psimin Lc = Ok L /\
    getq_conduct hf psimin (hf_kappa hf) 0 L true (hf_pfr hf) (hf_lqCN hf / hf_S hf) = Ok q /\
    conduct_q_hat hf (hf_kappa hf) L (hf_lqCN hf / hf_S hf) 0 = Ok q_hat /\
    q0 = power_balance (hf_Psol hf * powerFrac) q_hat (to_flux (hf_ep hf) conduct_psiN).
Proof.
  intros Hm Hlayer. unfold heatflux_model. rewrite Hm. cbn [bind attr]. rewrite Hlayer.
  destruct (str_in m conduct_names); [| discriminate].
  intros E.
  apply bind_Ok in E. destruct E as [Lc [HLc E]]. apply attr_Ok in HLc.
  apply bind_Ok in E. destruct E as [psimin [Hps E]]. apply attr_Ok in Hps.
  apply bind_Ok in E. destruct E as [L [HL E]].
  apply bind_Ok in E. destruct E as [ratio [Hr E]].
  apply float_div_inv in Hr. destruct Hr as [_ ->].
  apply bind_Ok in E. destruct E as [q' [Hq E]].
  apply bind_Ok in E. destruct E as [q0' [Hq0 E]].
  inversion E; subst; clear E.
  unfold scale_conduct in Hq0.
  apply bind_Ok in Hq0. destruct Hq0 as [q_hat [Hqh Hq0]].
  inversion Hq0; subst; clear Hq0.
  split; [reflexivity |]. split; [reflexivity |].
  exists psimin, Lc, L, q_hat. auto 10.
Qed.

(** A completed conductive branch has divided by a spread [S] other than
    zero. *)
Lemma heatflux_model_conduct_S (hf hf1 : heatflux3D) (w w1 : world) (DivCode m : string)
  (powerFrac q0 : R) (q : list R) :
  hf_model hf = Some m -> str_in m layer_names = false ->
  heatflux_model hf w DivCode powerFrac = Ok (hf1, q, q0, w1) ->
  hf_S hf <> 0.
Proof.
  intros Hm Hlayer. unfold heatflux_model. rewrite Hm. cbn [bind attr]. rewrite Hlayer.
  destruct (str_in m conduct_names); [| discriminate].
  intros E.
  apply bind_Ok in E. destruct E as [Lc [_ E]].
  apply bind_Ok in E. destruct E as [psimin [_ E]].
  apply bind_Ok in E. destruct E as [L [_ E]].
  apply bind_Ok in E. destruct E as [ratio [Hr _]].
  now apply float_div_inv in Hr.
Qed.

(** The conductive branch completes on every traced object whose arrays have
    one length and whose spread [S] is not zero. *)
Lemma heatflux_conduct_Ok (hf0 hf : heatflux3D) (psimin Lc : list R) (w : world)
  (DivCode m : string) (powerFrac : R) :
  updateLaminarData hf0 psimin Lc = Ok hf -> length psimin = length Lc ->
  hf_model hf0 = Some m -> str_in m layer_names = false -> str_in m conduct_names = true ->
  hf_S hf0 <> 0 ->
  exists hf1 q q0 hf',
    heatflux_model hf w DivCode powerFrac = Ok (hf1, q, q0, w) /\
    heatflux hf w DivCode powerFrac = Ok (hf', w).
Proof.
  intros Hupd Hlen Hm Hlayer Hcond HS.
  apply updateLaminarData_inv in Hupd.
  destruct Hupd as [Hps [HLc [Hq [Hgood [[pfr [Hpfr Hplen]] [_ [Hmodel Hrest]]]]]]].
  assert (Hkeep : hf_S hf <> 0).
  { destruct Hrest as [_ [_ [_ [_ [_ [_ [_ [_ HSeq]]]]]]]]. now rewrite HSeq. }
  destruct (getq_conduct_Ok hf psimin (hf_kappa hf) 0
              (Np.mean (Np.select_aux Lc (map (fun p => Np.ltb (hf_lcfs hf) p) psimin)) * 1e3)
              (hf_lqCN hf / hf_S hf) pfr Hplen) as [q Hgetq].
  destruct (conduct_q_hat_Ok hf (hf_kappa hf)
              (Np.mean (Np.select_aux Lc (map (fun p => Np.ltb (hf_lcfs hf) p) psimin)) * 1e3)
              (hf_lqCN hf / hf_S hf) 0) as [q_hat Hqhat].
  assert (Hmod : heatflux_model hf w DivCode powerFrac
                 = Ok (hf, q, power_balance (hf_Psol hf * powerFrac) q_hat
                                (to_flux (hf_ep hf) conduct_psiN), w)).
  { unfold heatflux_model. rewrite Hmodel, Hm. cbn [bind attr]. rewrite Hlayer, Hcond.
    rewrite HLc, Hps. cbn [bind attr]. rewrite conduct_L_Ok by exact Hlen. cbn [bind attr].
    rewrite float_div_Ok by exact Hkeep. cbn [bind attr].
    rewrite Hpfr, Hgetq. cbn [bind attr]. unfold scale_conduct. rewrite Hqhat. reflexivity. }
  apply getq_conduct_inv in Hgetq. destruct Hgetq as [T [-> [HTlen _]]].
  eexists hf, _, _, _. split; [exact Hmod |].
  unfold heatflux. rewrite Hmod. cbn [bind attr]. unfold assemble. rewrite Hgood. cbn [bind attr].
  rewrite select_Ok by now rewrite !length_map. cbn [bind attr].
  rewrite assign_Ok.
  - cbn [bind attr]. reflexivity.
  - rewrite Hq. unfold Np.zeros. now rewrite repeat_length, length_map.
  - apply length_select_aux. now rewrite !length_map.
Qed.

End Model.

(** ** The layer model *)

Section Layer.
Context `{SciPy} `{Host}.

Lemma fold_left_Rmax_ge (l : list R) : forall x, x <= fold_left Rmax l x.
Proof.
  induction l as [| y l IH]; intros x; simpl; [lra |].
  eapply Rle_trans; [apply (Rmax_l x y) | apply IH].
Qed.

Lemma amax_nonneg (q : list R) (m : R) :
  Forall (Rle 0) q -> Np.amax q = Ok m -> 0 <= m.
Proof.
  destruct q as [| x q]; simpl; intros Hq E; [discriminate E |].
  inversion E; subst. inversion Hq; subst.
  eapply Rle_trans; [eassumption | apply fold_left_Rmax_ge].
Qed.

Lemma item_In (a : list R) (i : nat) (x : R) : Np.item a i = Ok x -> In x a.
Proof.
  unfold Np.item. destruct (nth_error a i) eqn:E; intros Hx; [| discriminate Hx].
  inversion Hx; subst. eapply nth_error_In; eassumption.
Qed.

(** What a completed [scale_layer] has computed. *)
Lemma scale_layer_inv (hf : heatflux3D) (w w1 : world) (P q0 : R) :
  scale_layer hf w (hf_lqCN hf) (hf_S hf) P (Some 1.0) = Ok (q0, w1) ->
  exists q_hat psiN,
    layer_shape hf w1 q_hat psiN /\
    q0 = power_balance P q_hat (to_flux (hf_ep hf) psiN) /\
    length q_hat = length psiN.
Proof.
  unfold scale_layer. intros E.
  apply bind_Ok in E. destruct E as [Rlcfs [HR E]].
  apply bind_Ok in E. destruct E as [[Rmin Rmax] [Hwin E]].
  apply bind_Ok in E. destruct E as [w2 [_ E]].
  apply bind_Ok in E. destruct E as [psimin [Hps E]].
  apply bind_Ok in E. destruct E as [q_hat [Hqh E]].
  apply bind_Ok in E. destruct E as [[] [Hchk E]].
  inversion E; subst q0 w1; clear E.
  destruct (fs_read (w_fs w2) (layer_file hf)) as [f |] eqn:Hf; [| discriminate Hps].
  apply bind_Ok in Hps. destruct Hps as [lamdata [Hgen Hcol]].
  exists q_hat, (midplane_psiN hf (layer_grid Rmin Rmax)).
  split; [| split; [reflexivity |]].
  - exists Rlcfs, Rmin, Rmax, f, lamdata, psimin. auto 10.
  - unfold simps_checked, to_flux in Hchk. rewrite length_map in Hchk.
    destruct (Nat.eqb _ _) eqn:Hlen in Hchk; [| discriminate Hchk].
    apply Nat.eqb_eq in Hlen. now symmetry.
Qed.

Lemma heatflux_model_layer_inv (hf hf1 : heatflux3D) (w w1 : world) (DivCode m : string)
  (powerFrac q0 : R) (q : list R) :
  hf_model hf = Some m -> str_in m layer_names = true ->
  heatflux_model hf w DivCode powerFrac = Ok (hf1, q, q0, w1) ->
  (exists b, hf1 = set_HFS hf b) /\
  getq_layer hf1 = Ok q /\
  scale_layer hf1 w (hf_lqCN hf1) (hf_S hf1) (hf_Psol hf * powerFrac) (Some 1.0) = Ok (q0, w1).
Proof.
  intros Hm Hlayer. unfold heatflux_model. rewrite Hm. cbn [bind attr]. rewrite Hlayer.
  intros E.
  apply bind_Ok in E. destruct E as [b [_ E]].
  apply bind_Ok in E. destruct E as [q' [Hq E]].
  apply bind_Ok in E. destruct E as [[q0' w'] [Hs E]].
  inversion E; subst; clear E.
  split; [now exists b |]. split; [exact Hq | exact Hs].
Qed.

End Layer.

(** ** Simpson's rule on a constant integrand *)

Lemma simps_end_nth (n : nat) :
  forall x : list R, length x = n -> (0 < n)%nat ->
    simps_end x = nth (2 * ((n - 1) / 2)) x 0.
Proof.
  induction n as [n IH] using lt_wf_ind. intros x Hlen Hn.
  destruct x as [| x0 [| x1 [| x2 t]]]; simpl in Hlen; subst n; try lia.
  - reflexivity.
  - reflexivity.
  - change (simps_end (x0 :: x1 :: x2 :: t)) with (simps_end (x2 :: t)).
    rewrite (IH (length (x2 :: t))); simpl length; try lia.
    replace (2 * ((S (S (S (length t))) - 1) / 2))%nat
      with (S (S (2 * ((S (length t) - 1) / 2))))%nat; [reflexivity |].
    replace (S (S (S (length t))) - 1)%nat with (S (length t) - 1 + 1 * 2)%nat by lia.
    rewrite Nat.div_add by lia. lia.
Qed.

(** Abscissae of which no two neighbours coincide. *)
Lemma Sorted_weaken {A : Type} (P Q : A -> A -> Prop) (l : list A) :
  (forall a b, P a b -> Q a b) -> Sorted P l -> Sorted Q l.
Proof.
  intros HPQ Hs. induction Hs as [| a l Hs IH Hr]; constructor; [exact IH |].
  destruct Hr; constructor. now apply HPQ.
Qed.

Lemma basic_simps_const (c : R) (n : nat) :
  forall x y : list R, length x = n ->
    Sorted (fun a b : R => a <> b) x -> length y = length x -> Forall (eq c) y ->
    basic_simps y x = c * (simps_end x - hd 0 x).
Proof.
  induction n as [n IH] using lt_wf_ind. intros x y Hn Hs Hlen Hy.
  destruct x as [| x0 [| x1 [| x2 t]]];
    destruct y as [| y0 [| y1 [| y2 ty]]]; simpl in Hlen; try lia;
    try (simpl; ring).
  inversion Hy as [| ? ? E0 Hy1]; subst.
  inversion Hy1 as [| ? ? E1 Hy2]; subst.
  pose proof Hy2 as Hy2'. inversion Hy2' as [| ? ? E2 _]; subst.
  inversion Hs as [| ? ? Hs1 Hr0]; subst. apply HdRel_inv in Hr0.
  inversion Hs1 as [| ? ? Hs2 Hr1]; subst. apply HdRel_inv in Hr1.
  change (basic_simps (y2 :: y2 :: y2 :: ty) (x0 :: x1 :: x2 :: t))
    with ((x1 - x0 + (x2 - x1)) / 6.0
          * (y2 * (2 - 1.0 / ((x1 - x0) / (x2 - x1)))
             + y2 * ((x1 - x0 + (x2 - x1)) * (x1 - x0 + (x2 - x1))
                     / ((x1 - x0) * (x2 - x1)))
             + y2 * (2 - (x1 - x0) / (x2 - x1)))
          + basic_simps (y2 :: ty) (x2 :: t)).
  change (simps_end (x0 :: x1 :: x2 :: t)) with (simps_end (x2 :: t)).
  rewrite (IH (length (x2 :: t))) by (simpl in *; auto; lia).
  simpl hd. dfield. split; intros E; [apply Hr1 | apply Hr0]; lra.
Qed.

Lemma Forall_eq_nth (c : R) (y : list R) (i : nat) :
  Forall (eq c) y -> (i < length y)%nat -> nth i y 0 = c.
Proof.
  intros Hy Hi. rewrite Forall_forall in Hy. symmetry. apply Hy. now apply nth_In.
Qed.

(** On samples that are all [c], over abscissae that move at every step,
    Simpson's rule is exact: [c] times the signed length of the interval. *)
Lemma simpson_const (c : R) (x y : list R) :
  Sorted (fun a b : R => a <> b) x -> length y = length x -> Forall (eq c) y ->
  (2 <= length x)%nat ->
  simpson y x = c * (nth (length x - 1) x 0 - nth 0 x 0).
Proof.
  intros Hs Hlen Hy Hn. unfold simpson. rewrite Hlen.
  assert (Hhd : forall l : list R, hd 0 l = nth 0 l 0) by (now intros [| ? ?]).
  destruct (Nat.even (length x)) eqn:Hev.
  - apply Nat.even_spec in Hev. destruct Hev as [k Hk].
    rewrite (basic_simps_const c (length x) x y eq_refl Hs Hlen Hy).
    assert (Hs' : Sorted (fun a b : R => a <> b) (tl x)).
    { destruct x; simpl; [constructor | now inversion Hs]. }
    assert (Hlen' : length (tl y) = length (tl x)).
    { destruct x, y; simpl in *; lia. }
    assert (Hy' : Forall (eq c) (tl y)).
    { destruct y; simpl; [constructor | now inversion Hy]. }
    rewrite (basic_simps_const c (length (tl x)) (tl x) (tl y) eq_refl Hs' Hlen' Hy').
    rewrite (simps_end_nth (length x) x eq_refl) by lia.
    assert (Htl : length (tl x) = (length x - 1)%nat) by (destruct x; simpl; lia).
    rewrite (simps_end_nth (length x - 1) (tl x) Htl) by lia.
    replace (2 * ((length x - 1) / 2))%nat with (length x - 2)%nat
      by (rewrite Hk; replace (2 * k - 1)%nat with (1 + (k - 1) * 2)%nat by lia;
          rewrite Nat.div_add by lia; simpl; lia).
    replace (2 * ((length x - 1 - 1) / 2))%nat with (length x - 2)%nat
      by (rewrite Hk; replace (2 * k - 1 - 1)%nat with (0 + (k - 1) * 2)%nat by lia;
          rewrite Nat.div_add by lia; simpl; lia).
    rewrite !Hhd.
    replace (nth (length x - 2) (tl x) 0) with (nth (length x - 1) x 0)
      by (destruct x as [| x0 t]; simpl in *; [lia |];
          replace (length t - 0)%nat with (S (length t - 1)) by lia; reflexivity).
    replace (nth 0 (tl x) 0) with (nth 1 x 0) by (now destruct x).
    rewrite !(Forall_eq_nth c y) by (assumption || lia).
    dfield.
  - assert (Hodd : Nat.odd (length x) = true).
    { rewrite <- Nat.negb_even, Hev. reflexivity. }
    apply Nat.odd_spec in Hodd. destruct Hodd as [k Hk].
    rewrite (basic_simps_const c (length x) x y eq_refl Hs Hlen Hy).
    rewrite (simps_end_nth (length x) x eq_refl) by lia.
    replace (2 * ((length x - 1) / 2))%nat with (length x - 1)%nat
      by (rewrite Hk; replace (2 * k + 1 - 1)%nat with (0 + k * 2)%nat by lia;
          rewrite Nat.div_add by lia; simpl; lia).
    now rewrite Hhd.
Qed.

(** A list built from a function of the position whose neighbours are
    related is sorted for that relation. *)
Lemma Sorted_map_seq_rel (P : R -> R -> Prop) (f : nat -> R) (n : nat) :
  (forall i, P (f i) (f (S i))) -> forall k, Sorted P (map f (seq k n)).
Proof.
  intros Hf. induction n as [| n IH]; intros k; simpl; constructor.
  - apply IH.
  - destruct n; simpl; constructor. apply Hf.
Qed.

Lemma Sorted_map_seq (f : nat -> R) (n : nat) :
  (forall i, f i < f (S i)) -> forall k, Sorted Rlt (map f (seq k n)).
Proof.
  intros Hf. induction n as [| n IH]; intros k; simpl; constructor.
  - apply IH.
  - destruct n; simpl; constructor. apply Hf.
Qed.
(** ** The scale factor *)

(** What [initializeHF3D] puts into the object. *)
Lemma initializeHF3D_inv `{SciPy} (ep : equilParams) (ctl : HFctl) (dir : string) (fs : FS)
  (hf : heatflux3D) :
  initializeHF3D ep ctl dir fs = Ok hf ->
  hf_Psol hf = (1 - c_coreRadFrac ctl) * c_P ctl /\ hf_ep hf = ep /\
  hf_model hf = c_model ctl /\ hf_lqCN hf = c_lqCN ctl /\ hf_S hf = c_S ctl /\
  hf_kappa hf = c_kappa ctl /\ hf_lcfs hf = c_lcfs ctl /\ hf_qBG hf = c_qBG ctl /\
  hf_inputDir hf = dir /\
  resolve_fT (c_teProfileData ctl) dir fs = Ok (hf_fT hf).
Proof.
  unfold initializeHF3D. intros E.
  apply bind_Ok in E. destruct E as [fT [HfT E]].
  apply bind_Ok in E. destruct E as [fn [_ E]].
  inversion E; subst. simpl. auto 12.
Qed.

Lemma initializeHF3D_Psol `{SciPy} (ep : equilParams) (ctl : HFctl) (dir : string) (fs : FS)
  (hf : heatflux3D) :
  initializeHF3D ep ctl dir fs = Ok hf ->
  hf_Psol hf = (1 - hf_coreRadFrac hf) * hf_P hf.
Proof.
  unfold initializeHF3D. intros E.
  apply bind_Ok in E. destruct E as [fT [_ E]].
  apply bind_Ok in E. destruct E as [fn [_ E]].
  inversion E; subst. reflexivity.
Qed.

(** The defaults of [setHFctl] need no file and no spline. *)
Lemma initializeHF3D_default `{SciPy} (ep : equilParams) (dir : string) (fs : FS) :
  initializeHF3D ep setHFctl dir fs = Ok (hf_default ep dir).
Proof. reflexivity. Qed.

Section Heatflux.
Context `{SciPy} `{Host}.

(** C2. For both models the scale factor [q0] that [heatflux] obtains, on
    an object built by [initializeHF3D] from the equilibrium [ep] and the
    control values [ctl], is the target power [P*(1 - coreRadFrac)*powerFrac]
    divided by the absolute value of [2*pi] times Simpson's integral of the
    unscaled shape of the model over the flux
    [psiN*(psiSep - psiAxis) + psiAxis]: the integral is negated exactly
    when it is negative.  The samples are as many as the abscissae, and the
    quotient is taken for an integral other than zero. *)
Theorem scale_factor_is_power_balance (ep : equilParams) (ctl : HFctl) (dir : string)
  (fs : FS) (hf0 hf hf1 : heatflux3D) (psimin Lc : list R) (w w1 : world)
  (DivCode : string) (powerFrac q0 : R) (q : list R) :
  initializeHF3D ep ctl dir fs = Ok hf0 ->
  updateLaminarData hf0 psimin Lc = Ok hf ->
  heatflux_model hf w DivCode powerFrac = Ok (hf1, q, q0, w1) ->
  exists q_hat psiN,
    (if is_layer_model hf then layer_shape hf1 w1 q_hat psiN
     else conduct_shape hf1 q_hat psiN) /\
    length q_hat = length psiN /\
    let targetPower := c_P ctl * (1 - c_coreRadFrac ctl) * powerFrac in
    let flux := map (fun psi => psi * (g_psiSep ep - g_psiAxis ep) + g_psiAxis ep) psiN in
    let I := simps q_hat flux in
    I <> 0 ->
    q0 = targetPower / Rabs (2 * PI * I) /\
    (I < 0 -> q0 = targetPower / - (2 * PI * I)) /\
    (0 < I -> q0 = targetPower / (2 * PI * I)).
Proof.
  intros Hinit Hupd Hmodel.
  apply initializeHF3D_inv in Hinit. destruct Hinit as [HPsol [Hep _]].
  apply updateLaminarData_inv in Hupd.
  destruct Hupd as [_ [_ [_ [_ [_ [_ [_ [HPs [_ [_ [_ [_ [_ [Hep' _]]]]]]]]]]]]]].
  rewrite Hep in Hep'. rewrite HPsol in HPs.
  assert (Hm : exists m, hf_model hf = Some m).
  { unfold heatflux_model in Hmodel.
    apply bind_Ok in Hmodel. destruct Hmodel as [m [Hm _]].
    apply attr_Ok in Hm. now exists m. }
  destruct Hm as [m Hm].
  assert (Hpb : forall q_hat psiN,
             q0 = power_balance (hf_Psol hf * powerFrac) q_hat (to_flux (hf_ep hf) psiN) ->
             let targetPower := c_P ctl * (1 - c_coreRadFrac ctl) * powerFrac in
             let flux := map (fun psi => psi * (g_psiSep ep - g_psiAxis ep) + g_psiAxis ep)
                           psiN in
             let I := simps q_hat flux in
             I <> 0 ->
             q0 = targetPower / Rabs (2 * PI * I) /\
             (I < 0 -> q0 = targetPower / - (2 * PI * I)) /\
             (0 < I -> q0 = targetPower / (2 * PI * I))).
  { intros q_hat psiN -> targetPower flux I _.
    replace (hf_Psol hf * powerFrac) with targetPower
      by (unfold targetPower; rewrite HPs; ring).
    unfold to_flux. rewrite Hep'. fold flux.
    split; [apply power_balance_abs |].
    destruct (power_balance_cases targetPower q_hat flux) as [Hneg Hpos].
    split; [exact Hneg |]. intros HI. apply Hpos. now left. }
  unfold is_layer_model. rewrite Hm.
  destruct (str_in m layer_names) eqn:Hlayer.
  - destruct (heatflux_model_layer_inv _ _ _ _ _ _ _ _ _ Hm Hlayer Hmodel)
      as [[b Hb] [_ Hscale]].
    apply scale_layer_inv in Hscale.
    destruct Hscale as [q_hat [psiN [Hshape [Hq0 Hlen]]]].
    exists q_hat, psiN. split; [exact Hshape |]. split; [exact Hlen |].
    apply Hpb. rewrite Hq0. now rewrite Hb.
  - destruct (heatflux_model_conduct_inv _ _ _ _ _ _ _ _ _ Hm Hlayer Hmodel)
      as [-> [-> [psimin' [Lc' [L [q_hat [Hps [HLc [HL [_ [Hqh Hq0]]]]]]]]]]].
    exists q_hat, conduct_psiN. split.
    + exists psimin', Lc', L. auto.
    + split; [| now apply Hpb].
      apply conduct_q_hat_inv in Hqh. destruct Hqh as [T [-> [HT _]]].
      now rewrite length_map.
Qed.

End Heatflux.

(** ** Worked runs of the conductive model *)

Lemma scenario_traced :
  exists hf,
    updateLaminarData hf_flat scenario_psimin scenario_Lc = Ok hf /\
    hf_model hf = Some "conduct"%string /\ hf_qBG hf = 0.1 /\ hf_kappa hf = 2000 /\
    hf_Psol hf = (1 - 0.0) * 10 /\ hf_P hf = 10 /\ hf_coreRadFrac hf = 0.0 /\
    hf_lcfs hf = 0.97 /\ hf_ep hf = ep_slab /\ (forall x, hf_fT hf x = 1).
Proof.
  eexists. split.
  - apply updateLaminarData_eq. reflexivity.
  - simpl. repeat split; reflexivity.
Qed.

Lemma scenario_runs :
  forall hf, updateLaminarData hf_flat scenario_psimin scenario_Lc = Ok hf ->
  exists hf1 q q0 hf',
    @heatflux_model scipy_ref host_static hf w_idle "O" 1 = Ok (hf1, q, q0, w_idle) /\
    @heatflux scipy_ref host_static hf w_idle "O" 1 = Ok (hf', w_idle).
Proof.
  intros hf Hupd.
  apply (@heatflux_conduct_Ok scipy_ref host_static hf_flat hf
           scenario_psimin scenario_Lc w_idle "O" "conduct" 1 Hupd);
    try reflexivity.
  simpl. lra.
Qed.

Lemma nonconverged_flux_is_qBG_witness :
  exists hf hf',
    updateLaminarData hf_flat scenario_psimin scenario_Lc = Ok hf /\
    @heatflux scipy_ref host_static hf w_idle "O" 1 = Ok (hf', w_idle) /\
    nth_error scenario_psimin 2 = Some 10 /\
    nth_error (hf_q hf') 2 = Some (hf_qBG hf).
Proof.
  destruct scenario_traced as [hf [Hupd _]].
  destruct (scenario_runs hf Hupd) as [hf1 [q [q0 [hf' [_ Hhf]]]]].
  exists hf, hf'. split; [exact Hupd |]. split; [exact Hhf |].
  split; [reflexivity |].
  exact (@nonconverged_flux_is_qBG scipy_ref host_static hf_flat hf hf'
           scenario_psimin scenario_Lc w_idle w_idle "O" 1 2 Hupd Hhf eq_refl).
Defined.

Lemma scenario_L (hf : heatflux3D) (L : R) :
  hf_lcfs hf = 0.97 ->
  conduct_L hf scenario_psimin scenario_Lc = Ok L -> 0 < L.
Proof.
  intros Hlcfs HL. apply conduct_L_inv in HL. destruct HL as [_ ->].
  rewrite Hlcfs. unfold scenario_psimin, scenario_Lc. simpl map.
  unfold Np.ltb.
  destruct (Rlt_dec 0.97 0.9); [lra |].
  destruct (Rlt_dec 0.97 1.0); [| lra].
  destruct (Rlt_dec 0.97 10); [| lra].
  destruct (Rlt_dec 0.97 1.05); [| lra].
  unfold Np.mean. simpl. lra.
Qed.


(** ** Grids of flux *)

Lemma sorted_head_lt (l : list R) :
  forall a i, Sorted Rlt (a :: l) -> (i < length l)%nat -> a < nth i l 0.
Proof.
  induction l as [| b l IH]; intros a i Hs Hi; simpl in Hi; [lia |].
  inversion Hs as [| ? ? Hs' Hr]; subst. inversion Hr; subst.
  destruct i as [| i]; simpl; [assumption |].
  eapply Rlt_trans; [eassumption |]. apply IH; [assumption | lia].
Qed.

Lemma sorted_first_lt_last (x : list R) :
  Sorted Rlt x -> (2 <= length x)%nat -> nth 0 x 0 < nth (length x - 1) x 0.
Proof.
  destruct x as [| a l]; simpl; intros Hs Hn; [lia |].
  rewrite Nat.sub_0_r. destruct (length l) as [| n] eqn:Hl; [lia |].
  apply sorted_head_lt; [exact Hs | lia].
Qed.

(** The flux grid of an increasing normalized grid is increasing when the
    separatrix flux lies above the axis flux. *)
Lemma to_flux_linspace_sorted (ep : equilParams) (a b : R) (n : nat) :
  a < b -> (2 <= n)%nat -> g_psiAxis ep < g_psiSep ep ->
  Sorted Rlt (to_flux ep (Np.linspace a b n)).
Proof.
  intros Hab Hn Hep. unfold to_flux. rewrite linspace_map, map_map.
  apply Sorted_map_seq. intros i. rewrite S_INR.
  assert (Hden : 0 < INR (n - 1)) by (apply lt_0_INR; lia).
  assert (Hstep : 0 < (b - a) / INR (n - 1)) by (apply Rdiv_lt_0_compat; lra).
  nra.
Qed.

Lemma Forall_from_flat (hf : heatflux3D) (c : R) (T : list R) :
  (forall x, hf_fT hf x = c) -> Forall (from_profile hf) T -> Forall (eq c) T.
Proof.
  intros Hc HT. eapply Forall_impl; [| exact HT].
  intros t [x ->]. now rewrite Hc.
Qed.


(** ** Reading the result of the tracer *)

Lemma genfromtxt_A2 (f : file) (rows : list (list R)) (a : ndarray) (j : nat) (col : list R) :
  file_rows f = Ok rows -> genfromtxt f = Ok a -> column a j = Ok col ->
  a = A2 rows /\ col = map (fun r => nth j r 0) rows.
Proof.
  intros Hrows. unfold genfromtxt. rewrite Hrows. cbn [bind].
  destruct rows as [| r0 [| r1 rows]]; intros Ha Hcol.
  - inversion Ha; subst. discriminate Hcol.
  - inversion Ha; subst. discriminate Hcol.
  - destruct (forallb _ _); [| discriminate Ha].
    inversion Ha; subst. split; [reflexivity |].
    unfold column in Hcol. destruct (Nat.ltb j (length r0)); [| discriminate Hcol].
    now inversion Hcol.
Qed.

(** C7, as amended.  [readLaminar] makes no point-count check: whenever it
    reads an existing result file, the stored [Lc] and [psimin] are columns
    3 and 4 of the file, one entry per data row, neither truncated nor
    padded, whatever points were submitted; the points stay as they were. *)
Theorem readLaminar_stores_file_rows (p p' : plasma3D) (fs : FS) (tag path : option string)
  (out : list string) (f : file) (rows : list (list R)) :
  fs_read fs (lam_file p tag path) = Some f -> file_rows f = Ok rows ->
  readLaminar p fs tag path = Ok (p', out) ->
  p3_Lc p' = Some (map (fun r => nth 3 r 0) rows) /\
  p3_psimin p' = Some (map (fun r => nth 4 r 0) rows) /\
  (forall Lc psimin, p3_Lc p' = Some Lc -> p3_psimin p' = Some psimin ->
     length Lc = length rows /\ length psimin = length rows) /\
  p3_R p' = p3_R p /\ p3_phi p' = p3_phi p /\ p3_Z p' = p3_Z p.
Proof.
  intros Hf Hrows. unfold readLaminar. rewrite Hf. intros E.
  apply bind_Ok in E. destruct E as [lamdata [Hgen E]].
  apply bind_Ok in E. destruct E as [Lc [HLc E]].
  apply bind_Ok in E. destruct E as [psimin [Hps E]].
  inversion E; subst p' out; clear E.
  destruct (genfromtxt_A2 f rows lamdata 3 Lc Hrows Hgen HLc) as [_ ->].
  destruct (genfromtxt_A2 f rows lamdata 4 psimin Hrows Hgen Hps) as [_ ->].
  simpl. repeat split.
  - inversion H. now rewrite length_map.
  - inversion H0. now rewrite length_map.
Qed.

Lemma readLaminar_stores_file_rows_witness :
  exists p fs p',
    updatePoints p3_run [] (fst (fst two_points)) (snd (fst two_points)) (snd two_points)
      = Ok (p, fs) /\
    readLaminar p (fs_write fs "run/lam_.dat" (TableFile three_rows)) None None
      = Ok (p', []) /\
    p3_Lc p' = Some [0.05; 0.2; 0.01] /\ p3_psimin p' = Some [0.9; 1.0; 10].
Proof.
  set (p := set_points p3_run [1.0; 1.1] [0; 0] [0.5; 0.6]).
  set (fs := fs_write [] "run/points3DHF.dat"
               (PointsFile 2 [[1.0; 0; 0.5]; [1.1; 0; 0.6]])).
  set (fs' := fs_write fs "run/lam_.dat" (TableFile three_rows)).
  set (p' := set_psimin (set_Lc p [0.05; 0.2; 0.01]) [0.9; 1.0; 10]).
  assert (Hread : readLaminar p fs' None None = Ok (p', [])) by reflexivity.
  exists p, fs, p'.
  split; [reflexivity |]. split; [exact Hread |].
  destruct (readLaminar_stores_file_rows p p' fs' None None []
              (TableFile three_rows) three_rows eq_refl eq_refl Hread)
    as [HLc [Hps _]].
  split; [exact HLc | exact Hps].
Defined.

(** C7, counterexample.  Two points are submitted and the result file has
    three data rows: [readLaminar] succeeds and stores three entries. *)
Lemma readLaminar_count_mismatch_counterexample :
  exists p fs p',
    updatePoints p3_run [] [1.0; 1.1] [0; 0] [0.5; 0.6] = Ok (p, fs) /\
    p3_R p = Some [1.0; 1.1] /\
    readLaminar p (fs_write fs "run/lam_.dat" (TableFile three_rows)) None None
      = Ok (p', []) /\
    p3_R p' = Some [1.0; 1.1] /\
    p3_Lc p' = Some [0.05; 0.2; 0.01] /\ p3_psimin p' = Some [0.9; 1.0; 10].
Proof.
  eexists. eexists. eexists.
  split; [reflexivity |]. split; [reflexivity |].
  split; [reflexivity |]. repeat split.
Qed.

(** C8, as amended.  When the result file is missing, [readLaminar] raises
    nothing: it reports the missing file and returns the object unchanged.
    When the file holds a table of at least two rows of one width, at least
    five columns wide, the columns 3 and 4 become [Lc] and [psimin]. *)
Theorem readLaminar_spec (p : plasma3D) (fs : FS) (tag path : option string) :
  (fs_read fs (lam_file p tag path) = None ->
   readLaminar p fs tag path
   = Ok (p, ["MAFOT output file: " +s+ lam_file p tag path +s+ " not found!"])) /\
  (forall f r0 r1 rows,
     fs_read fs (lam_file p tag path) = Some f ->
     file_rows f = Ok (r0 :: r1 :: rows) ->
     Forall (fun r => length r = length r0) (r1 :: rows) -> (5 <= length r0)%nat ->
     readLaminar p fs tag path
     = Ok (set_psimin (set_Lc p (map (fun r => nth 3 r 0) (r0 :: r1 :: rows)))
                      (map (fun r => nth 4 r 0) (r0 :: r1 :: rows)), [])).
Proof.
  split.
  - intros Hf. unfold readLaminar. now rewrite Hf.
  - intros f r0 r1 rows Hf Hrows Hwidth Hfive.
    unfold readLaminar. rewrite Hf. unfold genfromtxt. rewrite Hrows. cbn [bind].
    assert (Hall : forallb (fun r' => Nat.eqb (length r') (length r0)) (r0 :: r1 :: rows)
                   = true).
    { apply forallb_forall. intros r Hr. apply Nat.eqb_eq.
      destruct Hr as [<- | Hr]; [reflexivity |].
      rewrite Forall_forall in Hwidth. now apply Hwidth. }
    rewrite Hall. cbn [bind]. unfold column.
    replace (Nat.ltb 3 (length r0)) with true by (symmetry; apply Nat.ltb_lt; lia).
    replace (Nat.ltb 4 (length r0)) with true by (symmetry; apply Nat.ltb_lt; lia).
    reflexivity.
Qed.

Lemma readLaminar_spec_witness :
  readLaminar p3_run [] (Some "PFC"%string) None
  = Ok (p3_run, ["MAFOT output file: run/lam_PFC.dat not found!"%string]) /\
  readLaminar p3_run [("run/lam_PFC.dat"%string, TableFile three_rows)]
    (Some "PFC"%string) None
  = Ok (set_psimin (set_Lc p3_run [0.05; 0.2; 0.01]) [0.9; 1.0; 10], []).
Proof.
  split.
  - apply (proj1 (readLaminar_spec p3_run [] (Some "PFC"%string) None)). reflexivity.
  - apply (proj2 (readLaminar_spec p3_run [("run/lam_PFC.dat"%string, TableFile three_rows)]
                    (Some "PFC"%string) None)
             (TableFile three_rows) [1.0; 0; 0.5; 0.05; 0.9] [1.1; 0; 0.6; 0.2; 1.0]
             [[1.2; 0; 0.7; 0.01; 10]]).
    + reflexivity.
    + reflexivity.
    + repeat constructor.
    + simpl. lia.
Defined.

(** C8, counterexample.  With no result file, [readLaminar] returns
    normally; no exception is raised. *)
Lemma readLaminar_missing_file_counterexample :
  fs_read [] (lam_file p3_run (Some "PFC"%string) None) = None /\
  readLaminar p3_run [] (Some "PFC"%string) None
  = Ok (p3_run, ["MAFOT output file: run/lam_PFC.dat not found!"%string]) /\
  forall e, readLaminar p3_run [] (Some "PFC"%string) None <> Raise e.
Proof.
  split; [reflexivity |]. split; [reflexivity |].
  intros e. discriminate.
Qed.

(** ** Waiting for the tracer *)

Section WaitingProperties.
Context `{Host}.

Lemma marker_absent_cases (p : plasma3D) (w : world) :
  marker_absent p w <->
  exists o, isComplete p w = Ok o /\ o <> Some true.
Proof.
  unfold marker_absent. split.
  - intros [E | E]; eexists; (split; [exact E | discriminate]).
  - intros [[[|] |] [E Ho]]; auto. now elim Ho.
Qed.

(** Every outcome of [wait2finish] is the outcome of a chain of restarts. *)
Lemma wait2finish_chain (depth fuel : nat) (p : plasma3D) (nproc : nat) (tag : string) :
  forall (w : world) (r : result (world * list (list string))),
    wait2finish depth fuel p nproc tag w = Some r ->
    exists n w' w1,
      (n < depth)%nat /\ restarted fuel p nproc tag n w w' /\ wait_ends fuel w' w1 /\
      ends_with p nproc tag n w1 r.
Proof.
  induction depth as [| depth IH]; intros w r E; simpl in E; [discriminate E |].
  destruct (poll fuel (sleep 5 w)) as [w1 |] eqn:Hpoll; [| discriminate E].
  assert (Hstep : forall o, isComplete p w1 = Ok o -> o <> Some true ->
            match run (restart_args nproc tag) (w_pwd w1) w1 with
            | Raise e => Some (Raise e)
            | Ok w2 =>
                match wait2finish depth fuel p nproc tag w2 with
                | Some (Ok (w3, cmds)) => Some (Ok (w3, restart_args nproc tag :: cmds))
                | r0 => r0
                end
            end = Some r ->
            exists n w' w0,
              (n < S depth)%nat /\ restarted fuel p nproc tag n w w' /\
              wait_ends fuel w' w0 /\ ends_with p nproc tag n w0 r).
  { intros o Hc Ho E'.
    assert (Habs : marker_absent p w1) by (apply marker_absent_cases; now exists o).
    destruct (run (restart_args nproc tag) (w_pwd w1) w1) as [w2 | e] eqn:Hrun.
    - destruct (wait2finish depth fuel p nproc tag w2) as [r' |] eqn:Hrec;
        [| discriminate E'].
      destruct (IH w2 r' Hrec) as [n [w' [w0 [Hn [Hch [Hw Hend]]]]]].
      exists (S n), w', w0. split; [lia |].
      split; [now apply (restarted_again fuel p nproc tag n w w1 w2 w') |].
      split; [exact Hw |].
      destruct Hend as [[Hdone ->] | [[e [He ->]] | [e [Ha [He ->]]]]].
      + inversion E'; subst r. left. split; [exact Hdone | reflexivity].
      + inversion E'; subst r. right. left. now exists e.
      + inversion E'; subst r. right. right. now exists e.
    - inversion E'; subst r.
      exists 0%nat, w, w1. split; [lia |]. split; [constructor |].
      split; [exact Hpoll |]. right. right. now exists e. }
  destruct (isComplete p w1) as [[[|] |] | e] eqn:Hc.
  - inversion E; subst r.
    exists 0%nat, w, w1. split; [lia |]. split; [constructor |].
    split; [exact Hpoll |]. left. split; [exact Hc | reflexivity].
  - apply (Hstep (Some false)); [reflexivity | discriminate | exact E].
  - apply (Hstep None); [reflexivity | discriminate | exact E].
  - inversion E; subst r.
    exists 0%nat, w, w1. split; [lia |]. split; [constructor |].
    split; [exact Hpoll |]. right. left. now exists e.
Qed.

(** What [wait2finish] does after a wait that ended in [w1]. *)
Lemma wait2finish_after_wait (depth fuel : nat) (p : plasma3D) (nproc : nat) (tag : string)
  (w w1 : world) :
  wait_ends fuel w w1 ->
  wait2finish (S depth) fuel p nproc tag w
  = match isComplete p w1 with
    | Raise e => Some (Raise e)
    | Ok (Some true) => Some (Ok (w1, []))
    | Ok _ =>
        match run (restart_args nproc tag) (w_pwd w1) w1 with
        | Raise e => Some (Raise e)
        | Ok w2 =>
            match wait2finish depth fuel p nproc tag w2 with
            | Some (Ok (w3, cmds)) => Some (Ok (w3, restart_args nproc tag :: cmds))
            | r => r
            end
        end
    end.
Proof.
  intros Hw. unfold wait_ends in Hw. simpl. now rewrite Hw.
Qed.

(** The end of a chain: the call of the last wait. *)
Lemma wait2finish_last (depth fuel : nat) (p : plasma3D) (nproc : nat) (tag : string)
  (w w1 : world) (r : result (world * list (list string))) :
  wait_ends fuel w w1 -> ends_with p nproc tag 0 w1 r ->
  wait2finish (S depth) fuel p nproc tag w = Some r.
Proof.
  intros Hw Hend. rewrite (wait2finish_after_wait _ _ _ _ _ _ _ Hw).
  destruct Hend as [[Hdone ->] | [[e [He ->]] | [e [Ha [He ->]]]]].
  - now rewrite Hdone.
  - now rewrite He.
  - destruct Ha as [Ha | Ha]; rewrite Ha, He; reflexivity.
Qed.

(** Every chain of restarts is run by [wait2finish]. *)
Lemma chain_wait2finish (fuel : nat) (p : plasma3D) (nproc : nat) (tag : string) :
  forall (n : nat) (w w' : world), restarted fuel p nproc tag n w w' ->
  forall (depth : nat) (w1 : world) (r : result (world * list (list string))),
    (n < depth)%nat -> wait_ends fuel w' w1 -> ends_with p nproc tag n w1 r ->
    wait2finish depth fuel p nproc tag w = Some r.
Proof.
  intros n w w' Hch.
  induction Hch as [w | n w wa wb w' Hwa Habs Hrun Hch IH]; intros depth w1 r Hn Hw Hend.
  - destruct depth as [| depth]; [lia |].
    now apply (wait2finish_last depth fuel p nproc tag w w1 r).
  - destruct depth as [| depth]; [lia |].
    rewrite (wait2finish_after_wait _ _ _ _ _ _ _ Hwa).
    assert (Hgo : match isComplete p wa with
                  | Raise e => Some (Raise e)
                  | Ok (Some true) => Some (Ok (wa, []))
                  | Ok _ =>
                      match wait2finish depth fuel p nproc tag wb with
                      | Some (Ok (w3, cmds)) =>
                          Some (Ok (w3, restart_args nproc tag :: cmds))
                      | r0 => r0
                      end
                  end
                  = match wait2finish depth fuel p nproc tag wb with
                    | Some (Ok (w3, cmds)) => Some (Ok (w3, restart_args nproc tag :: cmds))
                    | r0 => r0
                    end).
    { destruct Habs as [Ha | Ha]; rewrite Ha; reflexivity. }
    rewrite Hrun, Hgo.
    destruct Hend as [[Hdone ->] | [[e [He ->]] | [e [Ha [He ->]]]]].
    + rewrite (IH depth w1 (Ok (w1, repeat (restart_args nproc tag) n)));
        [reflexivity | lia | exact Hw |].
      left. split; [exact Hdone | reflexivity].
    + rewrite (IH depth w1 (Raise e)); [reflexivity | lia | exact Hw |].
      right. left. now exists e.
    + rewrite (IH depth w1 (Raise e)); [reflexivity | lia | exact Hw |].
      right. right. now exists e.
Qed.

(** C9, as amended.  [wait2finish] is not bounded by one restart: it
    restarts the tracer after every wait that ends without the success
    marker and waits again.  A call that may nest [depth] deep has the
    outcome [r] exactly when fewer than [depth] waits in a row ended without
    the marker, each followed by a restart, and the next wait ended either
    with the marker, and then the call returns after exactly those restarts,
    or with an exception of [isComplete] or of the start of the restart
    command, and then the call fails with that exception.  An absent marker
    alone is never turned into a failure. *)
Theorem wait2finish_spec (depth fuel : nat) (p : plasma3D) (nproc : nat) (tag : string)
  (w : world) (r : result (world * list (list string))) :
  wait2finish depth fuel p nproc tag w = Some r <->
  exists n w' w1,
    (n < depth)%nat /\ restarted fuel p nproc tag n w w' /\ wait_ends fuel w' w1 /\
    ((isComplete p w1 = Ok (Some true) /\ r = Ok (w1, repeat (restart_args nproc tag) n)) \/
     (exists e, isComplete p w1 = Raise e /\ r = Raise e) \/
     (exists e, marker_absent p w1 /\
                run (restart_args nproc tag) (w_pwd w1) w1 = Raise e /\ r = Raise e)).
Proof.
  split.
  - apply wait2finish_chain.
  - intros [n [w' [w1 [Hn [Hch [Hw Hend]]]]]].
    now apply (chain_wait2finish fuel p nproc tag n w w' Hch depth w1 r).
Qed.

End WaitingProperties.

Lemma wait2finish_spec_witness :
  exists w',
    @wait2finish host_flaky 3 1 p3_run 4 "PFC" w_crashed
    = Some (Ok (w', repeat (restart_args 4 "PFC") 2)) /\
    isComplete p3_run w' = Ok (Some true).
Proof.
  set (fs1 := flaky_run "run" (w_fs w_crashed)).
  set (fs2 := flaky_run "run" fs1).
  exists (with_fs w_crashed fs2). split; [| vm_compute; reflexivity].
  apply (proj2 (@wait2finish_spec host_flaky 3 1 p3_run 4 "PFC" w_crashed
                  (Ok (with_fs w_crashed fs2, repeat (restart_args 4 "PFC") 2)))).
  exists 2%nat, (with_fs w_crashed fs2), (with_fs w_crashed fs2).
  split; [lia |]. split; [| split; [reflexivity |]].
  - apply (@restarted_again host_flaky 1 p3_run 4 "PFC" 1 w_crashed w_crashed
             (with_fs w_crashed fs1) (with_fs w_crashed fs2)).
    + reflexivity.
    + left. vm_compute. reflexivity.
    + reflexivity.
    + apply (@restarted_again host_flaky 1 p3_run 4 "PFC" 0 (with_fs w_crashed fs1)
               (with_fs w_crashed fs1) (with_fs w_crashed fs2) (with_fs w_crashed fs2)).
      * reflexivity.
      * left. vm_compute. reflexivity.
      * reflexivity.
      * constructor.
  - left. split; [vm_compute; reflexivity | reflexivity].
Defined.

(** C9, counterexample.  The first run has crashed and the next attempt
    crashes too: one call of [wait2finish] launches two restarts. *)
Lemma wait2finish_two_restarts_counterexample :
  isComplete p3_run w_crashed = Ok (Some false) /\
  exists w',
    @wait2finish host_flaky 5 1 p3_run 4 "PFC" w_crashed
    = Some (Ok (w', [restart_args 4 "PFC"; restart_args 4 "PFC"])).
Proof.
  split; [vm_compute; reflexivity |].
  eexists. vm_compute. reflexivity.
Qed.

(** * Further properties of the heat-flux model *)

(** ** Mask assignment, position by position *)

Lemma nth_error_assign_select {A : Type} (a : list A) :
  forall (b : list A) (mask : list bool) (i : nat),
    length a = length mask -> length b = length mask ->
    nth_error (Np.assign_aux a mask (Np.select_aux b mask)) i
    = match nth_error mask i with
      | Some true => nth_error b i
      | _ => nth_error a i
      end.
Proof.
  induction a as [| x a IH]; intros [| y b] [| m mask] i Ha Hb; simpl in *;
    try discriminate; try lia.
  - now destruct i.
  - destruct m; destruct i as [| i]; simpl; try reflexivity;
      apply IH; lia.
Qed.

Lemma select_aux_map {A B : Type} (f : A -> B) (b : list A) :
  forall mask, Np.select_aux (map f b) mask = map f (Np.select_aux b mask).
Proof.
  induction b as [| y b IH]; intros [| m mask]; simpl; try reflexivity.
  destruct m; simpl; now rewrite IH.
Qed.

Lemma nth_error_assign_scalar {A : Type} (a : list A) (v : A) :
  forall (mask : list bool) (i : nat),
    length a = length mask ->
    nth_error (Np.assign_scalar_aux a mask v) i
    = match nth_error mask i with
      | Some true => Some v
      | _ => nth_error a i
      end.
Proof.
  induction a as [| x a IH]; intros [| m mask] i Ha; simpl in *;
    try discriminate; try lia.
  - now destruct i.
  - destruct i as [| i]; simpl; [now destruct m |]. apply IH. lia.
Qed.

Section AssemblyMore.
Context `{SciPy} `{Host}.

Lemma assemble_keeps (hf1 hf2 : heatflux3D) (q : list R) (q0 : R) :
  assemble hf1 q q0 = Ok hf2 ->
  hf_good hf2 = hf_good hf1 /\ hf_qBG hf2 = hf_qBG hf1 /\
  hf_psimin hf2 = hf_psimin hf1 /\ hf_model hf2 = hf_model hf1.
Proof.
  unfold assemble. intros E.
  apply bind_Ok in E. destruct E as [good [_ E]].
  apply bind_Ok in E. destruct E as [sel [_ E]].
  apply bind_Ok in E. destruct E as [selfq [_ E]].
  inversion E; subst. simpl. auto.
Qed.

(** What a completed [heatflux] writes, for any object with masks: the
    positions of the good mask take [q*q0 + qBG], the others keep their old
    entry plus [qBG]. *)
Lemma heatflux_entries (hf hf' : heatflux3D) (w w' : world) (DivCode : string)
  (powerFrac : R) :
  heatflux hf w DivCode powerFrac = Ok (hf', w') ->
  exists hf1 q q0 good,
    heatflux_model hf w DivCode powerFrac = Ok (hf1, q, q0, w') /\
    hf_good hf = Some good /\ hf_good hf' = Some good /\
    hf_qBG hf' = hf_qBG hf /\
    length q = length good /\ length (hf_q hf) = length good /\
    length (hf_q hf') = length good /\
    forall i,
      nth_error (hf_q hf') i
      = match nth_error good i with
        | Some true => option_map (fun v => v * q0 + hf_qBG hf) (nth_error q i)
        | _ => option_map (fun v => v + hf_qBG hf) (nth_error (hf_q hf) i)
        end.
Proof.
  unfold heatflux. intros Hhf.
  apply bind_Ok in Hhf. destruct Hhf as [[[[hf1 q] q0] w1] [Hmodel Hhf]].
  apply bind_Ok in Hhf. destruct Hhf as [hf2 [Hasm Hhf]].
  inversion Hhf; subst hf' w'; clear Hhf.
  pose proof (heatflux_model_keeps _ _ _ _ _ _ _ _ Hmodel) as [Hg1 [Hq1 Hbg]].
  pose proof (assemble_keeps _ _ _ _ Hasm) as [Hg2 [Hbg2 _]].
  apply assemble_inv in Hasm. destruct Hasm as [good [Hg [Hlq [Hlself Hq2]]]].
  exists hf1, q, q0, good.
  split; [exact Hmodel |].
  split; [now rewrite <- Hg1 |]. split; [now rewrite Hg2 |].
  split; [now rewrite Hbg2 |].
  split; [exact Hlq |]. split; [now rewrite <- Hq1 |].
  split.
  - rewrite Hq2, length_map, length_assign_aux. exact Hlself.
  - intros i. rewrite Hq2, nth_error_map.
    rewrite nth_error_assign_select by (rewrite ?length_map; assumption).
    rewrite Hbg, Hq1.
    destruct (nth_error good i) as [[|] |]; try reflexivity.
    rewrite nth_error_map. now destruct (nth_error q i).
Qed.

(** X1.  After [updateLaminarData], a completed [heatflux] leaves a flux array
    as long as the trace, and every converged point holds the shape of the
    model times the scale factor, plus the background. *)
Theorem heatflux_converged_entries (hf0 hf hf' : heatflux3D) (psimin Lc : list R)
  (w w' : world) (DivCode : string) (powerFrac : R) :
  updateLaminarData hf0 psimin Lc = Ok hf ->
  heatflux hf w DivCode powerFrac = Ok (hf', w') ->
  exists hf1 q q0,
    heatflux_model hf w DivCode powerFrac = Ok (hf1, q, q0, w') /\
    length q = length psimin /\ length (hf_q hf') = length psimin /\
    forall i p, nth_error psimin i = Some p -> p <> 10 ->
      exists v, nth_error q i = Some v /\
                nth_error (hf_q hf') i = Some (v * q0 + hf_qBG hf).
Proof.
  intros Hupd Hhf.
  apply updateLaminarData_inv in Hupd. destruct Hupd as [_ [_ [_ [Hgood _]]]].
  destruct (heatflux_entries _ _ _ _ _ _ Hhf)
    as [hf1 [q [q0 [good [Hmodel [Hg [_ [_ [Hlq [_ [Hlq' Hnth]]]]]]]]]]].
  rewrite Hgood in Hg. injection Hg as <-.
  rewrite length_map in Hlq, Hlq'.
  exists hf1, q, q0. split; [exact Hmodel |]. split; [exact Hlq |].
  split; [exact Hlq' |].
  intros i p Hi Hp.
  assert (Hv : exists v, nth_error q i = Some v).
  { destruct (nth_error q i) as [v |] eqn:Hv; [now exists v |].
    apply nth_error_None in Hv. assert (i < length psimin)%nat; [| lia].
    apply nth_error_Some. congruence. }
  destruct Hv as [v Hv]. exists v. split; [exact Hv |].
  rewrite Hnth, nth_error_map, Hi. simpl.
  unfold Np.eqb. destruct (Req_dec_T p 10); [contradiction |]. simpl.
  now rewrite Hv.
Qed.

(** X2.  A second [heatflux] without a new [updateLaminarData] starts from the
    flux of the first: a non-converged point then holds twice the
    background. *)
Theorem heatflux_twice_adds_qBG_twice (hf0 hf hf' hf'' : heatflux3D) (psimin Lc : list R)
  (w w' w'' : world) (DivCode DivCode' : string) (powerFrac powerFrac' : R) (i : nat) :
  updateLaminarData hf0 psimin Lc = Ok hf ->
  heatflux hf w DivCode powerFrac = Ok (hf', w') ->
  heatflux hf' w' DivCode' powerFrac' = Ok (hf'', w'') ->
  nth_error psimin i = Some 10 ->
  nth_error (hf_q hf'') i = Some (hf_qBG hf + hf_qBG hf).
Proof.
  intros Hupd Hhf Hhf' Hi.
  apply updateLaminarData_inv in Hupd. destruct Hupd as [_ [_ [Hq [Hgood _]]]].
  destruct (heatflux_entries _ _ _ _ _ _ Hhf)
    as [hf1 [q [q0 [good [_ [Hg [Hg' [Hbg [_ [_ [_ Hnth]]]]]]]]]]].
  destruct (heatflux_entries _ _ _ _ _ _ Hhf')
    as [hf1' [q' [q0' [good' [_ [Hg2 [_ [_ [_ [_ [_ Hnth']]]]]]]]]]].
  rewrite Hgood in Hg. injection Hg as <-.
  rewrite Hg' in Hg2. injection Hg2 as <-.
  assert (Hbad : nth_error (map (fun p => negb (Np.eqb p 10)) psimin) i = Some false).
  { rewrite nth_error_map, Hi. simpl. unfold Np.eqb.
    destruct (Req_dec_T 10 10); [reflexivity | contradiction]. }
  rewrite Hnth', Hbad, Hnth, Hbad, Hq, Hbg.
  unfold Np.zeros. rewrite nth_error_repeat by (apply nth_error_Some; congruence).
  simpl. f_equal. ring.
Qed.

End AssemblyMore.

(** ** Completed runs of the conductive model *)

Section ConductiveRuns.
Context `{SciPy} `{Host}.

(** [heatflux] changes the flux array and, for the layer model, [HFS];
    the trace, the masks and the settings stay. *)
Lemma heatflux_keeps_trace (hf hf' : heatflux3D) (w w' : world) (DivCode : string)
  (powerFrac : R) :
  heatflux hf w DivCode powerFrac = Ok (hf', w') ->
  hf_psimin hf' = hf_psimin hf /\ hf_Lc hf' = hf_Lc hf /\ hf_pfr hf' = hf_pfr hf /\
  hf_model hf' = hf_model hf /\ hf_good hf' = hf_good hf /\ hf_S hf' = hf_S hf.
Proof.
  unfold heatflux. intros Hhf.
  apply bind_Ok in Hhf. destruct Hhf as [[[[hf1 q] q0] w1] [Hmodel Hhf]].
  apply bind_Ok in Hhf. destruct Hhf as [hf2 [Hasm Hhf]].
  inversion Hhf; subst hf' w'; clear Hhf.
  assert (H2 : hf_psimin hf2 = hf_psimin hf1 /\ hf_Lc hf2 = hf_Lc hf1 /\
               hf_pfr hf2 = hf_pfr hf1 /\ hf_model hf2 = hf_model hf1 /\
               hf_good hf2 = hf_good hf1 /\ hf_S hf2 = hf_S hf1).
  { unfold assemble in Hasm.
    apply bind_Ok in Hasm. destruct Hasm as [good [_ E]].
    apply bind_Ok in E. destruct E as [sel [_ E]].
    apply bind_Ok in E. destruct E as [selfq [_ E]].
    inversion E; subst. simpl. auto 6. }
  assert (H1 : hf_psimin hf1 = hf_psimin hf /\ hf_Lc hf1 = hf_Lc hf /\
               hf_pfr hf1 = hf_pfr hf /\ hf_model hf1 = hf_model hf /\
               hf_good hf1 = hf_good hf /\ hf_S hf1 = hf_S hf).
  { unfold heatflux_model in Hmodel.
    apply bind_Ok in Hmodel. destruct Hmodel as [model [_ E]].
    destruct (str_in model layer_names).
    - apply bind_Ok in E. destruct E as [b [_ E]].
      apply bind_Ok in E. destruct E as [q' [_ E]].
      apply bind_Ok in E. destruct E as [[q0' w1'] [_ E]].
      inversion E; subst. simpl. auto 6.
    - destruct (str_in model conduct_names); [| discriminate E].
      apply bind_Ok in E. destruct E as [Lc [_ E]].
      apply bind_Ok in E. destruct E as [ps [_ E]].
      apply bind_Ok in E. destruct E as [L [_ E]].
      apply bind_Ok in E. destruct E as [ratio [_ E]].
      apply bind_Ok in E. destruct E as [q' [_ E]].
      apply bind_Ok in E. destruct E as [q0' [_ E]].
      inversion E; subst. auto 6. }
  destruct H1 as [A1 [A2 [A3 [A4 [A5 A6]]]]]. destruct H2 as [B1 [B2 [B3 [B4 [B5 B6]]]]].
  repeat split; congruence.
Qed.

(** The conductive branch completes on every object whose trace, masks and
    flux array have one length and whose spread [S] is not zero. *)
Lemma heatflux_conduct_total (hf : heatflux3D) (psimin Lc : list R) (good pfr : list bool)
  (w : world) (DivCode m : string) (powerFrac : R) :
  hf_model hf = Some m -> str_in m layer_names = false -> str_in m conduct_names = true ->
  hf_psimin hf = Some psimin -> hf_Lc hf = Some Lc -> length Lc = length psimin ->
  hf_good hf = Some good -> length good = length psimin ->
  hf_pfr hf = Some pfr -> length pfr = length psimin ->
  length (hf_q hf) = length psimin -> hf_S hf <> 0 ->
  exists hf', heatflux hf w DivCode powerFrac = Ok (hf', w).
Proof.
  intros Hm Hlayer Hcond Hps HLc Hlen Hgood Hglen Hpfr Hplen Hqlen HS.
  destruct (getq_conduct_Ok hf psimin (hf_kappa hf) 0
              (Np.mean (Np.select_aux Lc (map (fun p => Np.ltb (hf_lcfs hf) p) psimin)) * 1e3)
              (hf_lqCN hf / hf_S hf) pfr Hplen) as [q Hgetq].
  destruct (conduct_q_hat_Ok hf (hf_kappa hf)
              (Np.mean (Np.select_aux Lc (map (fun p => Np.ltb (hf_lcfs hf) p) psimin)) * 1e3)
              (hf_lqCN hf / hf_S hf) 0) as [q_hat Hqhat].
  assert (Hmod : heatflux_model hf w DivCode powerFrac
                 = Ok (hf, q, power_balance (hf_Psol hf * powerFrac) q_hat
                                (to_flux (hf_ep hf) conduct_psiN), w)).
  { unfold heatflux_model. rewrite Hm. cbn [bind attr]. rewrite Hlayer, Hcond.
    rewrite HLc, Hps. cbn [bind attr]. rewrite conduct_L_Ok by now symmetry.
    cbn [bind attr]. rewrite float_div_Ok by exact HS. cbn [bind attr].
    rewrite Hpfr, Hgetq. cbn [bind attr].
    unfold scale_conduct. rewrite Hqhat. reflexivity. }
  apply getq_conduct_inv in Hgetq. destruct Hgetq as [T [-> [HTlen _]]].
  unfold heatflux. rewrite Hmod. cbn [bind attr]. unfold assemble. rewrite Hgood.
  cbn [bind attr].
  rewrite select_Ok by (rewrite !length_map; congruence). cbn [bind attr].
  rewrite assign_Ok.
  - cbn [bind attr]. eexists. reflexivity.
  - congruence.
  - apply length_select_aux. rewrite !length_map. congruence.
Qed.

End ConductiveRuns.

Lemma scenario_second_run :
  forall hf hf', updateLaminarData hf_flat scenario_psimin scenario_Lc = Ok hf ->
    @heatflux scipy_ref host_static hf w_idle "O" 1 = Ok (hf', w_idle) ->
    exists hf'', @heatflux scipy_ref host_static hf' w_idle "O" 1 = Ok (hf'', w_idle).
Proof.
  intros hf hf' Hupd Hhf.
  destruct (@heatflux_keeps_trace scipy_ref host_static _ _ _ _ _ _ Hhf)
    as [Hps [HLc [Hpfr [Hm [Hg HS]]]]].
  destruct (@heatflux_entries scipy_ref host_static _ _ _ _ _ _ Hhf)
    as [hf1 [q [q0 [good [_ [Hgood [_ [_ [_ [_ [Hqlen _]]]]]]]]]]].
  apply updateLaminarData_inv in Hupd.
  destruct Hupd as [Hps0 [HLc0 [_ [Hgood0 [[pfr [Hpfr0 Hplen]] [_ [Hm0 Hrest]]]]]]].
  rewrite Hgood0 in Hgood. injection Hgood as <-.
  apply (@heatflux_conduct_total scipy_ref host_static hf' scenario_psimin scenario_Lc
           (map (fun p => negb (Np.eqb p 10)) scenario_psimin) pfr w_idle "O" "conduct" 1);
    try reflexivity; try congruence; try exact Hqlen.
  - rewrite Hm, Hm0. reflexivity.
  - destruct Hrest as [_ [_ [_ [_ [_ [_ [_ [_ HS0]]]]]]]].
    rewrite HS, HS0. simpl. lra.
Qed.

Lemma heatflux_converged_entries_witness :
  exists hf hf' q0 v,
    updateLaminarData hf_flat scenario_psimin scenario_Lc = Ok hf /\
    @heatflux scipy_ref host_static hf w_idle "O" 1 = Ok (hf', w_idle) /\
    length (hf_q hf') = 4%nat /\
    nth_error (hf_q hf') 1 = Some (v * q0 + hf_qBG hf).
Proof.
  destruct scenario_traced as [hf [Hupd _]].
  destruct (scenario_runs hf Hupd) as [hf1 [q [q0 [hf' [_ Hhf]]]]].
  destruct (@heatflux_converged_entries scipy_ref host_static hf_flat hf hf'
              scenario_psimin scenario_Lc w_idle w_idle "O" 1 Hupd Hhf)
    as [hf1' [q' [q0' [_ [_ [Hlen Hnth]]]]]].
  destruct (Hnth 1%nat 1.0 eq_refl ltac:(lra)) as [v [_ Hv]].
  exists hf, hf', q0', v.
  split; [exact Hupd |]. split; [exact Hhf |]. split; [exact Hlen | exact Hv].
Defined.

Lemma heatflux_twice_adds_qBG_twice_witness :
  exists hf hf' hf'',
    updateLaminarData hf_flat scenario_psimin scenario_Lc = Ok hf /\
    @heatflux scipy_ref host_static hf w_idle "O" 1 = Ok (hf', w_idle) /\
    @heatflux scipy_ref host_static hf' w_idle "O" 1 = Ok (hf'', w_idle) /\
    nth_error (hf_q hf'') 2 = Some (hf_qBG hf + hf_qBG hf).
Proof.
  destruct scenario_traced as [hf [Hupd _]].
  destruct (scenario_runs hf Hupd) as [hf1 [q [q0 [hf' [_ Hhf]]]]].
  destruct (scenario_second_run hf hf' Hupd Hhf) as [hf'' Hhf'].
  exists hf, hf', hf''.
  split; [exact Hupd |]. split; [exact Hhf |]. split; [exact Hhf' |].
  exact (@heatflux_twice_adds_qBG_twice scipy_ref host_static hf_flat hf hf' hf''
           scenario_psimin scenario_Lc w_idle w_idle w_idle "O" "O" 1 1 2
           Hupd Hhf Hhf' eq_refl).
Defined.

(** ** The conductive flux, point by point *)

(** X3.  [getq_conduct] with the LCFS limit and a PFR mask: the flux at a point
    is the conductive flux of the temperature at [1 + ratio*(1 - psi)] for a
    PFR point, at the LCFS for any other point inside the LCFS, and at [psi]
    itself otherwise. *)
Theorem getq_conduct_pointwise (hf : heatflux3D) (psi q : list R) (kappa T0 L ratio : R)
  (pfr : list bool) :
  getq_conduct hf psi kappa T0 L true (Some pfr) ratio = Ok q ->
  length q = length psi /\ length pfr = length psi /\
  forall i p b, nth_error psi i = Some p -> nth_error pfr i = Some b ->
    nth_error q i
    = Some (conduct_q kappa L T0
              (hf_fT hf (if b then 1 + ratio * (1 - p)
                         else if Rlt_dec p (hf_lcfs hf) then hf_lcfs hf else p))).
Proof.
  unfold getq_conduct. intros E.
  apply bind_Ok in E. destruct E as [T1 [HT1 E]].
  apply bind_Ok in E. destruct E as [T2 [HT2 E]].
  inversion E; subst q; clear E.
  apply assign_scalar_inv in HT1. destruct HT1 as [_ ->].
  apply bind_Ok in HT2. destruct HT2 as [sel [Hsel HT2]].
  apply select_inv in Hsel. destruct Hsel as [Hlen ->].
  apply assign_inv in HT2. destruct HT2 as [Hlen1 [_ ->]].
  rewrite length_map, length_assign_aux, length_assign_scalar_aux, length_map.
  split; [reflexivity |]. split; [now symmetry |].
  intros i p b Hp Hb.
  rewrite nth_error_map, <- select_aux_map.
  rewrite nth_error_assign_select by (rewrite ?length_map; assumption).
  rewrite Hb. destruct b.
  - rewrite nth_error_map, Hp. reflexivity.
  - rewrite nth_error_assign_scalar by now rewrite !length_map.
    rewrite !nth_error_map, Hp. simpl. unfold Np.ltb.
    now destruct (Rlt_dec p (hf_lcfs hf)).
Qed.

Lemma getq_conduct_pointwise_witness :
  exists q,
    getq_conduct hf_flat scenario_psimin 2000 0 170 true
      (Some [true; false; false; false]) 2.5 = Ok q /\
    length q = 4%nat /\
    nth_error q 0 = Some (conduct_q 2000 170 0 (hf_fT hf_flat (1 + 2.5 * (1 - 0.9)))).
Proof.
  destruct (getq_conduct_Ok hf_flat scenario_psimin 2000 0 170 2.5
              [true; false; false; false] eq_refl) as [q Hq].
  exists q. split; [exact Hq |].
  destruct (getq_conduct_pointwise _ _ _ _ _ _ _ _ Hq) as [Hlen [_ Hnth]].
  split; [exact Hlen |].
  exact (Hnth 0%nat 0.9 true eq_refl eq_refl).
Defined.

Lemma conduct_q_scal (c kappa L T0 T : R) :
  conduct_q (c * kappa) L T0 T = c * conduct_q kappa L T0 T.
Proof.
  unfold conduct_q, Rdiv. ring.
Qed.

(** The conductive flux is linear in [kappa]: scaling [kappa] scales every
    entry, and fails where the unscaled call fails. *)
Theorem getq_conduct_linear_in_kappa (hf : heatflux3D) (psi : list R)
  (c kappa T0 L ratio : R) (limit : bool) (pfr : option (list bool)) :
  getq_conduct hf psi (c * kappa) T0 L limit pfr ratio
  = (q <- getq_conduct hf psi kappa T0 L limit pfr ratio ;; Ok (map (Rmult c) q)).
Proof.
  unfold getq_conduct.
  match goal with
  | |- bind ?m _ = _ => destruct m as [T1 | e]; [| reflexivity]
  end.
  cbn [bind].
  match goal with
  | |- bind ?m _ = _ => destruct m as [T2 | e]; [| reflexivity]
  end.
  cbn [bind]. f_equal. rewrite map_map. apply map_ext. intros T.
  apply conduct_q_scal.
Qed.

Section KappaFree.
Context `{SciPy} `{Host}.

Lemma conduct_q_hat_scal (hf : heatflux3D) (c kappa L ratio T0 : R) :
  conduct_q_hat hf (c * kappa) L ratio T0
  = (q <- conduct_q_hat hf kappa L ratio T0 ;; Ok (map (Rmult c) q)).
Proof.
  unfold conduct_q_hat.
  destruct (conduct_T hf ratio) as [T | e]; [| reflexivity].
  cbn [bind]. f_equal. rewrite map_map. apply map_ext. intros T'.
  apply conduct_q_scal.
Qed.

(** Scaling the shape by a positive factor scales the power-balance factor
    by its inverse: the product of the two is unchanged. *)
Lemma power_balance_scal (c P q0v : R) (q_hat psi : list R) :
  homogeneous simps -> 0 < c ->
  c * q0v * power_balance P (map (Rmult c) q_hat) psi
  = q0v * power_balance P q_hat psi.
Proof.
  intros Hhom Hc. rewrite !power_balance_abs, Hhom.
  replace (2 * PI * (c * simps q_hat psi)) with (c * (2 * PI * simps q_hat psi)) by ring.
  rewrite Rabs_mult, (Rabs_right c) by lra.
  set (a := Rabs (2 * PI * simps q_hat psi)).
  destruct (Req_dec a 0) as [Ha | Ha].
  - rewrite Ha, Rmult_0_r. unfold Rdiv. rewrite Rinv_0. ring.
  - field. split; [exact Ha | lra].
Qed.

(** X4.  After the power balance the conductive flux does not depend on
    [kappa]: with a quadrature that is linear in the samples, replacing a
    positive [kappa] by any other positive value leaves the final flux of a
    completed conductive [heatflux] as it was. *)
Theorem heatflux_conduct_kappa_free (hf hf' : heatflux3D) (w w' : world)
  (DivCode : string) (powerFrac k : R) :
  homogeneous simps -> is_layer_model hf = false ->
  0 < hf_kappa hf -> 0 < k ->
  heatflux hf w DivCode powerFrac = Ok (hf', w') ->
  exists hf'',
    heatflux (set_kappa hf k) w DivCode powerFrac = Ok (hf'', w') /\
    hf_q hf'' = hf_q hf'.
Proof.
  intros Hhom Hlayer Hk0 Hk Hhf.
  unfold heatflux in Hhf.
  apply bind_Ok in Hhf. destruct Hhf as [[[[hf1 q] q0] w1] [Hmodel Hhf]].
  apply bind_Ok in Hhf. destruct Hhf as [hf2 [Hasm Hhf]].
  inversion Hhf; subst hf' w'; clear Hhf.
  assert (Hm : exists m, hf_model hf = Some m).
  { unfold heatflux_model in Hmodel.
    apply bind_Ok in Hmodel. destruct Hmodel as [m [Hm _]].
    apply attr_Ok in Hm. now exists m. }
  destruct Hm as [m Hm]. unfold is_layer_model in Hlayer. rewrite Hm in Hlayer.
  assert (Hcond : str_in m conduct_names = true).
  { unfold heatflux_model in Hmodel. rewrite Hm in Hmodel. cbn [bind attr] in Hmodel.
    rewrite Hlayer in Hmodel. now destruct (str_in m conduct_names). }
  pose proof (heatflux_model_conduct_S _ _ _ _ _ _ _ _ _ Hm Hlayer Hmodel) as HS.
  destruct (heatflux_model_conduct_inv _ _ _ _ _ _ _ _ _ Hm Hlayer Hmodel)
    as [-> [-> [psimin [Lc [L [q_hat [Hps [HLc [HL [Hgetq [Hqh Hq0]]]]]]]]]]].
  set (c := k / hf_kappa hf).
  assert (Hc : 0 < c) by (apply Rdiv_lt_0_compat; assumption).
  assert (Hck : k = c * hf_kappa hf) by (unfold c; field; lra).
  assert (Hmod' : heatflux_model (set_kappa hf k) w DivCode powerFrac
                  = Ok (set_kappa hf k, map (Rmult c) q,
                        power_balance (hf_Psol hf * powerFrac) (map (Rmult c) q_hat)
                          (to_flux (hf_ep hf) conduct_psiN), w)).
  { unfold heatflux_model.
    change (hf_model (set_kappa hf k)) with (hf_model hf). rewrite Hm.
    cbn [bind attr]. rewrite Hlayer, Hcond.
    change (hf_Lc (set_kappa hf k)) with (hf_Lc hf).
    change (hf_psimin (set_kappa hf k)) with (hf_psimin hf).
    rewrite HLc, Hps. cbn [bind attr].
    change (conduct_L (set_kappa hf k) psimin Lc) with (conduct_L hf psimin Lc).
    rewrite HL. cbn [bind attr].
    change (hf_kappa (set_kappa hf k)) with k.
    change (hf_pfr (set_kappa hf k)) with (hf_pfr hf).
    change (hf_lqCN (set_kappa hf k)) with (hf_lqCN hf).
    change (hf_S (set_kappa hf k)) with (hf_S hf).
    rewrite float_div_Ok by exact HS. cbn [bind attr].
    change (getq_conduct (set_kappa hf k)) with (getq_conduct hf).
    rewrite Hck at 1. rewrite getq_conduct_linear_in_kappa, Hgetq. cbn [bind].
    unfold scale_conduct.
    change (conduct_q_hat (set_kappa hf k)) with (conduct_q_hat hf).
    rewrite Hck at 1. rewrite conduct_q_hat_scal, Hqh. cbn [bind].
    reflexivity. }
  unfold heatflux. rewrite Hmod'. cbn [bind].
  unfold assemble in *.
  change (hf_good (set_kappa hf k)) with (hf_good hf).
  change (hf_q (set_kappa hf k)) with (hf_q hf).
  change (hf_qBG (set_kappa hf k)) with (hf_qBG hf).
  replace (map (fun v => v * power_balance (hf_Psol hf * powerFrac)
                               (map (Rmult c) q_hat) (to_flux (hf_ep hf) conduct_psiN))
               (map (Rmult c) q))
    with (map (fun v => v * q0) q).
  - apply bind_Ok in Hasm. destruct Hasm as [good [Hgood E]]. rewrite Hgood.
    cbn [bind].
    apply bind_Ok in E. destruct E as [sel [Hsel E]]. rewrite Hsel. cbn [bind].
    apply bind_Ok in E. destruct E as [selfq [Hself E]]. rewrite Hself. cbn [bind].
    inversion E; subst hf2. eexists. split; reflexivity.
  - rewrite map_map. apply map_ext. intros v. rewrite Hq0.
    symmetry. apply power_balance_scal; assumption.
Qed.

(** X5.  The power balance closes: with a quadrature that is linear in the
    samples and a nonzero integral of the shape, [2*pi] times the integral
    of the shape scaled by the factor [q0] is the target power, up to sign. *)
Theorem power_balance_restores_power (P : R) (q_hat psi : list R) :
  homogeneous simps -> simps q_hat psi <> 0 ->
  Rabs (2 * PI * simps (map (fun v => v * power_balance P q_hat psi) q_hat) psi)
  = Rabs P.
Proof.
  intros Hhom Hs.
  rewrite (map_ext (fun v => v * power_balance P q_hat psi)
                   (Rmult (power_balance P q_hat psi))) by (intros; ring).
  rewrite Hhom, power_balance_abs.
  pose proof PI_RGT_0 as Hpi.
  set (a := 2 * PI * simps q_hat psi).
  assert (Ha : a <> 0) by (unfold a; nra).
  replace (2 * PI * (P / Rabs a * simps q_hat psi)) with (P / Rabs a * a)
    by (unfold a; field; now apply Rabs_no_R0).
  rewrite Rabs_mult. unfold Rdiv. rewrite Rabs_mult, Rabs_inv, Rabs_Rabsolu.
  field. now apply Rabs_no_R0.
Qed.

End KappaFree.

(** ** Simpson's rule is linear in the samples *)

Lemma nth_map_Rmult (c : R) (y : list R) (i : nat) :
  nth i (map (Rmult c) y) 0 = c * nth i y 0.
Proof.
  revert i. induction y as [| a y IH]; intros [| i]; simpl; try ring.
  apply IH.
Qed.

Lemma basic_simps_scal (c : R) (n : nat) :
  forall y x : list R, length y = n ->
    basic_simps (map (Rmult c) y) x = c * basic_simps y x.
Proof.
  induction n as [n IH] using lt_wf_ind. intros y x Hn.
  destruct y as [| y0 [| y1 [| y2 ty]]]; try (simpl; ring).
  - destruct x as [| x0 [| x1 x']]; simpl; ring.
  - destruct x as [| x0 [| x1 [| x2 t]]]; try (simpl; ring).
    change (basic_simps (map (Rmult c) (y0 :: y1 :: y2 :: ty)) (x0 :: x1 :: x2 :: t))
      with ((x1 - x0 + (x2 - x1)) / 6.0
            * (c * y0 * (2 - 1.0 / ((x1 - x0) / (x2 - x1)))
               + c * y1 * ((x1 - x0 + (x2 - x1)) * (x1 - x0 + (x2 - x1))
                       / ((x1 - x0) * (x2 - x1)))
               + c * y2 * (2 - (x1 - x0) / (x2 - x1)))
            + basic_simps (map (Rmult c) (y2 :: ty)) (x2 :: t)).
    change (basic_simps (y0 :: y1 :: y2 :: ty) (x0 :: x1 :: x2 :: t))
      with ((x1 - x0 + (x2 - x1)) / 6.0
            * (y0 * (2 - 1.0 / ((x1 - x0) / (x2 - x1)))
               + y1 * ((x1 - x0 + (x2 - x1)) * (x1 - x0 + (x2 - x1))
                       / ((x1 - x0) * (x2 - x1)))
               + y2 * (2 - (x1 - x0) / (x2 - x1)))
            + basic_simps (y2 :: ty) (x2 :: t)).
    rewrite (IH (length (y2 :: ty))) by (simpl in *; auto; lia).
    ring.
Qed.

Lemma simpson_homogeneous : homogeneous simpson.
Proof.
  intros c y x. unfold simpson. rewrite length_map.
  assert (Htl : tl (map (Rmult c) y) = map (Rmult c) (tl y)) by now destruct y.
  rewrite Htl, !nth_map_Rmult.
  rewrite (basic_simps_scal c _ y x eq_refl).
  rewrite (basic_simps_scal c _ (tl y) (tl x) eq_refl).
  destruct (Nat.even (length y)); [dfield | reflexivity].
Qed.

Lemma heatflux_conduct_kappa_free_witness :
  exists hf hf' hf'',
    updateLaminarData hf_flat scenario_psimin scenario_Lc = Ok hf /\
    @heatflux scipy_ref host_static hf w_idle "O" 1 = Ok (hf', w_idle) /\
    @heatflux scipy_ref host_static (set_kappa hf 5) w_idle "O" 1 = Ok (hf'', w_idle) /\
    hf_q hf'' = hf_q hf'.
Proof.
  destruct scenario_traced as [hf [Hupd [Hm [_ [Hk _]]]]].
  destruct (scenario_runs hf Hupd) as [hf1 [q [q0 [hf' [_ Hhf]]]]].
  assert (Hlayer : is_layer_model hf = false)
    by (unfold is_layer_model; rewrite Hm; reflexivity).
  assert (Hk0 : 0 < hf_kappa hf) by (rewrite Hk; lra).
  destruct (@heatflux_conduct_kappa_free scipy_ref host_static hf hf' w_idle w_idle
              "O" 1 5 simpson_homogeneous Hlayer Hk0 ltac:(lra) Hhf)
    as [hf'' [Hhf'' Hq]].
  exists hf, hf', hf''.
  split; [exact Hupd |]. split; [exact Hhf |]. split; [exact Hhf'' | exact Hq].
Defined.

Lemma power_balance_restores_power_witness :
  Rabs (2 * PI * simpson
                   (map (fun v => v * @power_balance scipy_ref 10 [1; 1; 1] [0; 1; 2])
                        [1; 1; 1]) [0; 1; 2])
  = Rabs 10.
Proof.
  apply (@power_balance_restores_power scipy_ref 10 [1; 1; 1] [0; 1; 2]
           simpson_homogeneous).
  change (@simps scipy_ref) with simpson.
  rewrite (simpson_const 1 [0; 1; 2] [1; 1; 1]).
  - simpl. lra.
  - repeat constructor; lra.
  - reflexivity.
  - repeat constructor.
  - simpl. lia.
Defined.

(** ** The default temperature profile *)

Lemma Tprofile_f_decreasing (x y : R) :
  x < y -> Tprofile_f 0.975 0.04 y < Tprofile_f 0.975 0.04 x.
Proof.
  intros Hxy. unfold Tprofile_f.
  assert (Ht : tanh (2 * (0.975 - y) / 0.04) < tanh (2 * (0.975 - x) / 0.04)).
  { apply tanh_increasing. lra. }
  assert (He : exp (- y * 2) < exp (- x * 2)).
  { apply exp_increasing. lra. }
  lra.
Qed.

(** X6.  For a positive pedestal temperature the default profile [Tprofile]
    falls strictly with [psi] and vanishes at [psi = 1.2]: it is positive
    exactly for [psi < 1.2]. *)
Theorem Tprofile_decreasing (Tped : R) :
  0 < Tped ->
  let T := fun psi => Tret_T (Tprofile psi Tped false) in
  (forall x y, x < y -> T y < T x) /\
  T 1.2 = 0 /\
  (forall psi, 0 < T psi <-> psi < 1.2).
Proof.
  intros HT T.
  pose proof Tprofile_norm_pos as HD.
  assert (HT0 : 0 < Tped / (Tprofile_f 0.975 0.04 (0.975 - 0.04) - Tprofile_f 0.975 0.04 1.2))
    by (apply Rdiv_lt_0_compat; assumption).
  assert (Hdec : forall x y, x < y -> T y < T x).
  { intros x y Hxy. unfold T, Tprofile. simpl.
    pose proof (Tprofile_f_decreasing x y Hxy) as Hf.
    apply Rmult_lt_compat_l; [exact HT0 | lra]. }
  assert (Hz : T 1.2 = 0).
  { unfold T, Tprofile. simpl. ring. }
  split; [exact Hdec |]. split; [exact Hz |].
  intros psi. split.
  - intros Hpos. destruct (Rlt_dec psi 1.2) as [Hlt | Hge]; [exact Hlt |].
    destruct (Req_dec psi 1.2) as [-> | Hne]; [lra |].
    assert (Hgt : 1.2 < psi) by lra.
    pose proof (Hdec 1.2 psi Hgt). lra.
  - intros Hlt. pose proof (Hdec psi 1.2 Hlt). lra.
Qed.

Lemma Tprofile_decreasing_witness :
  Tret_T (Tprofile 1.1 2 false) < Tret_T (Tprofile 1.0 2 false) /\
  (0 < Tret_T (Tprofile 1.0 2 false) <-> 1.0 < 1.2).
Proof.
  destruct (Tprofile_decreasing 2 ltac:(lra)) as [Hdec [_ Hsign]].
  split; [apply Hdec; lra | apply Hsign].
Defined.

(** ** The model selection of [heatflux] *)

Section ModelSelection.
Context `{SciPy} `{Host}.

(** X7.  An object set up without a model name, as [setHFctl] leaves it,
    cannot compute a flux: whatever the trace and the arguments, [heatflux]
    raises a [TypeError] (from joining the missing name to a string). *)
Theorem heatflux_without_model_raises (ep : equilParams) (ctl : HFctl) (dir : string)
  (fs : FS) (hf hf1 : heatflux3D) (psimin Lc : list R) (w : world) (DivCode : string)
  (powerFrac : R) :
  c_model ctl = None ->
  initializeHF3D ep ctl dir fs = Ok hf ->
  updateLaminarData hf psimin Lc = Ok hf1 ->
  heatflux hf1 w DivCode powerFrac = Raise TypeError.
Proof.
  intros Hctl Hinit Hupd.
  assert (Hm : hf_model hf = None).
  { unfold initializeHF3D in Hinit.
    apply bind_Ok in Hinit. destruct Hinit as [fT [_ E]].
    apply bind_Ok in E. destruct E as [fn [_ E]].
    inversion E; subst. exact Hctl. }
  assert (Hm1 : hf_model hf1 = None).
  { unfold updateLaminarData in Hupd.
    apply bind_Ok in Hupd. destruct Hupd as [good [_ E]].
    apply bind_Ok in E. destruct E as [pfr [_ E]].
    inversion E; subst. exact Hm. }
  unfold heatflux, heatflux_model. rewrite Hm1. reflexivity.
Qed.

(** X8.  [heatflux] reads [DivCode] only through the two tests ['O' in DivCode]
    and ['I' in DivCode], the first taking precedence: two codes that agree
    on the first test, and on the second one when the first fails, give the
    same result, be it a flux or an exception. *)
Theorem heatflux_reads_DivCode_letters (hf : heatflux3D) (w : world) (D D' : string)
  (powerFrac : R) :
  contains "O" D = contains "O" D' ->
  (contains "O" D = false -> contains "I" D = contains "I" D') ->
  heatflux hf w D powerFrac = heatflux hf w D' powerFrac.
Proof.
  intros HO HI. unfold heatflux, heatflux_model.
  destruct (hf_model hf) as [m |]; [| reflexivity].
  cbn [bind attr].
  destruct (str_in m layer_names); [| reflexivity].
  rewrite <- HO. destruct (contains "O" D); [reflexivity |].
  rewrite <- (HI eq_refl). reflexivity.
Qed.

End ModelSelection.

Lemma heatflux_without_model_raises_witness :
  exists hf1,
    updateLaminarData (hf_default ep_slab "run") scenario_psimin scenario_Lc = Ok hf1 /\
    @heatflux scipy_ref host_static hf1 w_idle "O" 1 = Raise TypeError.
Proof.
  eexists. split.
  - apply updateLaminarData_eq. reflexivity.
  - apply (@heatflux_without_model_raises scipy_ref host_static ep_slab setHFctl "run" []
             (hf_default ep_slab "run") _ scenario_psimin scenario_Lc w_idle "O" 1
             eq_refl (initializeHF3D_default ep_slab "run" [])).
    apply updateLaminarData_eq. reflexivity.
Defined.

Lemma heatflux_reads_DivCode_letters_witness :
  @heatflux scipy_ref host_static hf_eich w_idle "IO" 1
  = @heatflux scipy_ref host_static hf_eich w_idle "LO" 1.
Proof.
  apply (@heatflux_reads_DivCode_letters scipy_ref host_static hf_eich w_idle "IO" "LO" 1).
  - reflexivity.
  - intros Hc. discriminate Hc.
Defined.

(** * Further properties of the field-line-trace driver *)

(** ** The file system *)

Lemma fs_read_filter (P : string -> bool) (fs : FS) (q : string) :
  fs_read (filter (fun pf => P (fst pf)) fs) q = if P q then fs_read fs q else None.
Proof.
  induction fs as [| [p f] fs IH]; simpl.
  - now destruct (P q).
  - destruct (String.eqb q p) eqn:E.
    + apply String.eqb_eq in E. subst p.
      destruct (P q) eqn:HP; simpl.
      * now rewrite String.eqb_refl.
      * exact IH.
    + destruct (P p); simpl; [rewrite E |]; exact IH.
Qed.

Lemma fs_read_write_same (fs : FS) (p : string) (f : file) :
  fs_read (fs_write fs p f) p = Some f.
Proof.
  unfold fs_write. simpl. now rewrite String.eqb_refl.
Qed.

Lemma fs_read_write_other (fs : FS) (p q : string) (f : file) :
  q <> p -> fs_read (fs_write fs p f) q = fs_read fs q.
Proof.
  intros Hne. unfold fs_write. simpl.
  apply String.eqb_neq in Hne. rewrite Hne.
  rewrite (fs_read_filter (fun s => negb (String.eqb p s))).
  rewrite String.eqb_sym, Hne. reflexivity.
Qed.

(** ** Invalid points *)

Lemma checkValidOutput_eq (p : plasma3D) (psimin : list R) :
  p3_psimin p = Some psimin ->
  checkValidOutput p = Ok (map (fun v => Np.eqb v 10) psimin).
Proof.
  intros Hp. unfold checkValidOutput. rewrite Hp. cbn [bind attr].
  rewrite <- (length_map (fun v => Np.eqb v 10) psimin).
  rewrite put_where_full. f_equal.
  rewrite <- (map_id (map (fun v => Np.eqb v 10) psimin)) at 2.
  apply map_ext. now intros [|].
Qed.

Lemma count_negb (m : list bool) :
  (Np.count (map negb m) + Np.count m = length m)%nat.
Proof.
  unfold Np.count. induction m as [| [|] m IH]; simpl; lia.
Qed.

(** X9.  The mask of [plasma3D.checkValidOutput] is the complement of the mask
    that [heatflux3D.updateLaminarData] stores as [good] for the same
    [psimin]: every point is counted as invalid by the one or as good by
    the other, never both. *)
Theorem checkValidOutput_complements_good (p : plasma3D) (hf0 hf : heatflux3D)
  (psimin Lc : list R) :
  p3_psimin p = Some psimin ->
  updateLaminarData hf0 psimin Lc = Ok hf ->
  exists invalid good,
    checkValidOutput p = Ok invalid /\ hf_good hf = Some good /\
    good = map negb invalid /\
    (Np.count invalid + Np.count good = length psimin)%nat.
Proof.
  intros Hp Hupd.
  apply updateLaminarData_inv in Hupd. destruct Hupd as [_ [_ [_ [Hgood _]]]].
  exists (map (fun v => Np.eqb v 10) psimin), (map negb (map (fun v => Np.eqb v 10) psimin)).
  split; [now apply checkValidOutput_eq |]. split.
  - rewrite Hgood, map_map. reflexivity.
  - split; [reflexivity |].
    rewrite Nat.add_comm, count_negb, length_map. reflexivity.
Qed.

Lemma checkValidOutput_complements_good_witness :
  exists hf invalid,
    updateLaminarData hf_flat scenario_psimin scenario_Lc = Ok hf /\
    checkValidOutput (set_psimin p3_run scenario_psimin) = Ok invalid /\
    hf_good hf = Some (map negb invalid).
Proof.
  destruct scenario_traced as [hf [Hupd _]].
  destruct (checkValidOutput_complements_good (set_psimin p3_run scenario_psimin)
              hf_flat hf scenario_psimin scenario_Lc eq_refl Hupd)
    as [invalid [good [Hinv [Hgood [Heq _]]]]].
  exists hf, invalid. split; [exact Hupd |]. split; [exact Hinv |].
  rewrite Hgood, Heq. reflexivity.
Defined.

(** ** The points file *)

Lemma point_rows_Ok (Rs : list R) :
  forall phi Zs, (length Rs <= length phi)%nat -> (length Rs <= length Zs)%nat ->
    exists rows, point_rows Rs phi Zs = Ok rows /\ length rows = length Rs /\
      forall i r, nth_error Rs i = Some r ->
        nth_error rows i = Some [r; nth i phi 0; nth i Zs 0].
Proof.
  induction Rs as [| r Rs IH]; intros phi Zs Hp Hz.
  - exists []. split; [reflexivity |]. split; [reflexivity |].
    intros [| i] r0 E; discriminate E.
  - destruct phi as [| f phi]; [simpl in Hp; lia |].
    destruct Zs as [| z Zs]; [simpl in Hz; lia |].
    destruct (IH phi Zs) as [rows [E [Hlen Hnth]]]; [simpl in *; lia | simpl in *; lia |].
    exists ([r; f; z] :: rows). simpl. rewrite E. cbn [bind].
    split; [reflexivity |]. split; [now rewrite Hlen |].
    intros [| i] r0 Hr; simpl in *.
    + now inversion Hr.
    + now apply Hnth.
Qed.

Lemma point_rows_short (Rs : list R) :
  forall phi Zs, (length phi < length Rs)%nat \/ (length Zs < length Rs)%nat ->
    point_rows Rs phi Zs = Raise IndexError.
Proof.
  induction Rs as [| r Rs IH]; intros phi Zs Hs.
  - simpl in Hs. lia.
  - destruct phi as [| f phi]; [reflexivity |].
    destruct Zs as [| z Zs]; [reflexivity |].
    simpl. rewrite IH; [reflexivity | simpl in Hs; lia].
Qed.

(** X10.  [updatePoints] takes the number of points from [R] alone.  When [phi]
    and [Z] are at least as long it stores the three arrays as given and
    writes a points file whose header count and number of rows are both
    [len(R)], row [i] holding [R[i]], [phi[i]], [Z[i]]; further entries of
    [phi] and [Z] are left out of the file, and no other file changes. *)
Theorem updatePoints_writes_len_R_rows (p : plasma3D) (fs : FS) (Rs phi Zs : list R) :
  (length Rs <= length phi)%nat -> (length Rs <= length Zs)%nat ->
  exists fs' rows,
    updatePoints p fs Rs phi Zs = Ok (set_points p Rs phi Zs, fs') /\
    fs_read fs' (p3_cwd p +s+ "/" +s+ "points3DHF.dat")
    = Some (PointsFile (length Rs) rows) /\
    length rows = length Rs /\
    (forall i r, nth_error Rs i = Some r ->
       nth_error rows i = Some [r; nth i phi 0; nth i Zs 0]) /\
    (forall q, q <> p3_cwd p +s+ "/" +s+ "points3DHF.dat" -> fs_read fs' q = fs_read fs q).
Proof.
  intros Hp Hz.
  destruct (point_rows_Ok Rs phi Zs Hp Hz) as [rows [E [Hlen Hnth]]].
  exists (fs_write fs (p3_cwd p +s+ "/" +s+ "points3DHF.dat") (PointsFile (length Rs) rows)),
         rows.
  split.
  - unfold updatePoints, writePoints. cbn [set_points p3_R p3_phi p3_Z p3_cwd bind attr method].
    rewrite E. reflexivity.
  - split; [apply fs_read_write_same |]. split; [exact Hlen |]. split; [exact Hnth |].
    intros q Hq. now apply fs_read_write_other.
Qed.

Lemma updatePoints_writes_len_R_rows_witness :
  exists fs' rows,
    updatePoints p3_run [] [1.0; 1.1] [0; 0; 90] [0.5; 0.6] = Ok
      (set_points p3_run [1.0; 1.1] [0; 0; 90] [0.5; 0.6], fs') /\
    fs_read fs' "run/points3DHF.dat" = Some (PointsFile 2 rows) /\
    length rows = 2%nat.
Proof.
  destruct (updatePoints_writes_len_R_rows p3_run [] [1.0; 1.1] [0; 0; 90] [0.5; 0.6])
    as [fs' [rows [Hup [Hread [Hlen _]]]]]; [simpl; lia | simpl; lia |].
  exists fs', rows. split; [exact Hup |]. split; [exact Hread | exact Hlen].
Defined.

(** X11.  When [phi] or [Z] is shorter than [R], [updatePoints] raises an
    [IndexError] while it writes the rows. *)
Theorem updatePoints_short_raises (p : plasma3D) (fs : FS) (Rs phi Zs : list R) :
  (length phi < length Rs)%nat \/ (length Zs < length Rs)%nat ->
  updatePoints p fs Rs phi Zs = Raise IndexError.
Proof.
  intros Hs. unfold updatePoints, writePoints.
  cbn [set_points p3_R p3_phi p3_Z p3_cwd bind attr method].
  rewrite (point_rows_short Rs phi Zs Hs). reflexivity.
Qed.

Lemma updatePoints_short_raises_witness :
  updatePoints p3_run [] [1.0; 1.1] [0] [0.5; 0.6] = Raise IndexError.
Proof.
  apply updatePoints_short_raises. left. simpl. lia.
Defined.

(** ** Reading the trace *)

(** X12.  A result file with fewer than two data rows cannot be read:
    [np.genfromtxt] then returns a one-dimensional array and the column
    access [lamdata[:,3]] raises an [IndexError], so a trace of a single
    point is never stored. *)
Theorem readLaminar_single_row_raises (p : plasma3D) (fs : FS) (tag path : option string)
  (f : file) (rows : list (list R)) :
  fs_read fs (lam_file p tag path) = Some f -> file_rows f = Ok rows ->
  (length rows <= 1)%nat ->
  readLaminar p fs tag path = Raise IndexError.
Proof.
  intros Hf Hrows Hlen. unfold readLaminar. rewrite Hf.
  unfold genfromtxt. rewrite Hrows. cbn [bind].
  destruct rows as [| r0 [| r1 rows]]; [reflexivity | reflexivity | simpl in Hlen; lia].
Qed.

Lemma readLaminar_single_row_raises_witness :
  readLaminar p3_run [("run/lam_.dat"%string, TableFile [[1.0; 0; 0.5; 0.05; 0.9]])]
    None None = Raise IndexError.
Proof.
  apply (readLaminar_single_row_raises p3_run _ None None
           (TableFile [[1.0; 0; 0.5; 0.05; 0.9]]) [[1.0; 0; 0.5; 0.05; 0.9]]).
  - reflexivity.
  - reflexivity.
  - simpl. lia.
Defined.

(** X13.  Whatever [readLaminar] stores from a result file is accepted by
    [heatflux3D.updateLaminarData]: the two arrays have one length, every
    point gets a flag, and the flags for invalid points agree with
    [checkValidOutput]. *)
Theorem readLaminar_feeds_updateLaminarData (p p' : plasma3D) (fs : FS)
  (tag path : option string) (out : list string) (f : file) (hf0 : heatflux3D) :
  fs_read fs (lam_file p tag path) = Some f ->
  readLaminar p fs tag path = Ok (p', out) ->
  exists psimin Lc hf invalid,
    p3_psimin p' = Some psimin /\ p3_Lc p' = Some Lc /\
    updateLaminarData hf0 psimin Lc = Ok hf /\
    hf_N hf = length psimin /\
    checkValidOutput p' = Ok invalid /\ hf_good hf = Some (map negb invalid).
Proof.
  intros Hf Hread. unfold readLaminar in Hread. rewrite Hf in Hread.
  apply bind_Ok in Hread. destruct Hread as [a [Ha E]].
  apply bind_Ok in E. destruct E as [Lc [HLc E]].
  apply bind_Ok in E. destruct E as [psimin [Hps E]].
  inversion E; subst p' out; clear E.
  assert (Hrows : exists rows, file_rows f = Ok rows).
  { unfold genfromtxt in Ha. destruct (file_rows f) as [rows | e]; [| discriminate Ha].
    now exists rows. }
  destruct Hrows as [rows Hrows].
  destruct (genfromtxt_A2 f rows a 3 Lc Hrows Ha HLc) as [_ ->].
  destruct (genfromtxt_A2 f rows a 4 psimin Hrows Ha Hps) as [_ ->].
  set (ps := map (fun r => nth 4 r 0) rows). set (L := map (fun r => nth 3 r 0) rows).
  assert (Hlen : length ps = length L) by (unfold ps, L; now rewrite !length_map).
  exists ps, L. eexists. exists (map (fun v => Np.eqb v 10) ps).
  split; [reflexivity |]. split; [reflexivity |].
  split; [apply (updateLaminarData_eq hf0 ps L Hlen) |].
  split; [reflexivity |].
  split; [now apply checkValidOutput_eq |].
  simpl. rewrite map_map. reflexivity.
Qed.

Lemma readLaminar_feeds_updateLaminarData_witness :
  exists p' psimin Lc hf,
    readLaminar p3_run [("run/lam_.dat"%string, TableFile three_rows)] None None
    = Ok (p', []) /\
    p3_psimin p' = Some psimin /\ p3_Lc p' = Some Lc /\
    updateLaminarData hf_flat psimin Lc = Ok hf.
Proof.
  assert (Hread : readLaminar p3_run [("run/lam_.dat"%string, TableFile three_rows)]
                    None None
                  = Ok (set_psimin (set_Lc p3_run (map (fun r => nth 3 r 0) three_rows))
                                   (map (fun r => nth 4 r 0) three_rows), []))
    by reflexivity.
  destruct (readLaminar_feeds_updateLaminarData p3_run _
              [("run/lam_.dat"%string, TableFile three_rows)] None None []
              (TableFile three_rows) hf_flat eq_refl Hread)
    as [psimin [Lc [hf [invalid [Hps [HLc [Hupd _]]]]]]].
  eexists. exists psimin, Lc, hf.
  split; [exact Hread |]. split; [exact Hps |]. split; [exact HLc | exact Hupd].
Defined.

(** ** Removing the logs *)

Lemma prefix_append (d s : string) : String.prefix d (d +s+ s) = true.
Proof.
  induction d as [| c d IH]; simpl.
  - now destruct s.
  - destruct (Ascii.ascii_dec c c) as [_ | Hne]; [exact IH | now elim Hne].
Qed.

Lemma substring_all (s : string) : String.substring 0 (String.length s) s = s.
Proof.
  induction s as [| c s IH]; simpl; [reflexivity | now rewrite IH].
Qed.

Lemma substring_append (d s : string) :
  String.substring (String.length d) (String.length (d +s+ s) - String.length d) (d +s+ s) = s.
Proof.
  induction d as [| c d IH]; simpl.
  - rewrite Nat.sub_0_r. apply substring_all.
  - exact IH.
Qed.

Lemma name_in_append (dir name : string) :
  name_in dir (dir +s+ "/" +s+ name) = if contains "/" name then None else Some name.
Proof.
  unfold name_in.
  replace (dir +s+ "/" +s+ name) with ((dir +s+ "/") +s+ name).
  - rewrite prefix_append, substring_append. reflexivity.
  - induction dir as [| c dir IH]; simpl; [reflexivity | now rewrite IH].
Qed.

Lemma fs_read_remove_logs (fs : FS) (dir q : string) :
  fs_read (remove_logs fs dir) q
  = match name_in dir q with
    | Some name => if String.prefix "log" name then None else fs_read fs q
    | None => fs_read fs q
    end.
Proof.
  unfold remove_logs.
  rewrite (fs_read_filter (fun s => match name_in dir s with
                                    | Some name => negb (String.prefix "log" name)
                                    | None => true
                                    end)).
  destruct (name_in dir q) as [name |]; [| reflexivity].
  now destruct (String.prefix "log" name).
Qed.

(** The result file of a trace is no log: removing the logs of a
    directory keeps [lam_<tag>.dat] there. *)
Lemma remove_logs_keeps_lam (fs : FS) (dir tag : string) :
  fs_read (remove_logs fs dir) (dir +s+ "/" +s+ "lam_" +s+ tag +s+ ".dat")
  = fs_read fs (dir +s+ "/" +s+ "lam_" +s+ tag +s+ ".dat").
Proof.
  rewrite fs_read_remove_logs, name_in_append.
  destruct (contains "/" _); reflexivity.
Qed.

(** X14.  For a working directory whose name holds no pattern character of
    [glob] and no final slash, and which has no directory [log*],
    [cleanUp] removes exactly the files of the working directory whose name
    starts with [log]: such a file is gone afterwards, every other file,
    in the directory, below it or elsewhere, reads as before.  In
    particular the result file [lam_<tag>.dat] of every tag survives. *)
Theorem cleanUp_removes_only_logs (p : plasma3D) (fs : FS) (tag : option string) :
  has_magic (p3_cwd p) = false -> ends_with_slash (p3_cwd p) = false ->
  (forall q, In q (map fst fs) -> in_log_dir (p3_cwd p) q = false) ->
  (forall q,
     fs_read (cleanUp p fs tag) q
     = match name_in (p3_cwd p) q with
       | Some name => if String.prefix "log" name then None else fs_read fs q
       | None => fs_read fs q
       end) /\
  (forall t, fs_read (cleanUp p fs tag) (lam_file p t None) = fs_read fs (lam_file p t None)).
Proof.
  intros _ _ _. split.
  - intros q. apply fs_read_remove_logs.
  - intros t. unfold cleanUp, lam_file. apply remove_logs_keeps_lam.
Qed.

Lemma cleanUp_removes_only_logs_witness :
  fs_read (cleanUp p3_run [("run/log_Master.dat"%string, TextFile []);
                           ("run/lam_PFC.dat"%string, TableFile three_rows);
                           ("run/sub/log_1"%string, TextFile [])] None) "run/log_Master.dat"
  = None /\
  fs_read (cleanUp p3_run [("run/log_Master.dat"%string, TextFile []);
                           ("run/lam_PFC.dat"%string, TableFile three_rows);
                           ("run/sub/log_1"%string, TextFile [])] None) "run/sub/log_1"
  = Some (TextFile []) /\
  fs_read (cleanUp p3_run [("run/log_Master.dat"%string, TextFile []);
                           ("run/lam_PFC.dat"%string, TableFile three_rows);
                           ("run/sub/log_1"%string, TextFile [])] None) "run/lam_PFC.dat"
  = Some (TableFile three_rows).
Proof.
  destruct (cleanUp_removes_only_logs p3_run
              [("run/log_Master.dat"%string, TextFile []);
               ("run/lam_PFC.dat"%string, TableFile three_rows);
               ("run/sub/log_1"%string, TextFile [])] None) as [Hq Hlam].
  - reflexivity.
  - reflexivity.
  - intros q [<- | [<- | [<- | []]]]; reflexivity.
  - split; [rewrite Hq; reflexivity |]. split; [rewrite Hq; reflexivity |].
    exact (Hlam (Some "PFC"%string)).
Defined.

(** ** Waiting for the tracer, continued *)

(** X15.  The master log is looked for in the directory of the object, but
    [tail] is run on its bare name, that is in the directory of the
    interpreter: a master log that has no namesake there ends [isComplete]
    with the [CalledProcessError] of [tail]. *)
Theorem isComplete_tails_in_interpreter_dir (p : plasma3D) (w : world) (file : string)
  (rest : list string) :
  ends_with_slash (p3_cwd p) = false -> p3_cwd p <> ""%string ->
  filter (contains "_Master.dat") (listdir (w_fs w) (p3_cwd p +s+ "/")) = file :: rest ->
  fs_read (w_fs w) (w_pwd w +s+ "/" +s+ file) = None ->
  isComplete p w = Raise CalledProcessError.
Proof.
  intros Hslash Hne Hlist Hread. unfold isComplete.
  destruct (Nat.eqb (String.length (p3_cwd p)) 0) eqn:Hlen.
  - apply Nat.eqb_eq in Hlen. destruct (p3_cwd p); [now elim Hne | discriminate Hlen].
  - rewrite Hslash, Hlist. unfold tail. rewrite Hread. reflexivity.
Qed.

Lemma isComplete_tails_in_interpreter_dir_witness :
  isComplete
    {| p3_R := None; p3_phi := None; p3_Z := None; p3_psimin := None; p3_Lc := None;
       p3_cwd := "data" |}
    {| w_fs := [("data/log_Master.dat"%string,
                 TextFile ["Program terminates normally"%string])];
       w_ps := []; w_pwd := "run"; w_user := "heat" |}
  = Raise CalledProcessError.
Proof.
  apply (isComplete_tails_in_interpreter_dir _ _ "log_Master.dat"%string []).
  - reflexivity.
  - discriminate.
  - reflexivity.
  - reflexivity.
Defined.

Section WaitingMore.
Context `{Host}.

(** X16.  [wait2finish] treats a missing master log like a crashed run.  When
    no waiting and no restart ever brings a world in which [isComplete]
    finds the success marker, the call never returns: however deep the
    recursion and however long the waits, it ends in an exception or is
    still restarting. *)
Theorem wait2finish_never_returns (I : world -> Prop) (p : plasma3D) (nproc : nat)
  (tag : string) :
  (forall n w, I w -> I (sleep n w)) ->
  (forall args dir w w', I w -> run args dir w = Ok w' -> I w') ->
  (forall w, I w -> isComplete p w <> Ok (Some true)) ->
  forall depth fuel w w' cmds, I w ->
    wait2finish depth fuel p nproc tag w <> Some (Ok (w', cmds)).
Proof.
  intros Hsleep Hrun Hnot.
  assert (Hpoll : forall fuel w w1, I w -> poll fuel w = Some w1 -> I w1).
  { induction fuel as [| fuel IH]; intros w w1 Hw E; simpl in E; [discriminate E |].
    destruct (isProcessRunning w).
    - apply (IH (sleep 60 w)); [now apply Hsleep | exact E].
    - now inversion E; subst. }
  induction depth as [| depth IH]; intros fuel w w' cmds Hw E; simpl in E;
    [discriminate E |].
  destruct (poll fuel (sleep 5 w)) as [w1 |] eqn:Hp; [| discriminate E].
  assert (Hw1 : I w1) by (apply (Hpoll fuel (sleep 5 w)); [now apply Hsleep | exact Hp]).
  pose proof (Hnot w1 Hw1) as Hc.
  destruct (isComplete p w1) as [[[|] |] | e]; try discriminate E.
  - now elim Hc.
  - destruct (run (restart_args nproc tag) (w_pwd w1) w1) as [w2 | e] eqn:Hr;
      [| discriminate E].
    destruct (wait2finish depth fuel p nproc tag w2) as [[[w3 cmds'] | e] |] eqn:Hrec;
      try discriminate E.
    apply (IH fuel w2 w3 cmds' (Hrun _ _ _ _ Hw1 Hr) Hrec).
  - destruct (run (restart_args nproc tag) (w_pwd w1) w1) as [w2 | e] eqn:Hr;
      [| discriminate E].
    destruct (wait2finish depth fuel p nproc tag w2) as [[[w3 cmds'] | e] |] eqn:Hrec;
      try discriminate E.
    apply (IH fuel w2 w3 cmds' (Hrun _ _ _ _ Hw1 Hr) Hrec).
Qed.

End WaitingMore.

Lemma wait2finish_never_returns_witness :
  match @wait2finish host_static 3 2 p3_run 4 "PFC" w_idle with
  | Some (Ok _) => False
  | _ => True
  end.
Proof.
  destruct (@wait2finish host_static 3 2 p3_run 4 "PFC" w_idle) as [[[w' cmds] | e] |] eqn:E;
    [| exact I | exact I].
  apply (@wait2finish_never_returns host_static (fun w => w = w_idle) p3_run 4 "PFC"
           ltac:(intros n w Hw; exact Hw)
           ltac:(intros args dir w w0 Hw E0; cbv beta in *; inversion E0; congruence)
           ltac:(intros w Hw; cbv beta in Hw; subst w; discriminate)
           3%nat 2%nat w_idle w' cmds eq_refl E).
Defined.

(** * Further properties of the power balance and of the layer model *)

Section ScaleFactor.
Context `{SciPy} `{Host}.

(** The radial window of [scale_layer] exists whenever the grid of the
    equilibrium is not empty. *)
Lemma layer_window_Ok (hf : heatflux3D) (lq S Rlcfs : R) :
  g_R (hf_ep hf) <> [] -> exists Rmin Rmax, layer_window hf lq S Rlcfs = Ok (Rmin, Rmax).
Proof.
  intros Hg. unfold layer_window.
  destruct (g_R (hf_ep hf)) as [| x l]; [now elim Hg |].
  destruct (truthy (hf_HFS hf)); cbn [Np.amin Np.amax bind]; eexists; eexists; reflexivity.
Qed.

(** X18.  The radial window of [scale_layer] stays on one side of the magnetic
    axis and inside the grid of the equilibrium: on the low-field side it
    lies between the axis and the largest grid radius, on the high-field
    side between the smallest grid radius and the axis.  For widths that
    are not negative and an LCFS radius within these bounds, the window
    contains the LCFS radius. *)
Theorem layer_window_bounds (hf : heatflux3D) (lq S Rlcfs Rmin Rmax : R) :
  layer_window hf lq S Rlcfs = Ok (Rmin, Rmax) ->
  exists lo hi,
    (if truthy (hf_HFS hf)
     then Np.amin (g_R (hf_ep hf)) = Ok lo /\ hi = g_RmAxis (hf_ep hf)
     else lo = g_RmAxis (hf_ep hf) /\ Np.amax (g_R (hf_ep hf)) = Ok hi) /\
    lo <= Rmin /\ Rmax <= hi /\
    (0 <= lq -> 0 <= S -> lo <= Rlcfs <= hi -> Rmin <= Rlcfs <= Rmax).
Proof.
  unfold layer_window. intros E.
  destruct (truthy (hf_HFS hf)).
  - apply bind_Ok in E. destruct E as [lo [Hlo E]].
    inversion E; subst Rmin Rmax; clear E.
    exists lo, (g_RmAxis (hf_ep hf)). split; [split; [exact Hlo | reflexivity] |].
    unfold Np.ltb.
    destruct (Rlt_dec (Rlcfs - 20.0 * lq * 1e-3) lo);
      destruct (Rlt_dec (g_RmAxis (hf_ep hf)) (Rlcfs + 20.0 * S * 1e-3));
      repeat split; intros; try lra; nra.
  - apply bind_Ok in E. destruct E as [hi [Hhi E]].
    inversion E; subst Rmin Rmax; clear E.
    exists (g_RmAxis (hf_ep hf)), hi. split; [split; [reflexivity | exact Hhi] |].
    unfold Np.ltb.
    destruct (Rlt_dec (Rlcfs - 20.0 * S * 1e-3) (g_RmAxis (hf_ep hf)));
      destruct (Rlt_dec hi (Rlcfs + 20.0 * lq * 1e-3));
      repeat split; intros; try lra; nra.
Qed.


End ScaleFactor.

(** X20.  With a cached trace in [inputDir], [scale_layer] starts no tracer and
    writes nothing: its outcome does not depend on the host, and the world
    it returns is the one it was given. *)
Theorem scale_layer_reuses_trace `{SciPy} (H1 H2 : Host) (hf : heatflux3D) (w : world)
  (lq S P : R) (pfr : option R) :
  isfile (w_fs w) (layer_file hf) = true ->
  @scale_layer _ H1 hf w lq S P pfr = @scale_layer _ H2 hf w lq S P pfr /\
  forall q0 w', @scale_layer _ H1 hf w lq S P pfr = Ok (q0, w') -> w' = w.
Proof.
  intros Hfile.
  assert (Ht : forall (Hh : Host) Rs Zs, @layer_trace Hh hf w (layer_tag hf) Rs Zs = Ok w).
  { intros Hh Rs Zs. unfold layer_trace. fold (layer_file hf). now rewrite Hfile. }
  split.
  - unfold scale_layer.
    destruct (map_R_psi_scalar hf (hf_lcfs hf)) as [Rlcfs | e]; [| reflexivity].
    cbn [bind].
    destruct (layer_window hf lq S Rlcfs) as [[Rmin Rmax] | e]; [| reflexivity].
    cbn [bind]. rewrite !Ht. reflexivity.
  - intros q0 w' E. unfold scale_layer in E.
    apply bind_Ok in E. destruct E as [Rlcfs [_ E]].
    apply bind_Ok in E. destruct E as [[Rmin Rmax] [_ E]].
    rewrite Ht in E. cbn [bind] in E.
    apply bind_Ok in E. destruct E as [psimin [_ E]].
    apply bind_Ok in E. destruct E as [q_hat [_ E]].
    apply bind_Ok in E. destruct E as [[] [_ E]].
    now inversion E.
Qed.

(** ** Worked runs of the layer model *)

Lemma midplane_psiN_map (hf : heatflux3D) (Rs : list R) :
  midplane_psiN hf Rs
  = map (fun r => psiFunc_ev (hf_ep hf) r (g_ZmAxis (hf_ep hf) * 1)) Rs.
Proof.
  unfold midplane_psiN, midplane_Z, Np.full.
  induction Rs as [| r Rs IH]; simpl; [reflexivity | now rewrite IH].
Qed.

Lemma increasing_map_seq (f : nat -> R) (n : nat) :
  (forall i, f i < f (S i)) -> forall k, increasing (map f (seq k n)) = true.
Proof.
  intros Hf. induction n as [| n IH]; intros k; [reflexivity |].
  destruct n as [| n]; [reflexivity |].
  specialize (IH (S k)).
  cbn [seq map increasing] in IH |- *.
  rewrite IH, andb_true_r. unfold Np.ltb.
  destruct (Rlt_dec (f k) (f (S k))) as [_ | Hn]; [reflexivity | elim Hn; apply Hf].
Qed.

(** On the slab the first-order spline accepts the midplane data of the
    low-field side. *)
Lemma slab_spline_Ok (hf : heatflux3D) :
  hf_ep hf = ep_slab -> truthy (hf_HFS hf) = false ->
  exists f, @map_R_psi_f scipy_linear hf None = Ok f.
Proof.
  intros Hep Hlfs. unfold map_R_psi_f. rewrite Hlfs, Hep.
  cbn [UnivariateSpline scipy_linear]. unfold spline_linear.
  rewrite midplane_psiN_map, length_map, length_linspace.
  cbn [Nat.eqb Nat.leb negb].
  rewrite linspace_map, map_map, increasing_map_seq.
  - eexists. reflexivity.
  - intros i. rewrite Hep. cbn [psiFunc_ev ep_slab g_RmAxis g_R1 g_Xdim].
    rewrite S_INR.
    assert (Hstep : 0 < (0.5 + 2 - 1) / INR (100 - 1)).
    { apply Rdiv_lt_0_compat; [lra | apply lt_0_INR; lia]. }
    lra.
Qed.

Lemma layer_window_bounds_witness :
  exists lo hi,
    layer_window hf_eich 5 2 1.97 = Ok (lo, hi) /\
    1 <= lo /\ lo <= 1.97 <= hi.
Proof.
  destruct (layer_window_Ok hf_eich 5 2 1.97) as [a [b Hwin]]; [discriminate |].
  exists a, b. split; [exact Hwin |].
  destruct (layer_window_bounds hf_eich 5 2 1.97 a b Hwin)
    as [lo [hi [Hb [Hlo [Hhi Hin]]]]].
  cbn [truthy hf_HFS hf_eich] in Hb. destruct Hb as [-> Hmax].
  cbn [hf_ep hf_eich g_R g_RmAxis ep_slab Np.amax fold_left] in *.
  inversion Hmax; subst hi; clear Hmax.
  split; [exact Hlo |].
  apply Hin; try lra.
  split; [lra |]. unfold Rmax. destruct (Rle_dec 0.5 2.5); lra.
Defined.


Lemma scale_layer_reuses_trace_witness :
  @scale_layer scipy_linear host_static hf_eich
    (with_fs w_idle [("run/lam_lfs_mp.dat"%string, TableFile three_rows)]) 5 2 10 (Some 1.0)
  = @scale_layer scipy_linear host_flaky hf_eich
      (with_fs w_idle [("run/lam_lfs_mp.dat"%string, TableFile three_rows)]) 5 2 10 (Some 1.0).
Proof.
  apply (@scale_layer_reuses_trace scipy_linear host_static host_flaky hf_eich
           (with_fs w_idle [("run/lam_lfs_mp.dat"%string, TableFile three_rows)]) 5 2 10
           (Some 1.0)).
  reflexivity.
Defined.

(** * The boundary box, the launch and the copy of a trace *)

Lemma fold_left_Rmax_spec (l : list R) :
  forall x, (forall y, In y (x :: l) -> y <= fold_left Rmax l x) /\
            In (fold_left Rmax l x) (x :: l).
Proof.
  induction l as [| a l IH]; intros x; simpl.
  - split; [intros y [-> | []]; lra | now left].
  - destruct (IH (Rmax x a)) as [Hle Hin]. split.
    + intros y [-> | [-> | Hy]].
      * apply Rle_trans with (Rmax y a); [apply Rmax_l | apply Hle; now left].
      * apply Rle_trans with (Rmax x y); [apply Rmax_r | apply Hle; now left].
      * apply Hle. now right.
    + destruct Hin as [E | Hin]; [| now right; right].
      rewrite <- E. unfold Rmax. destruct (Rle_dec x a); [right; now left | now left].
Qed.

Lemma fold_left_Rmin_spec (l : list R) :
  forall x, (forall y, In y (x :: l) -> fold_left Rmin l x <= y) /\
            In (fold_left Rmin l x) (x :: l).
Proof.
  induction l as [| a l IH]; intros x; simpl.
  - split; [intros y [-> | []]; lra | now left].
  - destruct (IH (Rmin x a)) as [Hle Hin]. split.
    + intros y [-> | [-> | Hy]].
      * apply Rle_trans with (Rmin y a); [apply Hle; now left | apply Rmin_l].
      * apply Rle_trans with (Rmin x y); [apply Hle; now left | apply Rmin_r].
      * apply Hle. now right.
    + destruct Hin as [E | Hin]; [| now right; right].
      rewrite <- E. unfold Rmin. destruct (Rle_dec x a); [now left | right; now left].
Qed.

Lemma amax_spec (l : list R) (m : R) :
  Np.amax l = Ok m -> (forall y, In y l -> y <= m) /\ In m l.
Proof.
  destruct l as [| x l]; [discriminate |]. intros E. inversion E; subst.
  apply fold_left_Rmax_spec.
Qed.

Lemma amin_spec (l : list R) (m : R) :
  Np.amin l = Ok m -> (forall y, In y l -> m <= y) /\ In m l.
Proof.
  destruct l as [| x l]; [discriminate |]. intros E. inversion E; subst.
  apply fold_left_Rmin_spec.
Qed.

(** X21.  [setBoundaryBox] returns the smallest box that holds the wall of the
    first equilibrium and the extent of the CAD: every wall point and the
    four CAD limits lie inside, and each side of the box is a CAD limit or
    a coordinate of a wall point.  Walls of later equilibria are not read. *)
Theorem setBoundaryBox_encloses (walls : list (list (R * R))) (cad : CADbox) (bb : bbox) :
  setBoundaryBox walls cad = Ok bb ->
  exists wall rest rmin rmax zmin zmax,
    walls = wall :: rest /\
    bbRmin bb = Some rmin /\ bbRmax bb = Some rmax /\
    bbZmin bb = Some zmin /\ bbZmax bb = Some zmax /\
    (forall r z, In (r, z) wall -> rmin <= r <= rmax /\ zmin <= z <= zmax) /\
    (rmin <= cad_Rmin cad /\ cad_Rmax cad <= rmax /\
     zmin <= cad_Zmin cad /\ cad_Zmax cad <= zmax) /\
    (rmin = cad_Rmin cad \/ In rmin (map fst wall)) /\
    (rmax = cad_Rmax cad \/ In rmax (map fst wall)) /\
    (zmin = cad_Zmin cad \/ In zmin (map snd wall)) /\
    (zmax = cad_Zmax cad \/ In zmax (map snd wall)).
Proof.
  unfold setBoundaryBox. destruct walls as [| wall rest]; [discriminate |]. intros E.
  apply bind_Ok in E. destruct E as [r1 [H1 E]].
  apply bind_Ok in E. destruct E as [r2 [H2 E]].
  apply bind_Ok in E. destruct E as [z1 [H3 E]].
  apply bind_Ok in E. destruct E as [z2 [H4 E]].
  inversion E; subst bb; clear E. cbn [bbRmin bbRmax bbZmin bbZmax].
  apply amin_spec in H1. apply amax_spec in H2.
  apply amin_spec in H3. apply amax_spec in H4.
  destruct H1 as [H1 I1], H2 as [H2 I2], H3 as [H3 I3], H4 as [H4 I4].
  exists wall, rest, (Rmin (cad_Rmin cad) r1), (Rmax (cad_Rmax cad) r2),
         (Rmin (cad_Zmin cad) z1), (Rmax (cad_Zmax cad) z2).
  repeat (split; [reflexivity |]).
  split.
  { intros r z Hin.
    assert (Hr : In r (map fst wall)) by (apply (in_map fst) in Hin; exact Hin).
    assert (Hz : In z (map snd wall)) by (apply (in_map snd) in Hin; exact Hin).
    pose proof (H1 r Hr). pose proof (H2 r Hr). pose proof (H3 z Hz). pose proof (H4 z Hz).
    pose proof (Rmin_r (cad_Rmin cad) r1). pose proof (Rmax_r (cad_Rmax cad) r2).
    pose proof (Rmin_r (cad_Zmin cad) z1). pose proof (Rmax_r (cad_Zmax cad) z2).
    lra. }
  split.
  { pose proof (Rmin_l (cad_Rmin cad) r1). pose proof (Rmax_l (cad_Rmax cad) r2).
    pose proof (Rmin_l (cad_Zmin cad) z1). pose proof (Rmax_l (cad_Zmax cad) z2).
    lra. }
  repeat split.
  - unfold Rmin. destruct (Rle_dec (cad_Rmin cad) r1); [now left | now right].
  - unfold Rmax. destruct (Rle_dec (cad_Rmax cad) r2); [now right | now left].
  - unfold Rmin. destruct (Rle_dec (cad_Zmin cad) z1); [now left | now right].
  - unfold Rmax. destruct (Rle_dec (cad_Zmax cad) z2); [now right | now left].
Qed.

Lemma setBoundaryBox_encloses_witness :
  exists bb rmin rmax,
    setBoundaryBox [[(1.0, -1.5); (2.4, 0); (1.2, 1.5)]]
      {| cad_Rmin := 1.1; cad_Rmax := 2.6; cad_Zmin := -1; cad_Zmax := 1 |} = Ok bb /\
    bbRmin bb = Some rmin /\ bbRmax bb = Some rmax /\ rmin <= 2.4 <= rmax.
Proof.
  eexists.
  assert (E : setBoundaryBox [[(1.0, -1.5); (2.4, 0); (1.2, 1.5)]]
                {| cad_Rmin := 1.1; cad_Rmax := 2.6; cad_Zmin := -1; cad_Zmax := 1 |}
              = Ok _) by reflexivity.
  destruct (setBoundaryBox_encloses _ _ _ E)
    as [wall [rest [rmin [rmax [zmin [zmax [Hw [Hrmin [Hrmax [_ [_ [Hin _]]]]]]]]]]]].
  exists rmin, rmax. split; [exact E |]. split; [exact Hrmin |]. split; [exact Hrmax |].
  inversion Hw; subst wall rest.
  apply (Hin 2.4 0). right. now left.
Defined.

Section LaunchProperties.
Context `{Host} `{PyRepr}.

(** X22.  [launchLaminar] never starts more than twenty processes: a larger
    [nproc] gives the same files, the same command, the same recorded
    [nproc] and the same result as [nproc = 20]. *)
Theorem launchLaminar_caps_nproc (p : plasma3D) (m : mafot) (w : world) (nproc : nat)
  (tag : option string) (MapDirection : Z) :
  (20 <= nproc)%nat ->
  launchLaminar p m w nproc tag MapDirection = launchLaminar p m w 20 tag MapDirection /\
  forall p' m' w' out,
    launchLaminar p m w nproc tag MapDirection = Ok (p', m', w', out) ->
    m_nproc m' = Some 20%nat.
Proof.
  intros Hn.
  assert (Hc : (if Nat.ltb 20 nproc then 20%nat else nproc) = 20%nat).
  { destruct (Nat.ltb 20 nproc) eqn:E; [reflexivity |].
    apply Nat.ltb_ge in E. lia. }
  split.
  - unfold launchLaminar. rewrite Hc. reflexivity.
  - intros p' m' w' out E. unfold launchLaminar in E. rewrite Hc in E.
    apply bind_Ok in E. destruct E as [fs2 [_ E]].
    apply bind_Ok in E. destruct E as [w1 [_ E]].
    apply bind_Ok in E. destruct E as [[p1 out1] [_ E]].
    inversion E; subst. reflexivity.
Qed.

(** X23.  [launchLaminar] does not notice a failed trace.  When the tracer ends
    without leaving [lam_<tag>.dat] in the working directory, the call
    still returns normally and prints that the tracing is complete: the
    missing file is only reported in a printed line, and [Lc] and [psimin]
    keep whatever an earlier trace had stored. *)
Theorem launchLaminar_without_output (p : plasma3D) (m : mafot) (w w1 : world)
  (nproc : nat) (tag : option string) (MapDirection : Z) (fs2 : FS) :
  let t := match tag with None => ""%string | Some t => t end in
  let n := if Nat.ltb 20 nproc then 20%nat else nproc in
  writeM3DC1supFile p m (writeControlFile p m (w_fs w) MapDirection) = Ok fs2 ->
  run (launch_args (set_launch m n t) n t) (p3_cwd p) (with_fs w fs2) = Ok w1 ->
  fs_read (w_fs w1) (lam_file p (Some t) None) = None ->
  launchLaminar p m w nproc tag MapDirection
  = Ok (p, set_launch m n t, w1,
        ["Launching 3D plasma field line tracing";
         "MAFOT output file: " +s+ lam_file p (Some t) None +s+ " not found!";
         "3D plasma field line tracing complete"]%string).
Proof.
  intros t n Hsup Hrun Hnone. unfold launchLaminar. fold t. rewrite Hsup. cbn [bind].
  fold n. rewrite Hrun. cbn [bind]. unfold readLaminar. rewrite Hnone. reflexivity.
Qed.

End LaunchProperties.

Lemma launchLaminar_caps_nproc_witness :
  @launchLaminar host_static repr_hidden p3_run (mafot_default 204118 4 "run/g204118.00004")
    w_idle 64 None 0
  = @launchLaminar host_static repr_hidden p3_run (mafot_default 204118 4 "run/g204118.00004")
      w_idle 20 None 0.
Proof.
  apply (@launchLaminar_caps_nproc host_static repr_hidden p3_run
           (mafot_default 204118 4 "run/g204118.00004") w_idle 64 None 0).
  lia.
Defined.

Lemma launchLaminar_without_output_witness :
  exists m w1 out,
    @launchLaminar host_static repr_hidden
      (set_psimin (set_Lc p3_run scenario_Lc) scenario_psimin)
      (mafot_default 204118 4 "run/g204118.00004") w_idle 4 (Some "PFC"%string) 0
    = Ok (set_psimin (set_Lc p3_run scenario_Lc) scenario_psimin, m, w1, out) /\
    last out ""%string = "3D plasma field line tracing complete"%string.
Proof.
  eexists. eexists. eexists. split.
  - eapply (@launchLaminar_without_output host_static repr_hidden
              (set_psimin (set_Lc p3_run scenario_Lc) scenario_psimin)
              (mafot_default 204118 4 "run/g204118.00004") w_idle _ 4 (Some "PFC"%string) 0).
    + reflexivity.
    + reflexivity.
    + reflexivity.
  - reflexivity.
Defined.

(** ** Strings as paths *)

Lemma append_inj_l (d a b : string) : d +s+ a = d +s+ b -> a = b.
Proof.
  induction d as [| c d IH]; simpl; intros E; [exact E |].
  injection E as E. now apply IH.
Qed.

Lemma contains_slash_cons (c : ascii) (s : string) :
  contains "/" (String c s) = (Ascii.eqb c "/" || contains "/" s).
Proof.
  cbn [contains String.prefix].
  destruct (Ascii.ascii_dec "/" c) as [<- | Hne].
  - simpl. now destruct s.
  - destruct (Ascii.eqb c "/") eqn:E; [| reflexivity].
    apply Ascii.eqb_eq in E. now elim Hne.
Qed.

Lemma contains_slash_append (a b : string) :
  contains "/" (a +s+ b) = (contains "/" a || contains "/" b).
Proof.
  induction a as [| c a IH].
  - simpl. destruct b; reflexivity.
  - change (String c a +s+ b) with (String c (a +s+ b)).
    rewrite !contains_slash_cons, IH. now rewrite orb_assoc.
Qed.

(** A path splits in one way into a directory and a name without slash. *)
Lemma split_last_slash (A B a b : string) :
  A +s+ "/" +s+ a = B +s+ "/" +s+ b ->
  contains "/" a = false -> contains "/" b = false -> A = B /\ a = b.
Proof.
  revert B. induction A as [| c A IH]; intros [| c' B] E Ha Hb; simpl in E.
  - injection E as E. now split.
  - injection E as Ec E. subst a.
    rewrite contains_slash_append, contains_slash_cons in Ha.
    rewrite orb_true_r in Ha. discriminate Ha.
  - injection E as Ec E. subst b.
    rewrite contains_slash_append, contains_slash_cons in Hb.
    rewrite orb_true_r in Hb. discriminate Hb.
  - injection E as Ec E. subst c'.
    destruct (IH B E Ha Hb) as [-> ->]. now split.
Qed.

Lemma lam_name_no_slash (t : string) :
  contains "/" t = false -> contains "/" ("lam_" +s+ t +s+ ".dat") = false.
Proof.
  intros Ht.
  change ("lam_" +s+ t +s+ ".dat")
    with (String "l" (String "a" (String "m" (String "_" (t +s+ ".dat"))))).
  rewrite !contains_slash_cons, contains_slash_append, Ht. reflexivity.
Qed.

Lemma readLaminar_ext (p : plasma3D) (fs fs' : FS) (tag path : option string) :
  fs_read fs (lam_file p tag path) = fs_read fs' (lam_file p tag path) ->
  readLaminar p fs tag path = readLaminar p fs' tag path.
Proof.
  intros E. unfold readLaminar. now rewrite E.
Qed.

Lemma path_file_neq (A B a b : string) :
  contains "/" a = false -> contains "/" b = false ->
  A <> B \/ a <> b -> A +s+ "/" +s+ a <> B +s+ "/" +s+ b.
Proof.
  intros Ha Hb Hne E. destruct (split_last_slash A B a b E Ha Hb) as [E1 E2].
  destruct Hne as [Hne | Hne]; now elim Hne.
Qed.

(** ** Loading an earlier trace *)

Section CopyAndRead.
Context `{Paths}.

(** A copy that is made, or skipped for want of a source, changes at most
    the destination. *)
Lemma copy_if_file_other (fs fs' : FS) (src dst q : string) :
  copy_if_file fs src dst = Some fs' -> q <> dst -> fs_read fs' q = fs_read fs q.
Proof.
  unfold copy_if_file. intros E Hq.
  destruct (fs_read fs src) as [f |]; [| now inversion E].
  destruct (samefile src dst); [discriminate E |].
  inversion E; subst. now apply fs_read_write_other.
Qed.

Lemma copy_if_file_Some (fs : FS) (src dst : string) :
  samefile src dst = false -> exists fs', copy_if_file fs src dst = Some fs'.
Proof.
  intros Hne. unfold copy_if_file.
  destruct (fs_read fs src) as [f |]; [| now exists fs].
  rewrite Hne. eexists. reflexivity.
Qed.

(** Two names of one file may differ, two names of different files do. *)
Lemma samefile_false_neq (a b : string) : samefile a b = false -> a <> b.
Proof.
  intros Hs ->. rewrite samefile_refl in Hs. discriminate Hs.
Qed.

(** X24.  From a directory whose three files are other files than those of the
    working directory, and which holds the result file, [copyAndRead]
    stores what [readLaminar] would read at the source, and leaves a copy
    of the result file in the working directory. *)
Theorem copyAndRead_reads_source (p : plasma3D) (fs : FS) (path : string)
  (tag : option string) (f : file) :
  let t := match tag with None => ""%string | Some t => t end in
  samefile (path +s+ "/" +s+ "_lamCTL.dat") (p3_cwd p +s+ "/" +s+ "_lamCTL.dat") = false ->
  samefile (path +s+ "/" +s+ "m3dc1sup.in") (p3_cwd p +s+ "/" +s+ "m3dc1sup.in") = false ->
  samefile (lam_file p (Some t) (Some path)) (lam_file p (Some t) None) = false ->
  contains "/" t = false ->
  fs_read fs (lam_file p (Some t) (Some path)) = Some f ->
  exists fs',
    copyAndRead p fs path tag
    = Some ('(p', out) <- readLaminar p fs (Some t) (Some path) ;;
            Ok (p', fs',
                ["Copy and load 3D MAFOT Laminar data from file: "
                 +s+ lam_file p (Some t) (Some path)] ++ out)) /\
    fs_read fs' (lam_file p (Some t) None) = Some f.
Proof.
  intros t Hs1 Hs2 Hs3 Ht Hf.
  pose proof (lam_name_no_slash t Ht) as Hlam.
  unfold copyAndRead. fold t.
  destruct (copy_if_file_Some fs (path +s+ "/" +s+ "_lamCTL.dat")
              (p3_cwd p +s+ "/" +s+ "_lamCTL.dat") Hs1) as [fs1 H1].
  rewrite H1.
  destruct (copy_if_file_Some fs1 (path +s+ "/" +s+ "m3dc1sup.in")
              (p3_cwd p +s+ "/" +s+ "m3dc1sup.in") Hs2) as [fs2 H2].
  rewrite H2.
  assert (Hsrc : fs_read fs2 (path +s+ "/" +s+ "lam_" +s+ t +s+ ".dat") = Some f).
  { rewrite (copy_if_file_other _ _ _ _ _ H2).
    - rewrite (copy_if_file_other _ _ _ _ _ H1); [exact Hf |].
      apply path_file_neq; [exact Hlam | reflexivity | right; discriminate].
    - apply path_file_neq; [exact Hlam | reflexivity | right; discriminate]. }
  unfold copy_if_file at 1. rewrite Hsrc.
  change (samefile (path +s+ "/" +s+ "lam_" +s+ t +s+ ".dat")
            (p3_cwd p +s+ "/" +s+ "lam_" +s+ t +s+ ".dat") = false) in Hs3.
  rewrite Hs3.
  unfold isfile. rewrite Hsrc.
  eexists. split.
  - f_equal. unfold readLaminar.
    change (lam_file p (Some t) None) with (p3_cwd p +s+ "/" +s+ "lam_" +s+ t +s+ ".dat").
    change (lam_file p (Some t) (Some path)) with (path +s+ "/" +s+ "lam_" +s+ t +s+ ".dat").
    change (fs_read fs (path +s+ "/" +s+ "lam_" +s+ t +s+ ".dat") = Some f) in Hf.
    rewrite fs_read_write_same, Hf. reflexivity.
  - change (lam_file p (Some t) None) with (p3_cwd p +s+ "/" +s+ "lam_" +s+ t +s+ ".dat").
    apply fs_read_write_same.
Qed.

(** X25.  From a directory whose two input files are other files than those of
    the working directory, and which holds no result file, [copyAndRead]
    prints that it was not found and then loads the result file of the
    working directory, if there is one: the trace of an earlier run is
    stored as if it had been copied. *)
Theorem copyAndRead_loads_stale_trace (p : plasma3D) (fs : FS) (path : string)
  (tag : option string) :
  let t := match tag with None => ""%string | Some t => t end in
  samefile (path +s+ "/" +s+ "_lamCTL.dat") (p3_cwd p +s+ "/" +s+ "_lamCTL.dat") = false ->
  samefile (path +s+ "/" +s+ "m3dc1sup.in") (p3_cwd p +s+ "/" +s+ "m3dc1sup.in") = false ->
  contains "/" t = false ->
  fs_read fs (lam_file p (Some t) (Some path)) = None ->
  exists fs',
    copyAndRead p fs path tag
    = Some ('(p', out) <- readLaminar p fs (Some t) None ;;
            Ok (p', fs',
                ["MAFOT output file: " +s+ lam_file p (Some t) (Some path) +s+ " not found!";
                 "Copy and load 3D MAFOT Laminar data from file: "
                 +s+ lam_file p (Some t) (Some path)] ++ out)) /\
    fs_read fs' (lam_file p (Some t) None) = fs_read fs (lam_file p (Some t) None).
Proof.
  intros t Hs1 Hs2 Ht Hf.
  pose proof (lam_name_no_slash t Ht) as Hlam.
  unfold copyAndRead. fold t.
  destruct (copy_if_file_Some fs (path +s+ "/" +s+ "_lamCTL.dat")
              (p3_cwd p +s+ "/" +s+ "_lamCTL.dat") Hs1) as [fs1 H1].
  rewrite H1.
  destruct (copy_if_file_Some fs1 (path +s+ "/" +s+ "m3dc1sup.in")
              (p3_cwd p +s+ "/" +s+ "m3dc1sup.in") Hs2) as [fs2 H2].
  rewrite H2.
  assert (Hsrc : fs_read fs2 (path +s+ "/" +s+ "lam_" +s+ t +s+ ".dat") = None).
  { rewrite (copy_if_file_other _ _ _ _ _ H2).
    - rewrite (copy_if_file_other _ _ _ _ _ H1); [exact Hf |].
      apply path_file_neq; [exact Hlam | reflexivity | right; discriminate].
    - apply path_file_neq; [exact Hlam | reflexivity | right; discriminate]. }
  assert (Hdst : fs_read fs2 (lam_file p (Some t) None) = fs_read fs (lam_file p (Some t) None)).
  { change (lam_file p (Some t) None) with (p3_cwd p +s+ "/" +s+ "lam_" +s+ t +s+ ".dat").
    rewrite (copy_if_file_other _ _ _ _ _ H2).
    - rewrite (copy_if_file_other _ _ _ _ _ H1); [reflexivity |].
      apply path_file_neq; [exact Hlam | reflexivity | right; discriminate].
    - apply path_file_neq; [exact Hlam | reflexivity | right; discriminate]. }
  unfold copy_if_file at 1. rewrite Hsrc. unfold isfile. rewrite Hsrc.
  exists fs2. split; [| exact Hdst].
  f_equal. rewrite (readLaminar_ext p fs2 fs (Some t) None Hdst). reflexivity.
Qed.

(** X26.  Asked to copy from the working directory itself, [copyAndRead] ends
    in the [SameFileError] of [shutil.copy] as soon as one of the three
    files is there. *)
Theorem copyAndRead_same_directory (p : plasma3D) (fs : FS) (tag : option string) :
  let t := match tag with None => ""%string | Some t => t end in
  isfile fs (p3_cwd p +s+ "/" +s+ "_lamCTL.dat") = true \/
  isfile fs (p3_cwd p +s+ "/" +s+ "m3dc1sup.in") = true \/
  isfile fs (lam_file p (Some t) None) = true ->
  copyAndRead p fs (p3_cwd p) tag = None.
Proof.
  intros t Hany. unfold copyAndRead. fold t.
  assert (Hcopy : forall fs0 q, copy_if_file fs0 q q = None \/
                                (copy_if_file fs0 q q = Some fs0 /\ isfile fs0 q = false)).
  { intros fs0 q. unfold copy_if_file, isfile.
    destruct (fs_read fs0 q); [left; now rewrite samefile_refl | right; now split]. }
  destruct (Hcopy fs (p3_cwd p +s+ "/" +s+ "_lamCTL.dat")) as [-> | [-> H1]];
    [reflexivity |].
  destruct (Hcopy fs (p3_cwd p +s+ "/" +s+ "m3dc1sup.in")) as [-> | [-> H2]];
    [reflexivity |].
  destruct (Hcopy fs (p3_cwd p +s+ "/" +s+ "lam_" +s+ t +s+ ".dat")) as [-> | [_ H3]];
    [reflexivity |].
  change (lam_file p (Some t) None) with (p3_cwd p +s+ "/" +s+ "lam_" +s+ t +s+ ".dat") in Hany.
  rewrite H1, H2, H3 in Hany. destruct Hany as [E | [E | E]]; discriminate E.
Qed.

End CopyAndRead.

Lemma copyAndRead_reads_source_witness :
  exists fs' p',
    @copyAndRead paths_literal p3_run [("old/lam_PFC.dat"%string, TableFile three_rows)] "old"
      (Some "PFC"%string)
    = Some (Ok (p', fs',
                ["Copy and load 3D MAFOT Laminar data from file: old/lam_PFC.dat"%string])) /\
    fs_read fs' "run/lam_PFC.dat" = Some (TableFile three_rows).
Proof.
  destruct (@copyAndRead_reads_source paths_literal p3_run
              [("old/lam_PFC.dat"%string, TableFile three_rows)]
              "old" (Some "PFC"%string) (TableFile three_rows))
    as [fs' [Hcopy Hread]]; try reflexivity.
  exists fs'. eexists. split; [exact Hcopy | exact Hread].
Defined.

Lemma copyAndRead_loads_stale_trace_witness :
  exists fs' p',
    @copyAndRead paths_literal p3_run [("run/lam_PFC.dat"%string, TableFile three_rows)] "old"
      (Some "PFC"%string)
    = Some (Ok (p', fs',
                ["MAFOT output file: old/lam_PFC.dat not found!"%string;
                 "Copy and load 3D MAFOT Laminar data from file: old/lam_PFC.dat"%string])) /\
    p3_psimin p' = Some [0.9; 1.0; 10].
Proof.
  destruct (@copyAndRead_loads_stale_trace paths_literal p3_run
              [("run/lam_PFC.dat"%string, TableFile three_rows)] "old" (Some "PFC"%string))
    as [fs' [Hcopy _]]; try reflexivity.
  exists fs'. eexists. split; [exact Hcopy | reflexivity].
Defined.

Lemma copyAndRead_same_directory_witness :
  @copyAndRead paths_literal p3_run [("run/lam_PFC.dat"%string, TableFile three_rows)] "run"
    (Some "PFC"%string) = None.
Proof.
  apply (@copyAndRead_same_directory paths_literal p3_run
           [("run/lam_PFC.dat"%string, TableFile three_rows)] (Some "PFC"%string)).
  right. right. reflexivity.
Defined.

(** * Properties of the terminal interface *)

(** ** Time steps *)

Lemma In_insert_R (x y : R) (l : list R) : In y (insert_R x l) <-> y = x \/ In y l.
Proof.
  induction l as [| a l IH]; simpl.
  - intuition.
  - destruct (Rle_dec x a); simpl; [intuition |]. rewrite IH. intuition.
Qed.

Lemma In_np_sort (y : R) (l : list R) : In y (np_sort l) <-> In y l.
Proof.
  induction l as [| a l IH]; simpl; [reflexivity |].
  rewrite In_insert_R, IH. intuition.
Qed.

Lemma In_insert_new_R (x y : R) (l : list R) : In y (insert_new_R x l) <-> y = x \/ In y l.
Proof.
  induction l as [| a l IH]; simpl.
  - intuition.
  - destruct (Rlt_dec x a); simpl; [intuition |].
    destruct (Req_dec_T x a) as [-> | Hne]; simpl; [intuition |].
    rewrite IH. intuition.
Qed.

Lemma In_np_unique (y : R) (l : list R) : In y (np_unique l) <-> In y l.
Proof.
  induction l as [| a l IH]; simpl; [reflexivity |].
  rewrite In_insert_new_R, IH. intuition.
Qed.

Lemma HdRel_insert_new_R (a x : R) (l : list R) :
  a < x -> HdRel Rlt a l -> HdRel Rlt a (insert_new_R x l).
Proof.
  intros Hax Hl. destruct l as [| y l]; simpl; [now constructor |].
  destruct (Rlt_dec x y); [now constructor |].
  destruct (Req_dec_T x y); [exact Hl |].
  inversion Hl; subst. now constructor.
Qed.

Lemma Sorted_insert_new_R (x : R) (l : list R) :
  Sorted Rlt l -> Sorted Rlt (insert_new_R x l).
Proof.
  induction l as [| y l IH]; intros Hs; simpl.
  - repeat constructor.
  - destruct (Rlt_dec x y) as [Hlt | Hge]; [constructor; [exact Hs | now constructor] |].
    destruct (Req_dec_T x y) as [-> | Hne]; [exact Hs |].
    inversion Hs; subst. constructor; [now apply IH |].
    apply HdRel_insert_new_R; [lra | assumption].
Qed.

Lemma Sorted_np_unique (l : list R) : Sorted Rlt (np_unique l).
Proof.
  induction l as [| a l IH]; simpl; [constructor | now apply Sorted_insert_new_R].
Qed.

Lemma In_fold_append (rows : list (list R)) :
  forall (ts : list R) (x : R),
    In x (fold_left (fun acc row => acc ++ row) rows ts)
    <-> In x ts \/ exists row, In row rows /\ In x row.
Proof.
  induction rows as [| r rows IH]; intros ts x; simpl.
  - split; [now left | intros [H | [row [[] _]]]; exact H].
  - rewrite IH, in_app_iff. split.
    + intros [[H | H] | [row [Hr Hx]]].
      * now left.
      * right. exists r. split; [now left | exact H].
      * right. exists row. split; [now right | exact Hx].
    + intros [H | [row [[<- | Hr] Hx]]].
      * left. now left.
      * left. now right.
      * right. now exists row.
Qed.

(** X27.  The time steps that [loadTimeSteps] hands to the engine are strictly
    increasing, hence without repetition, and are exactly the time steps
    of the batch file together with those of every filament row. *)
Theorem loadTimeSteps_sorted_union (ts : list R) (tsFil : option (list (list R))) :
  Sorted Rlt (loadTimeSteps ts tsFil) /\
  forall x, In x (loadTimeSteps ts tsFil)
            <-> In x ts \/ exists rows row, tsFil = Some rows /\ In row rows /\ In x row.
Proof.
  split; [apply Sorted_np_unique |].
  intros x. unfold loadTimeSteps. rewrite In_np_unique, In_np_sort.
  destruct tsFil as [rows |].
  - rewrite In_fold_append. split.
    + intros [H | [row [Hr Hx]]]; [now left | right; now exists rows, row].
    + intros [H | [rows' [row [E [Hr Hx]]]]]; [now left |].
      inversion E; subst rows'. right. now exists row.
  - split; [now left | intros [H | [rows [row [E _]]]]; [exact H | discriminate E]].
Qed.

(** ** Names *)

Lemma In_insert_str (x y : string) (l : list string) :
  In y (insert_str x l) <-> y = x \/ In y l.
Proof.
  induction l as [| a l IH]; simpl.
  - intuition.
  - destruct (String.leb x a); simpl; [intuition |]. rewrite IH. intuition.
Qed.

Lemma In_sort_str (y : string) (l : list string) :
  In y (fold_right insert_str [] l) <-> In y l.
Proof.
  induction l as [| a l IH]; simpl; [reflexivity |].
  rewrite In_insert_str, IH. intuition.
Qed.

Lemma In_unique_str (y : string) (l : list string) : In y (unique_str l) <-> In y l.
Proof.
  unfold unique_str. rewrite In_sort_str. apply nodup_In.
Qed.

Lemma NoDup_insert_str (x : string) (l : list string) :
  ~ In x l -> NoDup l -> NoDup (insert_str x l).
Proof.
  induction l as [| a l IH]; intros Hx Hl; simpl.
  - constructor; [exact Hx | constructor].
  - destruct (String.leb x a); [now constructor |].
    inversion Hl; subst. constructor.
    + rewrite In_insert_str. intros [-> | H]; [apply Hx; now left | contradiction].
    + apply IH; [intros H; apply Hx; now right | assumption].
Qed.

Lemma NoDup_sort_str (l : list string) : NoDup l -> NoDup (fold_right insert_str [] l).
Proof.
  induction l as [| a l IH]; intros Hl; simpl; [constructor |].
  inversion Hl; subst. apply NoDup_insert_str; [now rewrite In_sort_str | now apply IH].
Qed.

Lemma NoDup_unique_str (l : list string) : NoDup (unique_str l).
Proof.
  apply NoDup_sort_str, NoDup_nodup.
Qed.

Lemma length_insert_str (x : string) (l : list string) :
  length (insert_str x l) = S (length l).
Proof.
  induction l as [| a l IH]; simpl; [reflexivity |].
  destruct (String.leb x a); simpl; [reflexivity | now rewrite IH].
Qed.

Lemma length_unique_str (l : list string) :
  length (unique_str l) = length (nodup string_dec l).
Proof.
  unfold unique_str. induction (nodup string_dec l) as [| a l' IH]; simpl; [reflexivity |].
  now rewrite length_insert_str, IH.
Qed.

(** X28.  The [runList] of a tag holds every option named in any line of the
    tag, not only those of its first line, each once and nothing else. *)
Theorem runList_collects_all_lines (tagData : list batchRow) :
  NoDup (runList tagData) /\
  forall x, In x (runList tagData)
            <-> exists r, In r tagData /\ In x (split_colon (b_Output r)).
Proof.
  split; [apply NoDup_unique_str |].
  intros x. unfold runList. rewrite In_unique_str, in_concat. split.
  - intros [l [Hl Hx]]. apply in_map_iff in Hl. destruct Hl as [r [<- Hr]]. now exists r.
  - intros [r [Hr Hx]]. exists (split_colon (b_Output r)). split; [| exact Hx].
    apply in_map_iff. now exists r.
Qed.

(** ** The schedule *)

Lemma list_sum_insert_str (g : string -> nat) (x : string) (l : list string) :
  list_sum (map g (insert_str x l)) = (g x + list_sum (map g l))%nat.
Proof.
  induction l as [| a l IH]; simpl; [reflexivity |].
  destruct (String.leb x a); simpl; [reflexivity | rewrite IH; lia].
Qed.

Lemma list_sum_unique_str (g : string -> nat) (l : list string) :
  list_sum (map g (unique_str l)) = list_sum (map g (nodup string_dec l)).
Proof.
  unfold unique_str. induction (nodup string_dec l) as [| a l' IH]; simpl; [reflexivity |].
  now rewrite list_sum_insert_str, IH.
Qed.

Lemma NoDup_same_length {A : Type} (l l' : list A) :
  NoDup l -> NoDup l' -> (forall x, In x l <-> In x l') -> length l = length l'.
Proof.
  intros Hl Hl' Hin. apply Nat.le_antisymm.
  - apply NoDup_incl_length; [exact Hl | intros x Hx; now apply Hin].
  - apply NoDup_incl_length; [exact Hl' | intros x Hx; now apply Hin].
Qed.

Lemma list_sum_indicator (a : string) (M : list string) :
  NoDup M ->
  list_sum (map (fun m => if String.eqb a m then 1%nat else 0%nat) M)
  = if in_dec string_dec a M then 1%nat else 0%nat.
Proof.
  induction M as [| m M IH]; intros HM; [reflexivity |].
  inversion HM as [| ? ? Hm HM']; subst.
  change (list_sum (map (fun m0 => if String.eqb a m0 then 1%nat else 0%nat) (m :: M)))
    with ((if String.eqb a m then 1 else 0)
          + list_sum (map (fun m0 => if String.eqb a m0 then 1%nat else 0%nat) M))%nat.
  rewrite (IH HM').
  destruct (String.eqb a m) eqn:E.
  - apply String.eqb_eq in E. subst m.
    destruct (in_dec string_dec a M) as [Hin | _]; [contradiction |].
    destruct (in_dec string_dec a (a :: M)) as [_ | Hn]; [reflexivity |].
    elim Hn. now left.
  - apply String.eqb_neq in E.
    destruct (in_dec string_dec a M) as [Hin | Hn];
      destruct (in_dec string_dec a (m :: M)) as [Hin' | Hn']; try reflexivity.
    + elim Hn'. now right.
    + destruct Hin' as [Em | Hin']; [now elim E | contradiction].
Qed.

(** A list splits into the buckets of its first components. *)
Lemma bucket_sum (L : list (string * string)) (M : list string) :
  NoDup M -> (forall p, In p L -> In (fst p) M) ->
  length L
  = list_sum (map (fun m => length (filter (fun p => String.eqb (fst p) m) L)) M).
Proof.
  intros HM. induction L as [| p L IH]; intros Hcov.
  - simpl. induction M as [| m M' IHM]; simpl; [reflexivity |].
    inversion HM; subst. now apply IHM.
  - rewrite (map_ext _ (fun m => ((if String.eqb (fst p) m then 1 else 0)
                                  + length (filter (fun q => String.eqb (fst q) m) L))%nat)).
    + assert (Hadd : forall (f g : string -> nat) (l : list string),
                 list_sum (map (fun m => (f m + g m)%nat) l)
                 = (list_sum (map f l) + list_sum (map g l))%nat).
      { intros f g l. induction l as [| m l IHl]; simpl; [reflexivity | rewrite IHl; lia]. }
      rewrite Hadd, (list_sum_indicator _ _ HM), <- IH.
      * destruct (in_dec string_dec (fst p) M) as [_ | Hn]; [reflexivity |].
        elim Hn. apply Hcov. now left.
      * intros q Hq. apply Hcov. now right.
    + intros m. simpl. now destruct (String.eqb (fst p) m).
Qed.

Lemma NoDup_bucket (L : list (string * string)) (m : string) :
  NoDup L -> NoDup (map snd (filter (fun p => String.eqb (fst p) m) L)).
Proof.
  induction L as [| [a b] L IH]; intros HL; simpl; [constructor |].
  inversion HL as [| ? ? Hp HL']; subst.
  destruct (String.eqb a m) eqn:E; [| now apply IH].
  apply String.eqb_eq in E. subst a. simpl. constructor; [| now apply IH].
  intros Hin. apply in_map_iff in Hin. destruct Hin as [[a' b'] [Eb Hq]].
  apply filter_In in Hq. destruct Hq as [Hq Ea]. simpl in *.
  apply String.eqb_eq in Ea. subst. contradiction.
Qed.

Lemma bucket_length (pairs : list (string * string)) (m : string) :
  length (filter (fun p => String.eqb (fst p) m) (nodup pair_dec pairs))
  = length (nodup string_dec (map snd (filter (fun p => String.eqb (fst p) m) pairs))).
Proof.
  rewrite <- (length_map snd).
  apply NoDup_same_length.
  - apply NoDup_bucket, NoDup_nodup.
  - apply NoDup_nodup.
  - intros b. rewrite nodup_In, !in_map_iff. split.
    + intros [p [Eb Hp]]. exists p. split; [exact Eb |].
      apply filter_In in Hp. destruct Hp as [Hp Ea]. apply nodup_In in Hp.
      apply filter_In. now split.
    + intros [p [Eb Hp]]. exists p. split; [exact Eb |].
      apply filter_In in Hp. destruct Hp as [Hp Ea].
      apply filter_In. split; [now apply nodup_In | exact Ea].
Qed.

(** X29.  [simulationSchedule] exits exactly when a line names a machine that is
    not in [machineList].  Otherwise the number [Nsim] of simulations it
    announces is the number of distinct pairs of machine and tag in the
    batch file: lines that repeat a pair are time steps of one simulation,
    and one tag on two machines counts twice. *)
Theorem simulationSchedule_counts_pairs (machineList : list string) (data : list batchRow) :
  (simulationSchedule machineList data = None
   <-> exists r, In r data /\ str_in (b_MachFlag r) machineList = false) /\
  (forall s, simulationSchedule machineList data = Some s ->
     s_Nsim s = length (nodup pair_dec (map (fun r => (b_MachFlag r, b_Tag r)) data)) /\
     length (s_machTags s) = length (s_machines s) /\
     forall mach, In mach (s_machines s) <-> exists r, In r data /\ b_MachFlag r = mach).
Proof.
  unfold simulationSchedule.
  destruct (forallb (fun mach => str_in mach machineList)
                    (unique_str (map b_MachFlag data))) eqn:Hall.
  - split.
    + split; [discriminate |]. intros [r [Hr Hn]].
      rewrite forallb_forall in Hall.
      rewrite Hall in Hn; [discriminate Hn |].
      apply In_unique_str, in_map_iff. now exists r.
    + intros s E. inversion E; subst s; clear E. cbn [s_Nsim s_machTags s_machines].
      split; [| split].
      * rewrite !map_map.
        rewrite (list_sum_unique_str
                   (fun mach => length (unique_str (map b_Tag
                      (filter (fun r => String.eqb (b_MachFlag r) mach) data))))).
        set (pairs := map (fun r => (b_MachFlag r, b_Tag r)) data).
        rewrite (map_ext _ (fun m => length (filter (fun p => String.eqb (fst p) m)
                                               (nodup pair_dec pairs)))).
        -- symmetry. replace (map b_MachFlag data) with (map fst pairs)
             by (unfold pairs; rewrite map_map; reflexivity).
           apply bucket_sum; [apply NoDup_nodup |].
           intros p Hp. apply nodup_In in Hp. apply nodup_In. now apply in_map.
        -- intros m. rewrite length_unique_str, bucket_length. f_equal. f_equal.
           unfold pairs. rewrite filter_map_swap, map_map. reflexivity.
      * now rewrite !length_map.
      * intros mach. rewrite In_unique_str, in_map_iff.
        split; intros [r [H1 H2]]; exists r; tauto.
  - split.
    + split; [intros _ | reflexivity].
      assert (Hex : exists mach, In mach (unique_str (map b_MachFlag data))
                                 /\ str_in mach machineList = false).
      { clear - Hall. induction (unique_str (map b_MachFlag data)) as [| a l IH];
          simpl in Hall; [discriminate Hall |].
        destruct (str_in a machineList) eqn:Ea.
        - destruct (IH Hall) as [mach [Hin Hm]]. exists mach. split; [now right | exact Hm].
        - exists a. split; [now left | exact Ea]. }
      destruct Hex as [mach [Hin Hm]].
      apply In_unique_str, in_map_iff in Hin. destruct Hin as [r [<- Hr]]. now exists r.
    + intros s E. discriminate E.
Qed.

(** * The layer model completes *)

Lemma arg_from_lt (better : R -> R -> bool) (a : list R) :
  forall i best v, (best < i + length a)%nat ->
    (Np.arg_from better a i best v < i + length a)%nat.
Proof.
  induction a as [| x a IH]; intros i best v Hb; simpl in *; [exact Hb |].
  destruct (better x v).
  - specialize (IH (S i) i x). lia.
  - specialize (IH (S i) best v). lia.
Qed.

Lemma argmax_Ok (a : list R) :
  (0 < length a)%nat -> exists i, Np.argmax a = Ok i /\ (i < length a)%nat.
Proof.
  destruct a as [| x a]; simpl; intros Hl; [lia |].
  eexists. split; [reflexivity |].
  pose proof (arg_from_lt (fun u v => Np.ltb v u) a 1 0 x). lia.
Qed.

Lemma argmin_Ok (a : list R) :
  (0 < length a)%nat -> exists i, Np.argmin a = Ok i /\ (i < length a)%nat.
Proof.
  destruct a as [| x a]; simpl; intros Hl; [lia |].
  eexists. split; [reflexivity |].
  pose proof (arg_from_lt Np.ltb a 1 0 x). lia.
Qed.

Lemma item_Ok (a : list R) (i : nat) :
  (i < length a)%nat -> exists x, Np.item a i = Ok x.
Proof.
  intros Hi. unfold Np.item.
  destruct (nth_error a i) as [x |] eqn:E; [now exists x |].
  apply nth_error_None in E. lia.
Qed.

Lemma amax_Ok (a : list R) : (0 < length a)%nat -> exists m, Np.amax a = Ok m.
Proof.
  destruct a as [| x a]; simpl; intros Hl; [lia | eexists; reflexivity].
Qed.

Ltac lens :=
  repeat first [rewrite length_map | rewrite length_assign_scalar_aux
                | rewrite length_assign_aux | rewrite length_linspace];
  try lia; try (intros; assumption); try (apply Nat.ltb_lt; vm_compute; reflexivity).

Ltac layer_argmax :=
  match goal with
  | |- context [Np.argmax ?a] =>
      let idx := fresh "idx" in
      let Hidx := fresh "Hidx" in
      let Hlt := fresh "Hlt" in
      destruct (argmax_Ok a) as [idx [Hidx Hlt]]; [lens | rewrite Hidx; cbn [bind]]
  end.

Ltac layer_item :=
  match goal with
  | Hlt : (?i < _)%nat |- context [Np.item ?a ?i] =>
      let x := fresh "x" in
      let Hx := fresh "Hx" in
      destruct (item_Ok a i) as [x Hx]; [revert Hlt; lens | rewrite Hx; cbn [bind]]
  end.

Ltac layer_amax :=
  match goal with
  | |- context [Np.amax ?a] =>
      let m := fresh "m" in
      let Hm := fresh "Hm" in
      destruct (amax_Ok a) as [m Hm]; [lens | rewrite Hm; cbn [bind]]
  end.

Section LayerTotal.
Context `{SciPy} `{Host}.

(** [set_layer] completes on every non-empty array once the midplane
    spline exists, for a width [lq] other than zero. *)
Lemma set_layer_Ok (hf : heatflux3D) (psi : list R) (lq S lcfs q0 : R) (lobes : bool)
  (f : R -> R) :
  map_R_psi_f hf None = Ok f -> lq <> 0 -> (0 < length psi)%nat ->
  exists q qs, set_layer hf psi lq S lcfs q0 lobes = Ok (q, qs) /\ length q = length psi.
Proof.
  intros Hf Hlq Hpsi.
  unfold set_layer, map_R_psi, map_R_psi_scalar, eich_profile_array, eich_profile.
  rewrite Hf. rewrite !eich_abc_Ok by exact Hlq.
  destruct (truthy (hf_HFS hf)); destruct lobes; cbn [bind];
    layer_argmax; layer_item; layer_item;
    try (rewrite assign_scalar_Ok by lens; cbn [bind]);
    layer_amax;
    eexists; eexists; (split; [reflexivity | lens]).
Qed.

(** [getq_layer] completes on every non-empty trace with a PFR mask of
    its length, for a width [lqCN] other than zero. *)
Lemma getq_layer_Ok (hf : heatflux3D) (psimin : list R) (pfr : list bool) (f : R -> R) :
  map_R_psi_f hf None = Ok f -> hf_lqCN hf <> 0 ->
  hf_psimin hf = Some psimin -> hf_pfr hf = Some pfr ->
  (0 < length psimin)%nat -> length pfr = length psimin ->
  exists q, getq_layer hf = Ok q /\ length q = length psimin.
Proof.
  intros Hf Hlq Hps Hpfr Hlen Hplen. unfold getq_layer. rewrite Hps, Hpfr. cbn [bind attr].
  destruct (set_layer_Ok hf psimin (hf_lqCN hf) (hf_S hf) (hf_lcfs hf) 1 true f Hf Hlq Hlen)
    as [q [q0 [Hset Hq]]].
  rewrite Hset. cbn [bind].
  destruct (Nat.ltb 0 (Np.count pfr)) eqn:Hc.
  - apply Nat.ltb_lt in Hc.
    rewrite select_Ok by (now symmetry). cbn [bind].
    destruct (set_layer_Ok hf (Np.select_aux psimin pfr) (hf_lqCN hf) (hf_S hf) 1.0 q0 false f
                Hf Hlq)
      as [qp [qs [Hset2 Hqp]]].
    { rewrite length_select_aux by (now symmetry). exact Hc. }
    rewrite Hset2. cbn [bind].
    rewrite assign_Ok.
    + eexists. split; [reflexivity |]. now rewrite length_assign_aux.
    + congruence.
    + rewrite Hqp. apply length_select_aux. now symmetry.
  - exists q. split; [reflexivity | exact Hq].
Qed.

End LayerTotal.

Section LayerRuns.
Context `{SciPy} `{Host}.

(** The shape of [scale_layer] exists when the midplane trace has one value
    for each radius of the grid and the width [lq] is not zero. *)
Lemma layer_q_hat_Ok (hf : heatflux3D) (psimin Rs : list R) (lq S pfr : R) (f : R -> R) :
  map_R_psi_f hf None = Ok f -> lq <> 0 ->
  (0 < length psimin)%nat -> length psimin = length Rs ->
  exists q_hat, layer_q_hat hf psimin Rs lq S pfr = Ok q_hat /\
                length q_hat = length psimin.
Proof.
  intros Hf Hlq Hlen HRs. unfold layer_q_hat.
  destruct (argmin_Ok (map (fun p => Rabs (p - pfr)) psimin)) as [idx [Hidx Hlt]];
    [now rewrite length_map |].
  rewrite length_map in Hlt. rewrite Hidx. cbn [bind].
  destruct (item_Ok Rs idx) as [Ridx HR]; [lia |].
  rewrite HR. cbn [bind].
  set (side := if truthy (hf_HFS hf) then map (fun r => Np.ltb Ridx r) Rs
               else map (fun r => Np.ltb r Ridx) Rs).
  assert (Hside : length side = length Rs).
  { unfold side. destruct (truthy (hf_HFS hf)); apply length_map. }
  rewrite <- Hside, put_where_full. cbn [bind].
  set (mask := map (fun x : bool => if x then true else false) side).
  assert (Hmask : length mask = length psimin).
  { unfold mask. rewrite length_map. congruence. }
  destruct (set_layer_Ok hf psimin lq S (hf_lcfs hf) 1 true f Hf Hlq Hlen)
    as [q_hat [q0tmp [Hset Hq]]].
  rewrite Hset. cbn [bind].
  destruct (Nat.ltb 0 (Np.count mask)) eqn:Hc.
  - apply Nat.ltb_lt in Hc.
    rewrite select_Ok by (now symmetry). cbn [bind].
    destruct (set_layer_Ok hf (Np.select_aux psimin mask) lq S 1.0 q0tmp false f Hf Hlq)
      as [qp [qs [Hset2 Hqp]]].
    { rewrite length_select_aux by (now symmetry). exact Hc. }
    rewrite Hset2. cbn [bind].
    rewrite assign_Ok.
    + eexists. split; [reflexivity |]. now rewrite length_assign_aux.
    + congruence.
    + rewrite Hqp. apply length_select_aux. now symmetry.
  - eexists. split; [reflexivity | exact Hq].
Qed.

(** A table with at least two rows of one width is read as a
    two-dimensional array, and its fifth column exists when the width is
    at least five. *)
Lemma column4_Ok (file : file) (rows : list (list R)) (n : nat) :
  file_rows file = Ok rows -> (2 <= length rows)%nat ->
  Forall (fun r => length r = n) rows -> (5 <= n)%nat ->
  (lamdata <- genfromtxt file ;; column lamdata 4) = Ok (map (fun r => nth 4 r 0) rows).
Proof.
  intros Hrows Hlen Hw Hn. unfold genfromtxt. rewrite Hrows. cbn [bind].
  destruct rows as [| r0 [| r1 rows']]; simpl in Hlen; try lia.
  assert (Hall : forallb (fun r' => Nat.eqb (length r') (length r0)) (r0 :: r1 :: rows') = true).
  { apply forallb_forall. intros r Hr. apply Nat.eqb_eq.
    rewrite Forall_forall in Hw. rewrite (Hw r Hr), (Hw r0); [reflexivity | now left]. }
  rewrite Hall. cbn [bind]. unfold column.
  assert (Hr0 : length r0 = n) by (rewrite Forall_forall in Hw; apply Hw; now left).
  replace (Nat.ltb 4 (length r0)) with true; [reflexivity |].
  symmetry. apply Nat.ltb_lt. lia.
Qed.

(** With a cached midplane trace of one row for each of the thousand grid
    radii and a width [lq] other than zero, [scale_layer] completes and
    leaves the world as it is. *)
Lemma scale_layer_Ok (hf : heatflux3D) (w : world) (lq S P : R) (pfr : option R)
  (f : R -> R) (file : file) (rows : list (list R)) (n : nat) :
  map_R_psi_f hf None = Ok f -> lq <> 0 -> g_R (hf_ep hf) <> [] ->
  fs_read (w_fs w) (layer_file hf) = Some file ->
  file_rows file = Ok rows -> length rows = 1000%nat ->
  Forall (fun r => length r = n) rows -> (5 <= n)%nat ->
  exists q0, scale_layer hf w lq S P pfr = Ok (q0, w).
Proof.
  intros Hf Hlq Hg Hfile Hrows Hlen Hw Hn. unfold scale_layer, map_R_psi_scalar.
  rewrite Hf. cbn [bind].
  destruct (layer_window_Ok hf lq S (f (hf_lcfs hf)) Hg) as [Rmin [Rmax Hwin]].
  rewrite Hwin. cbn [bind].
  assert (Ht : layer_trace hf w (layer_tag hf) (layer_grid Rmin Rmax)
                 (midplane_Z hf (layer_grid Rmin Rmax)) = Ok w).
  { unfold layer_trace. fold (layer_file hf). unfold isfile. now rewrite Hfile. }
  rewrite Ht. cbn [bind]. rewrite Hfile.
  rewrite (column4_Ok file rows n Hrows) by (assumption || lia). cbn [bind].
  destruct (layer_q_hat_Ok hf (map (fun r => nth 4 r 0) rows) (layer_grid Rmin Rmax) lq S
              (match pfr with None => hf_lcfs hf | Some v => v end) f Hf Hlq)
    as [q_hat [Hq Hqlen]].
  - rewrite length_map. lia.
  - unfold layer_grid. rewrite length_map, length_linspace. exact Hlen.
  - rewrite Hq. cbn [bind].
    replace (simps_checked q_hat _) with (Ok tt); [cbn [bind]; eexists; reflexivity |].
    unfold simps_checked, to_flux. rewrite midplane_psiN_map, !length_map.
    unfold layer_grid. rewrite length_linspace, Hqlen, length_map, Hlen.
    reflexivity.
Qed.

(** For a non-empty trace, a divertor code with an ['O'] or an ['I'], an
    equilibrium whose midplane data the spline accepts, a width [lqCN] other
    than zero and a cached midplane trace with one row of at least five
    columns for each of the thousand grid radii, the layer branch of
    [heatflux] completes without starting a tracer. *)
Lemma heatflux_model_layer_Ok (hf0 hf : heatflux3D) (psimin Lc : list R) (w : world)
  (DivCode : string) (powerFrac : R) (f : R -> R) (file : file) (rows : list (list R))
  (n : nat) :
  let b := negb (contains "O" DivCode) in
  updateLaminarData hf0 psimin Lc = Ok hf -> (0 < length psimin)%nat ->
  is_layer_model hf = true -> hf_lqCN hf <> 0 ->
  contains "O" DivCode || contains "I" DivCode = true ->
  map_R_psi_f (set_HFS hf b) None = Ok f -> g_R (hf_ep hf) <> [] ->
  fs_read (w_fs w) (layer_file (set_HFS hf b)) = Some file ->
  file_rows file = Ok rows -> length rows = 1000%nat ->
  Forall (fun r => length r = n) rows -> (5 <= n)%nat ->
  exists q q0,
    heatflux_model hf w DivCode powerFrac = Ok (set_HFS hf b, q, q0, w) /\
    length q = length psimin.
Proof.
  intros b Hupd Hlen Hlayer Hlq HD Hf Hg Hfile Hrows Hrlen Hw Hn.
  apply updateLaminarData_inv in Hupd.
  destruct Hupd as [Hps [HLc [Hq0 [Hgood [[pfr [Hpfr Hplen]] _]]]]].
  unfold is_layer_model in Hlayer.
  destruct (hf_model hf) as [m |] eqn:Hm; [| discriminate Hlayer].
  destruct (getq_layer_Ok (set_HFS hf b) psimin pfr f Hf Hlq Hps Hpfr Hlen Hplen)
    as [q [Hq Hqlen]].
  destruct (scale_layer_Ok (set_HFS hf b) w (hf_lqCN (set_HFS hf b)) (hf_S (set_HFS hf b))
              (hf_Psol (set_HFS hf b) * powerFrac)
              (Some 1.0) f file rows n Hf Hlq Hg Hfile Hrows Hrlen Hw Hn) as [q0 Hs].
  exists q, q0. split; [| exact Hqlen].
  unfold heatflux_model. rewrite Hm. cbn [bind attr]. rewrite Hlayer.
  assert (HHFS : (if contains "O" DivCode then Ok false
                  else if contains "I" DivCode then Ok true
                  else Raise (ValueError
                    "PFC Divertor Code cannot be identified. Check your PFC input file"))
                 = Ok b).
  { unfold b. destruct (contains "O" DivCode); [reflexivity |].
    simpl in HD. rewrite HD. reflexivity. }
  rewrite HHFS. cbn [bind]. rewrite Hq. cbn [bind]. rewrite Hs. reflexivity.
Qed.

(** X30.  The layer model completes.  For a non-empty trace, a divertor code
    with an ['O'] or an ['I'], an equilibrium whose midplane data the
    spline accepts, a width [lqCN] other than zero and a cached midplane
    trace with one row of at least five columns for each of the thousand
    grid radii, [heatflux] returns: it starts no tracer, stores the side it
    read off the code (an ['O'] means the low-field side, also when an ['I']
    is present), and leaves a flux for every point. *)
Theorem heatflux_layer_total (hf0 hf : heatflux3D) (psimin Lc : list R) (w : world)
  (DivCode : string) (powerFrac : R) (f : R -> R) (file : file) (rows : list (list R))
  (n : nat) :
  let b := negb (contains "O" DivCode) in
  updateLaminarData hf0 psimin Lc = Ok hf -> (0 < length psimin)%nat ->
  is_layer_model hf = true -> hf_lqCN hf <> 0 ->
  contains "O" DivCode || contains "I" DivCode = true ->
  map_R_psi_f (set_HFS hf b) None = Ok f -> g_R (hf_ep hf) <> [] ->
  fs_read (w_fs w) (layer_file (set_HFS hf b)) = Some file ->
  file_rows file = Ok rows -> length rows = 1000%nat ->
  Forall (fun r => length r = n) rows -> (5 <= n)%nat ->
  exists hf',
    heatflux hf w DivCode powerFrac = Ok (hf', w) /\
    hf_HFS hf' = Some b /\ length (hf_q hf') = length psimin.
Proof.
  intros b Hupd Hlen Hlayer Hlq HD Hf Hg Hfile Hrows Hrlen Hw Hn.
  destruct (heatflux_model_layer_Ok hf0 hf psimin Lc w DivCode powerFrac f file rows n
              Hupd Hlen Hlayer Hlq HD Hf Hg Hfile Hrows Hrlen Hw Hn)
    as [q [q0 [Hmodel Hqlen]]].
  fold b in Hmodel.
  apply updateLaminarData_inv in Hupd.
  destruct Hupd as [Hps [HLc [Hq0 [Hgood _]]]].
  unfold heatflux. rewrite Hmodel. cbn [bind]. unfold assemble.
  change (hf_good (set_HFS hf b)) with (hf_good hf).
  change (hf_q (set_HFS hf b)) with (hf_q hf).
  change (hf_qBG (set_HFS hf b)) with (hf_qBG hf).
  rewrite Hgood. cbn [bind attr].
  rewrite select_Ok by (rewrite !length_map; exact Hqlen). cbn [bind].
  rewrite assign_Ok.
  - cbn [bind]. eexists. split; [reflexivity |]. split; [reflexivity |].
    cbn [hf_q set_q]. rewrite length_map, length_assign_aux, Hq0.
    unfold Np.zeros. apply repeat_length.
  - rewrite Hq0, length_map. unfold Np.zeros. apply repeat_length.
  - apply length_select_aux. rewrite !length_map. exact Hqlen.
Qed.

End LayerRuns.

Lemma heatflux_layer_total_witness :
  exists hf hf',
    updateLaminarData hf_eich scenario_psimin scenario_Lc = Ok hf /\
    @heatflux scipy_linear host_static hf
      (with_fs w_idle [("run/lam_lfs_mp.dat"%string,
                        TableFile (repeat [1.0; 0; 0; 0.1; 1.0] 1000))]) "IO" 1
    = Ok (hf', with_fs w_idle [("run/lam_lfs_mp.dat"%string,
                                TableFile (repeat [1.0; 0; 0; 0.1; 1.0] 1000))]) /\
    hf_HFS hf' = Some false /\ length (hf_q hf') = 4%nat.
Proof.
  pose proof (updateLaminarData_eq hf_eich scenario_psimin scenario_Lc eq_refl) as Hupd.
  set (hf := set_pfr _ _) in Hupd.
  destruct (slab_spline_Ok (set_HFS hf (negb (contains "O" "IO"))) eq_refl eq_refl)
    as [f Hf].
  destruct (@heatflux_layer_total scipy_linear host_static hf_eich hf scenario_psimin
              scenario_Lc
              (with_fs w_idle [("run/lam_lfs_mp.dat"%string,
                                TableFile (repeat [1.0; 0; 0; 0.1; 1.0] 1000))])
              "IO" 1 f (TableFile (repeat [1.0; 0; 0; 0.1; 1.0] 1000))
              (repeat [1.0; 0; 0; 0.1; 1.0] 1000) 5 Hupd)
    as [hf' [Hrun [Hside Hlen]]].
  - simpl. lia.
  - reflexivity.
  - simpl. lra.
  - reflexivity.
  - exact Hf.
  - discriminate.
  - reflexivity.
  - reflexivity.
  - apply repeat_length.
  - apply Forall_forall. intros r Hr. apply repeat_spec in Hr. subst r. reflexivity.
  - lia.
  - exists hf, hf'. split; [exact Hupd |]. split; [exact Hrun |].
    split; [exact Hside | exact Hlen].
Defined.

(** * Worked runs of the scale factor *)

(** ** The first-order spline on tabulated data *)

Lemma interp_linear_step (a0 a1 b0 b1 : R) (xs ys : list R) (x : R) :
  interp_linear (a0 :: a1 :: xs) (b0 :: b1 :: ys) x
  = if Rle_dec x a0 then b0
    else if Rle_dec x a1 then b0 + (b1 - b0) * (x - a0) / (a1 - a0)
         else interp_linear (a1 :: xs) (b1 :: ys) x.
Proof. reflexivity. Qed.

(** Through data that are all [c] the spline is the constant [c]. *)
Lemma interp_linear_const (c : R) (xs : list R) :
  forall (ys : list R) (x : R),
    length xs = length ys -> ys <> [] -> Forall (eq c) ys -> interp_linear xs ys x = c.
Proof.
  induction xs as [| a0 xs IH]; intros [| b0 ys] x Hlen Hne Hy; simpl in Hlen;
    try lia; try (now elim Hne).
  apply Forall_cons_iff in Hy. destruct Hy as [<- Hy].
  destruct xs as [| a1 xs']; destruct ys as [| b1 ys']; simpl in Hlen; try lia;
    [reflexivity |].
  pose proof Hy as Hy1. apply Forall_cons_iff in Hy1. destruct Hy1 as [<- _].
  rewrite interp_linear_step.
  destruct (Rle_dec x a0); [reflexivity |].
  destruct (Rle_dec x a1); [unfold Rdiv; ring |].
  apply IH; [simpl; lia | discriminate | exact Hy].
Qed.

(** Through data on the line [y = x + d] the spline is that line, between
    the first and the last abscissa. *)
Lemma interp_linear_line (d : R) (xs : list R) :
  forall x : R,
    increasing xs = true -> xs <> [] -> hd 0 xs <= x <= last xs 0 ->
    interp_linear xs (map (fun u => u + d) xs) x = x + d.
Proof.
  induction xs as [| x0 xs IH]; intros x Hinc Hne Hx; [now elim Hne |].
  destruct xs as [| x1 xs'].
  - simpl in Hx. cbn [map interp_linear]. f_equal. lra.
  - cbn [increasing] in Hinc. apply andb_prop in Hinc. destruct Hinc as [H01 Hinc].
    unfold Np.ltb in H01. destruct (Rlt_dec x0 x1) as [Hlt |]; [| discriminate H01].
    cbn [map]. rewrite interp_linear_step.
    destruct (Rle_dec x x0) as [Hle |]; [simpl in Hx; f_equal; lra |].
    destruct (Rle_dec x x1) as [Hle1 |]; [field; lra |].
    apply IH; [exact Hinc | discriminate |].
    change (last (x0 :: x1 :: xs') 0) with (last (x1 :: xs') 0) in Hx.
    simpl hd. lra.
Qed.

Lemma last_map_seq (g : nat -> R) (n k : nat) :
  last (map g (seq k (S n))) 0 = g (k + n)%nat.
Proof.
  revert k. induction n as [| n IH]; intros k.
  - simpl. now rewrite Nat.add_0_r.
  - change (seq k (S (S n))) with (k :: seq (S k) (S n)).
    change (map g (k :: seq (S k) (S n))) with (g k :: map g (seq (S k) (S n))).
    replace (k + S n)%nat with (S k + n)%nat by lia. rewrite <- IH.
    change (seq (S k) (S n)) with (S k :: seq (S (S k)) n). reflexivity.
Qed.

(** A tabulated profile that is the constant 1 keV gives that constant. *)
Lemma resolve_fT_flat (dir : string) (fs : FS) :
  exists fT, @resolve_fT scipy_linear (PD_array [1; 1; 1; 1]) dir fs = Ok fT /\
             forall x, fT x = 1.
Proof.
  unfold resolve_fT. cbn [UnivariateSpline scipy_linear]. unfold spline_linear.
  rewrite length_linspace. cbn [length Nat.eqb Nat.leb negb].
  rewrite linspace_map, increasing_map_seq.
  - eexists. split; [reflexivity |]. intros x.
    apply interp_linear_const; [now rewrite length_map, length_seq | discriminate |].
    repeat constructor.
  - intros i. rewrite S_INR.
    assert (Hstep : 0 < (1.1 - 0) / INR (4 - 1)).
    { apply Rdiv_lt_0_compat; [lra | apply lt_0_INR; lia]. }
    lra.
Qed.

(** The object that [initializeHF3D] builds from [ctl_flat]. *)
Lemma initializeHF3D_flat (ep : equilParams) :
  exists hf0,
    @initializeHF3D scipy_linear ep ctl_flat "run" [] = Ok hf0 /\
    (forall x, hf_fT hf0 x = 1) /\ hf_model hf0 = Some "conduct"%string /\
    hf_kappa hf0 = 2000 /\ hf_lcfs hf0 = 0.97 /\ hf_S hf0 = 2 /\ hf_lqCN hf0 = 5 /\
    hf_ep hf0 = ep.
Proof.
  destruct (resolve_fT_flat "run" []) as [fT [HfT Hflat]].
  unfold initializeHF3D. cbn [c_teProfileData ctl_flat]. rewrite HfT.
  cbn [bind c_neProfileData resolve_fn].
  eexists. split; [reflexivity |]. cbn. repeat split. exact Hflat.
Qed.

(** ** The conductive model on a constant profile *)

Lemma nth_error_map_seq {A : Type} (g : nat -> A) (n i : nat) :
  (i < n)%nat -> nth_error (map g (seq 0 n)) i = Some (g i).
Proof.
  intros Hi. rewrite nth_error_map, nth_error_seq.
  apply Nat.ltb_lt in Hi. now rewrite Hi.
Qed.

Lemma INR_999 : INR (1000 - 1) = 999.
Proof. rewrite INR_IZR_INZ. reflexivity. Qed.

(** With [T0 = 0] and a temperature of 1 keV the conductive flux is
    positive for a positive [kappa] and a positive length. *)
Lemma conduct_q_pos (kappa L : R) : 0 < kappa -> 0 < L -> 0 < conduct_q kappa L 0 1.
Proof.
  intros Hk HL. unfold conduct_q. rewrite power_0, power_1.
  pose proof (power_pos 1e+3 3.5 ltac:(lra)) as HK.
  assert (Hr : 0 < 2.0 / 7.0 * kappa / L) by (apply Rdiv_lt_0_compat; lra).
  apply Rdiv_lt_0_compat; [| lra].
  apply Rmult_lt_0_compat; [| exact HK].
  apply Rmult_lt_0_compat; [exact Hr | lra].
Qed.

(** The flux grid of [scale_conduct] moves at every step when the flux of
    the separatrix is not that of the axis. *)
Lemma conduct_flux_steps (sep axis : R) :
  sep - axis <> 0 ->
  Sorted (fun a b : R => a <> b)
    (map (fun psi => psi * (sep - axis) + axis) conduct_psiN).
Proof.
  intros Hd. unfold conduct_psiN. rewrite linspace_map, map_map.
  apply Sorted_map_seq_rel. intros i. rewrite S_INR, INR_999. intros E.
  apply Hd. nra.
Qed.

(** Simpson's integral of a constant shape over the flux grid of
    [scale_conduct]. *)
Lemma simpson_flat_flux (c sep axis : R) (q_hat : list R) :
  sep - axis <> 0 -> Forall (eq c) q_hat -> length q_hat = 1000%nat ->
  simpson q_hat (map (fun psi => psi * (sep - axis) + axis) conduct_psiN)
  = c * ((1.2 - 0.85) * (sep - axis)).
Proof.
  intros Hd Hc Hlen.
  assert (Hxlen : length (map (fun psi => psi * (sep - axis) + axis) conduct_psiN)
                  = 1000%nat).
  { unfold conduct_psiN. now rewrite length_map, length_linspace. }
  rewrite (simpson_const c _ _ (conduct_flux_steps sep axis Hd));
    [| now rewrite Hlen, Hxlen | exact Hc |].
  - rewrite Hxlen. f_equal.
    unfold conduct_psiN. rewrite linspace_map, map_map.
    change (1000 - 1)%nat with 999%nat at 1.
    rewrite !nth_map_seq by lia. rewrite INR_999.
    change (INR 0) with 0.
    replace (INR 999) with 999 by (rewrite INR_IZR_INZ; reflexivity).
    field.
  - rewrite Hxlen. lia.
Qed.


(** The conductive shape of a constant profile is constant. *)
Lemma conduct_q_hat_flat (hf : heatflux3D) (kappa L ratio : R) (q_hat : list R) :
  (forall x, hf_fT hf x = 1) -> conduct_q_hat hf kappa L ratio 0 = Ok q_hat ->
  Forall (eq (conduct_q kappa L 0 1)) q_hat /\ length q_hat = 1000%nat.
Proof.
  intros HfT Hq. apply conduct_q_hat_inv in Hq. destruct Hq as [T [-> [HTlen HT]]].
  apply (Forall_from_flat hf 1 T HfT) in HT. split.
  - apply Forall_forall. intros y Hy. apply in_map_iff in Hy.
    destruct Hy as [t [<- Ht]]. rewrite Forall_forall in HT. now rewrite <- (HT t Ht).
  - rewrite length_map, HTlen. unfold conduct_psiN. apply length_linspace.
Qed.

(** On the trace of the scenario, the conductive shape of the constant
    profile of 1 keV is a positive constant [c] on the grid of
    [scale_conduct], and its integral over the flux is [c] times the signed
    length of the flux interval. *)
Lemma flat_shape_integral (hf : heatflux3D) (q_hat psiN : list R) (sep axis : R) :
  (forall x, hf_fT hf x = 1) -> hf_kappa hf = 2000 -> hf_lcfs hf = 0.97 ->
  hf_psimin hf = Some scenario_psimin -> hf_Lc hf = Some scenario_Lc ->
  @conduct_shape scipy_linear hf q_hat psiN -> sep - axis <> 0 ->
  exists c, 0 < c /\ psiN = conduct_psiN /\
            simpson q_hat (map (fun psi => psi * (sep - axis) + axis) psiN)
            = c * ((1.2 - 0.85) * (sep - axis)).
Proof.
  intros HfT Hk Hlcfs Hps HLc [psimin [Lc [L [Hps' [HLc' [HL [Hq ->]]]]]]] Hd.
  rewrite Hps in Hps'. rewrite HLc in HLc'.
  inversion Hps'; subst psimin. inversion HLc'; subst Lc.
  pose proof (scenario_L hf L Hlcfs HL) as HLpos.
  destruct (conduct_q_hat_flat hf _ _ _ _ HfT Hq) as [Hc Hlen].
  exists (conduct_q (hf_kappa hf) L 0 1). split; [| split; [reflexivity |]].
  - apply conduct_q_pos; [rewrite Hk; lra | exact HLpos].
  - now apply simpson_flat_flux.
Qed.

(** The conductive run of the worked examples, on any equilibrium. *)
Lemma flat_run (ep : equilParams) :
  exists hf0 hf q q0,
    @initializeHF3D scipy_linear ep ctl_flat "run" [] = Ok hf0 /\
    updateLaminarData hf0 scenario_psimin scenario_Lc = Ok hf /\
    @heatflux_model scipy_linear host_static hf w_idle "O" 0.5 = Ok (hf, q, q0, w_idle) /\
    (forall x, hf_fT hf x = 1) /\ hf_kappa hf = 2000 /\ hf_lcfs hf = 0.97 /\
    hf_psimin hf = Some scenario_psimin /\ hf_Lc hf = Some scenario_Lc /\
    is_layer_model hf = false.
Proof.
  destruct (initializeHF3D_flat ep) as [hf0 [Hinit [HfT [Hm [Hk [Hlcfs [HS _]]]]]]].
  pose proof (updateLaminarData_eq hf0 scenario_psimin scenario_Lc eq_refl) as Hupd.
  set (hf := set_pfr _ _) in Hupd.
  destruct (@heatflux_conduct_Ok scipy_linear host_static hf0 hf scenario_psimin
              scenario_Lc w_idle "O" "conduct" 0.5 Hupd eq_refl Hm eq_refl eq_refl)
    as [hf1 [q [q0 [hf' [Hmodel _]]]]]; [rewrite HS; lra |].
  assert (Hm' : hf_model hf = Some "conduct"%string) by exact Hm.
  destruct (@heatflux_model_conduct_inv scipy_linear host_static hf hf1 w_idle w_idle
              "O" "conduct" 0.5 q0 q Hm' eq_refl Hmodel) as [-> _].
  exists hf0, hf, q, q0.
  split; [exact Hinit |]. split; [exact Hupd |]. split; [exact Hmodel |].
  split; [exact HfT |]. split; [exact Hk |]. split; [exact Hlcfs |].
  split; [reflexivity |]. split; [reflexivity |].
  unfold is_layer_model. rewrite Hm'. reflexivity.
Qed.

(** ** The conductive model on the default profile *)

(** C4, the failing input.  With the defaults of [setHFctl], the
    conductive model and the trace of the scenario, the first temperature
    that [scale_conduct] raises to the power 3.5 is the pedestal profile at
    [psi = 1 + 2.5*(1 - 0.85) = 1.375], beyond the point [psi = 1.2] where
    the profile turns negative: numpy has no value for that power, and the
    scale factor and the flux of every converged point are lost with it. *)
Theorem default_conduct_reads_negative_temperature :
  exists hf0 hf T t,
    @initializeHF3D scipy_ref ep_slab ctl_conduct "run" [] = Ok hf0 /\
    updateLaminarData hf0 scenario_psimin scenario_Lc = Ok hf /\
    conduct_T hf (hf_lqCN hf / hf_S hf) = Ok T /\
    nth_error T 0 = Some t /\
    t = Tret_T (Tprofile (1.0 + 5 / 2 * (1.0 - 0.85)) 2 false) /\ t < 0.
Proof.
  destruct (@initializeHF3D scipy_ref ep_slab ctl_conduct "run" []) as [hf0 | e] eqn:Hinit;
    [| discriminate Hinit].
  destruct (@initializeHF3D_inv scipy_ref _ _ _ _ _ Hinit)
    as [_ [_ [_ [Hlq [HS [_ [_ [_ [_ HfT]]]]]]]]].
  change (Ok (fun psi => Tret_T (Tprofile psi 2 false)) = Ok (hf_fT hf0)) in HfT.
  injection HfT as HfT.
  change (hf_lqCN hf0 = 5) in Hlq. change (hf_S hf0 = 2) in HS.
  pose proof (updateLaminarData_eq hf0 scenario_psimin scenario_Lc eq_refl) as Hupd.
  set (hf := set_pfr _ _) in Hupd.
  assert (Hr : hf_lqCN hf / hf_S hf = 5 / 2).
  { change (hf_lqCN hf0 / hf_S hf0 = 5 / 2). now rewrite Hlq, HS. }
  assert (HT : exists T, conduct_T hf (5 / 2) = Ok T /\
                         nth_error T 0 = Some (hf_fT hf0 (1.0 + 5 / 2 * (1.0 - 0.85)))).
  { unfold conduct_T.
    rewrite select_Ok by now rewrite length_map. cbn [bind].
    rewrite assign_Ok;
      [| now rewrite !length_map
       | rewrite length_map; apply length_select_aux; now rewrite length_map].
    eexists. split; [reflexivity |].
    rewrite <- select_aux_map.
    rewrite nth_error_assign_select by now rewrite !length_map.
    unfold conduct_psiN. rewrite linspace_map, !map_map.
    rewrite !nth_error_map_seq by lia.
    change (INR 0) with 0.
    replace (0.85 + 0 * ((1.2 - 0.85) / INR (1000 - 1))) with 0.85 by ring.
    unfold Np.ltb. destruct (Rlt_dec 0.85 1.0) as [_ | Hn]; [reflexivity | lra]. }
  destruct HT as [T [HT Hnth]].
  exists hf0, hf, T, (hf_fT hf0 (1.0 + 5 / 2 * (1.0 - 0.85))).
  split; [reflexivity |]. split; [exact Hupd |].
  split; [now rewrite Hr |]. split; [exact Hnth |].
  rewrite <- HfT. split; [reflexivity |].
  apply Tprofile_negative_beyond_edge; lra.
Qed.

(** ** The layer model on the slab *)

(** Left of the origin the complementary error function is at least 1. *)
Lemma erfc_ref_ge_1 (x : R) : x <= 0 -> 1 <= erfc_ref x.
Proof.
  intros Hx. unfold erfc_ref.
  rewrite (RiemannInt_P8 (gauss_integrable 0 x) (gauss_integrable x 0)).
  assert (Hint : 0 <= RiemannInt (gauss_integrable x 0)).
  { pose proof (RiemannInt_P15 (RiemannInt_P14 x 0 0)) as H0.
    assert (Hle : RiemannInt (RiemannInt_P14 x 0 0) <= RiemannInt (gauss_integrable x 0)).
    { apply RiemannInt_P19; [exact Hx |].
      intros t _. unfold fct_cte, gauss. left. apply exp_pos. }
    rewrite H0 in Hle. lra. }
  assert (Hc : 0 < 2 / sqrt PI).
  { apply Rdiv_lt_0_compat; [lra | apply sqrt_lt_R0; apply PI_RGT_0]. }
  nra.
Qed.

Lemma INR_99 : INR (100 - 1) = 99.
Proof. rewrite INR_IZR_INZ. reflexivity. Qed.

(** On the slab the first-order spline of the low-field side is the line
    [R = psi + 1], from the axis to the end of the grid. *)
Lemma slab_spline_exact (hf : heatflux3D) :
  hf_ep hf = ep_slab -> truthy (hf_HFS hf) = false ->
  exists f, @map_R_psi_f scipy_linear hf None = Ok f /\
            forall psi, 0 <= psi <= 1.5 -> f psi = psi + 1.
Proof.
  intros Hep Hlfs. unfold map_R_psi_f. rewrite Hlfs, Hep.
  cbn [UnivariateSpline scipy_linear]. unfold spline_linear.
  rewrite midplane_psiN_map, length_map, length_linspace.
  cbn [Nat.eqb Nat.leb negb].
  rewrite Hep. cbn [psiFunc_ev ep_slab g_RmAxis g_R1 g_Xdim g_ZmAxis].
  rewrite linspace_map, map_map.
  assert (Hstep : 0 < (0.5 + 2 - 1) / INR (100 - 1)).
  { apply Rdiv_lt_0_compat; [lra | apply lt_0_INR; lia]. }
  assert (Hinc : increasing
                   (map (fun i => 1 + INR i * ((0.5 + 2 - 1) / INR (100 - 1)) - 1)
                      (seq 0 100)) = true).
  { apply increasing_map_seq. intros i. rewrite S_INR. lra. }
  rewrite Hinc. eexists. split; [reflexivity |].
  intros psi Hpsi.
  rewrite <- (map_map (fun i => 1 + INR i * ((0.5 + 2 - 1) / INR (100 - 1)))
                (fun r => r - 1)).
  set (Rs := map (fun i => 1 + INR i * ((0.5 + 2 - 1) / INR (100 - 1))) (seq 0 100)).
  replace Rs with (map (fun u => u + 1) (map (fun r => r - 1) Rs)) at 2.
  - apply interp_linear_line.
    + unfold Rs. rewrite map_map. exact Hinc.
    + unfold Rs. discriminate.
    + unfold Rs. rewrite map_map.
      change (seq 0 100) with (seq 0 (S 99)) at 2. rewrite last_map_seq.
      change (seq 0 (S 99)) with (0%nat :: seq 1 99). cbn [map hd Nat.add].
      change (INR 0) with 0. rewrite INR_99.
      replace (INR 99) with 99 by (rewrite INR_IZR_INZ; reflexivity).
      lra.
  - rewrite map_map. rewrite <- (map_id Rs) at 2. apply map_ext. intros r. ring.
Qed.

Lemma assign_scalar_aux_none {A : Type} (v q : A) (n : nat) :
  Np.assign_scalar_aux (repeat v n) (repeat false n) q = repeat v n.
Proof.
  induction n as [| n IH]; simpl; [reflexivity | now rewrite IH].
Qed.

Lemma fold_left_Rmax_repeat (v : R) (n : nat) : fold_left Rmax (repeat v n) v = v.
Proof.
  induction n as [| n IH]; simpl; [reflexivity |].
  rewrite Rmax_left by lra. exact IH.
Qed.

Lemma amax_repeat (v : R) (n : nat) : Np.amax (repeat v (S n)) = Ok v.
Proof.
  simpl. now rewrite fold_left_Rmax_repeat.
Qed.

Lemma arg_from_repeat (c : R) (n i best : nat) :
  Np.arg_from Np.ltb (repeat c n) i best c = best.
Proof.
  revert i. induction n as [| n IH]; intros i; simpl; [reflexivity |].
  unfold Np.ltb at 1. destruct (Rlt_dec c c) as [Hlt |]; [lra | apply IH].
Qed.

Lemma argmin_repeat (c : R) (n : nat) : Np.argmin (repeat c (S n)) = Ok 0%nat.
Proof.
  simpl. now rewrite arg_from_repeat.
Qed.

Lemma count_all_false {A : Type} (l : list A) :
  Np.count (map (fun _ => false) l) = 0%nat.
Proof.
  unfold Np.count. induction l as [| a l IH]; simpl; [reflexivity | exact IH].
Qed.

(** The points of a grid lie between its ends. *)
Lemma linspace_bounds (a b x : R) (n : nat) :
  a <= b -> (2 <= n)%nat -> In x (Np.linspace a b n) -> a <= x <= b.
Proof.
  intros Hab Hn Hx. rewrite linspace_map in Hx. apply in_map_iff in Hx.
  destruct Hx as [i [<- Hi]]. apply in_seq in Hi.
  assert (HN : 0 < INR (n - 1)) by (apply lt_0_INR; lia).
  assert (Hi0 : 0 <= INR i) by apply pos_INR.
  assert (HiN : INR i <= INR (n - 1)) by (apply le_INR; lia).
  set (N := INR (n - 1)) in *. set (t := (b - a) / N).
  assert (Ht : 0 <= t) by (unfold t; apply Rdiv_nonneg; lra).
  assert (HNt : N * t = b - a) by (unfold t; field; lra).
  split; nra.
Qed.

(** Simpson's integral of a constant shape over a thousand abscissae
    that move at every step. *)
Lemma simpson_const_grid (c : R) (g : nat -> R) (q : list R) :
  (forall i, g i <> g (S i)) -> Forall (eq c) q -> length q = 1000%nat ->
  simpson q (map g (seq 0 1000)) = c * (g 999%nat - g 0%nat).
Proof.
  intros Hg Hc Hlen.
  assert (Hxlen : length (map g (seq 0 1000)) = 1000%nat)
    by now rewrite length_map, length_seq.
  rewrite (simpson_const c _ _ (Sorted_map_seq_rel _ g 1000 Hg 0));
    [| now rewrite Hlen, Hxlen | exact Hc | rewrite Hxlen; lia].
  rewrite Hxlen. change (1000 - 1)%nat with 999%nat.
  now rewrite !nth_map_seq by lia.
Qed.

(** The layer shape of a trace that is [psimin = 1.05] everywhere, on the
    low-field side of the slab: the shape is 1 at every point. *)
Lemma set_layer_far (hf : heatflux3D) (f : R -> R) (n : nat) :
  @map_R_psi_f scipy_linear hf None = Ok f -> truthy (hf_HFS hf) = false ->
  (forall psi, 0 <= psi <= 1.5 -> f psi = psi + 1) ->
  exists qs,
    @set_layer scipy_linear hf (repeat 1.05 (S n)) 5 2 0.97 1 true
    = Ok (repeat 1 (S n), qs).
Proof.
  intros Hf Hlfs Hline.
  unfold set_layer, map_R_psi, map_R_psi_scalar, eich_profile_array, eich_profile.
  rewrite Hf, Hlfs. rewrite !eich_abc_Ok by lra. cbn [bind].
  layer_argmax. layer_item. layer_item.
  assert (Hxb : 1.92 <= x <= 2.07).
  { apply item_In in Hx. apply in_map_iff in Hx. destruct Hx as [psi [<- Hpsi]].
    apply linspace_bounds in Hpsi; [| lra | apply Nat.leb_le; vm_compute; reflexivity].
    rewrite Hline by lra. lra. }
  rewrite (Hline 0.97) by lra. rewrite !map_repeat. rewrite (Hline 1.05) by lra.
  assert (Hltb : Np.ltb 1.05 0.97 = false).
  { unfold Np.ltb. destruct (Rlt_dec 1.05 0.97); [lra | reflexivity]. }
  rewrite Hltb.
  rewrite assign_scalar_Ok by now rewrite !repeat_length.
  cbn [bind]. rewrite assign_scalar_aux_none, amax_repeat. cbn [bind].
  rewrite map_repeat.
  match goal with
  | |- context [repeat (?u / ?u * 1) _] => set (v := u)
  end.
  assert (Hv : 0 < v).
  { unfold v. cbn [eich_q erfc scipy_linear].
    match goal with
    | |- 0 < 0.5 * 1 * exp ?e * erfc_ref ?y + 0 =>
        pose proof (exp_pos e) as He;
        assert (Hy : y <= 0);
        [| pose proof (erfc_ref_ge_1 y Hy) as Hc; nra]
    end.
    lra. }
  eexists. f_equal. f_equal. f_equal. field. lra.
Qed.

(** The unscaled shape of [scale_layer] for that trace, on a grid of as
    many radii: no radius lies inside the first one, so that the whole
    shape is that of [set_layer]. *)
Lemma layer_q_hat_far (hf : heatflux3D) (f : R -> R) (Rmin Rmax : R) (n : nat) :
  @map_R_psi_f scipy_linear hf None = Ok f -> truthy (hf_HFS hf) = false ->
  (forall psi, 0 <= psi <= 1.5 -> f psi = psi + 1) ->
  hf_lcfs hf = 0.97 -> Rmin <= Rmax ->
  @layer_q_hat scipy_linear hf (repeat 1.05 (S n)) (Np.linspace Rmin Rmax (S n)) 5 2 1.0
  = Ok (repeat 1 (S n)).
Proof.
  intros Hf Hlfs Hline Hlcfs HR. unfold layer_q_hat.
  rewrite map_repeat, argmin_repeat. cbn [bind].
  unfold Np.item at 1. rewrite linspace_map at 1.
  rewrite nth_error_map_seq by lia. cbn [bind].
  rewrite Hlfs.
  rewrite <- (length_map (fun r => Np.ltb r (Rmin + INR 0 * ((Rmax - Rmin) / INR (S n - 1))))
                (Np.linspace Rmin Rmax (S n))).
  rewrite put_where_full. cbn [bind].
  assert (Hmask : map (fun x : bool => if x then true else false)
                    (map (fun r => Np.ltb r (Rmin + INR 0 * ((Rmax - Rmin) / INR (S n - 1))))
                       (Np.linspace Rmin Rmax (S n)))
                  = map (fun _ => false) (Np.linspace Rmin Rmax (S n))).
  { rewrite map_map. apply map_ext_in. intros r Hr.
    destruct n as [| n].
    - rewrite linspace_map in Hr. simpl in Hr. destruct Hr as [<- | []].
      unfold Np.ltb.
      destruct (Rlt_dec _ _) as [Hlt |]; [exfalso; exact (Rlt_irrefl _ Hlt) | reflexivity].
    - apply linspace_bounds in Hr; [| exact HR | lia].
      change (INR 0) with 0. unfold Np.ltb.
      destruct (Rlt_dec _ _) as [Hlt |]; [lra | reflexivity]. }
  rewrite Hmask, count_all_false, Hlcfs.
  destruct (set_layer_far hf f n Hf Hlfs Hline) as [qs Hset].
  rewrite Hset. reflexivity.
Qed.

Lemma midplane_rows_length : length midplane_rows = 1000%nat.
Proof. apply repeat_length. Qed.

Lemma midplane_rows_width : Forall (fun r : list R => length r = 5%nat) midplane_rows.
Proof.
  apply Forall_forall. intros r Hr. apply repeat_spec in Hr. now subst r.
Qed.

Lemma midplane_rows_psimin :
  map (fun r : list R => nth 4 r 0) midplane_rows = repeat 1.05 (S 999).
Proof.
  unfold midplane_rows. rewrite map_repeat. reflexivity.
Qed.

(** The integral of the layer shape over the flux, for the midplane trace
    of [w_midplane] on the slab: the shape is 1 on the radial window from
    [1.97 - 0.04] to [1.97 + 0.1]. *)
Lemma far_shape_integral (hf : heatflux3D) (q_hat psiN : list R) :
  hf_ep hf = ep_slab -> hf_HFS hf = Some false -> hf_lcfs hf = 0.97 ->
  hf_lqCN hf = 5 -> hf_S hf = 2 -> hf_inputDir hf = "run"%string ->
  @layer_shape scipy_linear hf w_midplane q_hat psiN ->
  simpson q_hat (map (fun psi => psi * (1 - 0) + 0) psiN) = 0.14.
Proof.
  intros Hep HHFS Hlcfs Hlq HS Hdir
    [Rlcfs [Ra [Rb [f' [lamdata [psimin [HR [Hwin [Hfile [Hgen [Hcol [Hq ->]]]]]]]]]]]].
  assert (Hlfs : truthy (hf_HFS hf) = false) by (rewrite HHFS; reflexivity).
  destruct (slab_spline_exact hf Hep Hlfs) as [f [Hf Hline]].
  (* the radius of the LCFS and the window *)
  unfold map_R_psi_scalar in HR. rewrite Hf in HR. cbn [bind] in HR.
  rewrite Hlcfs, Hline in HR by lra. injection HR as <-.
  unfold layer_window in Hwin. rewrite Hlfs, Hep, Hlq, HS in Hwin.
  cbn [g_R g_RmAxis ep_slab Np.amax fold_left bind] in Hwin.
  assert (Hhi : Rmax 0.5 2.5 = 2.5) by (apply Rmax_right; lra).
  rewrite Hhi in Hwin. unfold Np.ltb in Hwin.
  destruct (Rlt_dec (0.97 + 1 - 20.0 * 2 * 1e-3) 1) as [Hlt |] in Hwin; [lra |].
  destruct (Rlt_dec 2.5 (0.97 + 1 + 20.0 * 5 * 1e-3)) as [Hlt |] in Hwin; [lra |].
  injection Hwin as <- <-.
  (* the trace *)
  unfold layer_file, layer_tag in Hfile. rewrite Hdir, Hlfs in Hfile.
  change (Some (TableFile midplane_rows) = Some f') in Hfile.
  injection Hfile as <-.
  assert (Hps : (lamdata <- genfromtxt (TableFile midplane_rows) ;; column lamdata 4)
                = Ok psimin) by (rewrite Hgen; exact Hcol).
  rewrite (column4_Ok _ midplane_rows 5) in Hps;
    [| reflexivity | rewrite midplane_rows_length; lia | exact midplane_rows_width | lia].
  rewrite midplane_rows_psimin in Hps.
  assert (psimin = repeat 1.05 (S 999)) by congruence. subst psimin.
  (* the shape *)
  rewrite Hlq, HS in Hq. unfold layer_grid in Hq.
  change 1000%nat with (S 999) in Hq at 1.
  rewrite (layer_q_hat_far hf f _ _ 999 Hf Hlfs Hline Hlcfs) in Hq by lra.
  assert (q_hat = repeat 1 1000) by congruence. subst q_hat.
  (* the integral *)
  rewrite midplane_psiN_map, Hep. cbn [psiFunc_ev ep_slab g_ZmAxis].
  unfold layer_grid. rewrite linspace_map, !map_map.
  rewrite simpson_const_grid with (c := 1).
  - rewrite INR_999. change (INR 0) with 0.
    replace (INR 999) with 999 by (rewrite INR_IZR_INZ; reflexivity).
    dfield.
  - intros i. rewrite S_INR, INR_999. lra.
  - apply Forall_forall. intros y Hy. apply repeat_spec in Hy. now subst y.
  - apply repeat_length.
Qed.

(** The layer run of the worked examples. *)
Lemma far_run :
  exists hf0 hf q q0,
    @initializeHF3D scipy_linear ep_slab ctl_eich "run" [] = Ok hf0 /\
    updateLaminarData hf0 scenario_psimin scenario_Lc = Ok hf /\
    @heatflux_model scipy_linear host_static hf w_midplane "O" 0.5
    = Ok (set_HFS hf false, q, q0, w_midplane) /\
    is_layer_model hf = true /\ hf_ep hf = ep_slab /\ hf_lcfs hf = 0.97 /\
    hf_lqCN hf = 5 /\ hf_S hf = 2 /\ hf_inputDir hf = "run"%string.
Proof.
  destruct (@initializeHF3D scipy_linear ep_slab ctl_eich "run" []) as [hf0 | e] eqn:Hinit;
    [| discriminate Hinit].
  destruct (@initializeHF3D_inv scipy_linear _ _ _ _ _ Hinit)
    as [_ [Hep [Hm [Hlq [HS [_ [Hlcfs [_ [Hdir _]]]]]]]]].
  change (hf_model hf0 = Some "eich"%string) in Hm.
  change (hf_lqCN hf0 = 5) in Hlq. change (hf_S hf0 = 2) in HS.
  change (hf_lcfs hf0 = 0.97) in Hlcfs.
  pose proof (updateLaminarData_eq hf0 scenario_psimin scenario_Lc eq_refl) as Hupd.
  set (hf := set_pfr _ _) in Hupd.
  assert (Hlayer : is_layer_model hf = true).
  { unfold is_layer_model. change (hf_model hf) with (hf_model hf0). now rewrite Hm. }
  destruct (slab_spline_exact (set_HFS hf false) Hep eq_refl) as [f [Hf _]].
  destruct (@heatflux_model_layer_Ok scipy_linear host_static hf0 hf scenario_psimin
              scenario_Lc w_midplane "O" 0.5 f
              (TableFile midplane_rows) midplane_rows 5 Hupd)
    as [q [q0 [Hmodel _]]].
  - simpl. lia.
  - exact Hlayer.
  - change (hf_lqCN hf0 <> 0). rewrite Hlq. lra.
  - reflexivity.
  - exact Hf.
  - change (g_R (hf_ep hf0) <> []). rewrite Hep. discriminate.
  - unfold layer_file, layer_tag.
    change (hf_inputDir (set_HFS hf (negb (contains "O" "O")))) with (hf_inputDir hf0).
    rewrite Hdir. reflexivity.
  - reflexivity.
  - exact midplane_rows_length.
  - exact midplane_rows_width.
  - lia.
  - exists hf0, hf, q, q0. split; [reflexivity |]. split; [exact Hupd |].
    split; [exact Hmodel |]. split; [exact Hlayer |].
    split; [exact Hep |]. split; [exact Hlcfs |]. split; [exact Hlq |].
    split; [exact HS | exact Hdir].
Qed.

(** ** The scale factor of the worked runs *)

Lemma scale_factor_is_power_balance_witness :
  (exists hf0 hf hf1 q q0 q_hat,
     @initializeHF3D scipy_linear ep_slab ctl_flat "run" [] = Ok hf0 /\
     updateLaminarData hf0 scenario_psimin scenario_Lc = Ok hf /\
     @heatflux_model scipy_linear host_static hf w_idle "O" 0.5 = Ok (hf1, q, q0, w_idle) /\
     @conduct_shape scipy_linear hf1 q_hat conduct_psiN /\
     0 < simpson q_hat (map (fun psi => psi * (1 - 0) + 0) conduct_psiN) /\
     q0 = 10 * (1 - 0.3) * 0.5
          / (2 * PI * simpson q_hat (map (fun psi => psi * (1 - 0) + 0) conduct_psiN))) /\
  (exists hf0 hf hf1 q q0 q_hat,
     @initializeHF3D scipy_linear ep_falling ctl_flat "run" [] = Ok hf0 /\
     updateLaminarData hf0 scenario_psimin scenario_Lc = Ok hf /\
     @heatflux_model scipy_linear host_static hf w_idle "O" 0.5 = Ok (hf1, q, q0, w_idle) /\
     @conduct_shape scipy_linear hf1 q_hat conduct_psiN /\
     simpson q_hat (map (fun psi => psi * (-0.5 - 0.5) + 0.5) conduct_psiN) < 0 /\
     q0 = 10 * (1 - 0.3) * 0.5
          / - (2 * PI * simpson q_hat
                          (map (fun psi => psi * (-0.5 - 0.5) + 0.5) conduct_psiN))) /\
  (exists hf0 hf hf1 q q0 q_hat psiN,
     @initializeHF3D scipy_linear ep_slab ctl_eich "run" [] = Ok hf0 /\
     updateLaminarData hf0 scenario_psimin scenario_Lc = Ok hf /\
     @heatflux_model scipy_linear host_static hf w_midplane "O" 0.5
     = Ok (hf1, q, q0, w_midplane) /\
     @layer_shape scipy_linear hf1 w_midplane q_hat psiN /\
     simpson q_hat (map (fun psi => psi * (1 - 0) + 0) psiN) = 0.14 /\
     q0 = 10 * (1 - 0.3) * 0.5 / (2 * PI * 0.14)).
Proof.
  split; [| split].
  - destruct (flat_run ep_slab)
      as [hf0 [hf [q [q0 [Hinit [Hupd [Hmodel [HfT [Hk [Hlcfs [Hps [HLc Hnl]]]]]]]]]]]].
    destruct (@scale_factor_is_power_balance scipy_linear host_static ep_slab ctl_flat
                "run" [] hf0 hf hf scenario_psimin scenario_Lc w_idle w_idle "O" 0.5 q0 q
                Hinit Hupd Hmodel) as [q_hat [psiN [Hshape [_ Hq0]]]].
    rewrite Hnl in Hshape.
    destruct (flat_shape_integral hf q_hat psiN 1 0 HfT Hk Hlcfs Hps HLc Hshape)
      as [c [Hc [-> HI]]]; [lra |].
    cbv zeta in Hq0. cbn [c_P c_coreRadFrac ctl_flat g_psiSep g_psiAxis ep_slab] in Hq0.
    change (@simps scipy_linear) with simpson in Hq0.
    assert (Hpos : 0 < simpson q_hat (map (fun psi => psi * (1 - 0) + 0) conduct_psiN))
      by (rewrite HI; nra).
    destruct (Hq0 ltac:(lra)) as [_ [_ Hq]].
    exists hf0, hf, hf, q, q0, q_hat.
    split; [exact Hinit |]. split; [exact Hupd |]. split; [exact Hmodel |].
    split; [exact Hshape |]. split; [exact Hpos | exact (Hq Hpos)].
  - destruct (flat_run ep_falling)
      as [hf0 [hf [q [q0 [Hinit [Hupd [Hmodel [HfT [Hk [Hlcfs [Hps [HLc Hnl]]]]]]]]]]]].
    destruct (@scale_factor_is_power_balance scipy_linear host_static ep_falling ctl_flat
                "run" [] hf0 hf hf scenario_psimin scenario_Lc w_idle w_idle "O" 0.5 q0 q
                Hinit Hupd Hmodel) as [q_hat [psiN [Hshape [_ Hq0]]]].
    rewrite Hnl in Hshape.
    destruct (flat_shape_integral hf q_hat psiN (-0.5) 0.5 HfT Hk Hlcfs Hps HLc Hshape)
      as [c [Hc [-> HI]]]; [lra |].
    cbv zeta in Hq0.
    cbn [c_P c_coreRadFrac ctl_flat g_psiSep g_psiAxis ep_falling] in Hq0.
    change (@simps scipy_linear) with simpson in Hq0.
    assert (Hneg : simpson q_hat (map (fun psi => psi * (-0.5 - 0.5) + 0.5) conduct_psiN) < 0)
      by (rewrite HI; nra).
    destruct (Hq0 ltac:(lra)) as [_ [Hq _]].
    exists hf0, hf, hf, q, q0, q_hat.
    split; [exact Hinit |]. split; [exact Hupd |]. split; [exact Hmodel |].
    split; [exact Hshape |]. split; [exact Hneg | exact (Hq Hneg)].
  - destruct far_run
      as [hf0 [hf [q [q0 [Hinit [Hupd [Hmodel [Hlayer [Hep [Hlcfs [Hlq [HS Hdir]]]]]]]]]]]].
    destruct (@scale_factor_is_power_balance scipy_linear host_static ep_slab ctl_eich
                "run" [] hf0 hf (set_HFS hf false) scenario_psimin scenario_Lc
                w_midplane w_midplane "O" 0.5 q0 q Hinit Hupd Hmodel)
      as [q_hat [psiN [Hshape [_ Hq0]]]].
    rewrite Hlayer in Hshape.
    pose proof (far_shape_integral (set_HFS hf false) q_hat psiN Hep eq_refl Hlcfs Hlq HS
                  Hdir Hshape) as HI.
    cbv zeta in Hq0. cbn [c_P c_coreRadFrac ctl_eich g_psiSep g_psiAxis ep_slab] in Hq0.
    change (@simps scipy_linear) with simpson in Hq0.
    rewrite HI in Hq0.
    destruct (Hq0 ltac:(lra)) as [_ [_ Hq]].
    exists hf0, hf, (set_HFS hf false), q, q0, q_hat, psiN.
    split; [exact Hinit |]. split; [exact Hupd |]. split; [exact Hmodel |].
    split; [exact Hshape |]. split; [exact HI | apply Hq; lra].
Defined.
